(** * PPO rollout storage and update engine: a shallow embedding

    The development follows [core/learners/rollout_storage.py] and
    [core/learners/ppo.py].

    - Tensors of shape [K, N, ...] are kept at the granularity the code
      indexes them: a list of [K] rows (the time axis), each row a list of
      [N] per-environment entries.  The size of the second axis is stored
      next to the rows, because torch keeps it even when [K = 0].
    - Python exceptions are values of [exn]; every fallible operation
      returns a [result].  Index errors on the time axis and shape errors of
      broadcasting are written out.
    - The floating point numbers are an abstract carrier [R] with the
      operations the code uses.  Statements that only trace which operations
      the code performs need no law of arithmetic; a statement that needs an
      algebraic identity assumes [ExactArith], the laws of exact arithmetic.
    - The draws of [torch.randperm] are an explicit argument [perm]. *)

From Stdlib Require Import ZArith Ring QArith Qcanon.
From stdpp Require Import base list numbers strings.

Open Scope nat_scope.

(** ** Exceptions and the error monad *)

Inductive exn : Set :=
| IndexError
| ZeroDivisionError
| AssertionError
| RuntimeError
| ValueError
| TypeError
| NotImplementedError.

Inductive result (A : Type) : Type :=
| Ok (a : A)
| Raise (e : exn).
Arguments Ok {A} a.
Arguments Raise {A} e.

#[global] Instance result_ret : MRet result := fun A a => Ok a.
#[global] Instance result_bind : MBind result := fun A B f m =>
  match m with
  | Ok a => f a
  | Raise e => Raise e
  end.

(** A Python [for] loop over a list of indices, threading the loop state. *)
Fixpoint for_each {S : Type} (body : nat -> S -> result S) (l : list nat) (s : S)
  : result S :=
  match l with
  | [] => Ok s
  | i :: l' => s' ← body i s; for_each body l' s'
  end.

(** [reversed(range(n))] *)
Definition reversed_range (n : nat) : list nat := rev (seq 0 n).

(** ** Arithmetic of the scalars *)

Class Arith (R : Type) : Type := {
  r0 : R;
  r1 : R;
  radd : R -> R -> R;
  rsub : R -> R -> R;
  rmul : R -> R -> R;
  rdiv : R -> R -> R;
  ropp : R -> R;
  of_Z : Z -> R
}.

(** The laws of exact arithmetic. *)
Class ExactArith (R : Type) `{Arith R} : Prop := {
  arith_ring : ring_theory r0 r1 radd rmul rsub ropp (@eq R);
  rdiv_0_l : forall x, rdiv r0 x = r0;
  rdiv_same : forall x, x <> r0 -> rdiv x x = r1;
  of_Z_0 : of_Z 0 = r0;
  of_Z_nonzero : forall z, z <> 0%Z -> of_Z z <> r0
}.

#[global] Instance Z_arith : Arith Z := {|
  r0 := 0%Z; r1 := 1%Z;
  radd := Z.add; rsub := Z.sub; rmul := Z.mul; rdiv := Z.div;
  ropp := Z.opp; of_Z := fun z => z
|}.

#[global] Instance Qc_arith : Arith Qc := {|
  r0 := Q2Qc 0; r1 := Q2Qc 1;
  radd := Qcplus; rsub := Qcminus; rmul := Qcmult; rdiv := Qcdiv;
  ropp := Qcopp; of_Z := fun z => Q2Qc (inject_Z z)
|}.

(** ** Tensors *)

Record tensor (A : Type) : Type := Tensor {
  size1 : nat;              (* [t.size(1)] *)
  rows : list (list A)      (* [t[0]], [t[1]], ... *)
}.
Arguments Tensor {A} size1 rows.
Arguments size1 {A} t.
Arguments rows {A} t.

Section Tensors.
Context {A : Type}.

(** [t.size(0)] *)
Definition size0 (t : tensor A) : nat := length (rows t).

(** [torch.zeros(k, n, ...)], [torch.ones(k, n, ...)] *)
Definition full (k n : nat) (x : A) : tensor A :=
  Tensor n (replicate k (replicate n x)).

(** [t[i]] for [i >= 0] *)
Definition get_row (t : tensor A) (i : nat) : result (list A) :=
  match rows t !! i with
  | Some r => Ok r
  | None => Raise IndexError
  end.

(** [t[-1]] *)
Definition get_last (t : tensor A) : result (list A) :=
  match size0 t with
  | 0 => Raise IndexError
  | S k => get_row t k
  end.

(** Broadcasting a source of [length v] entries to a row of [n] entries. *)
Definition broadcast_to (n : nat) (v : list A) : result (list A) :=
  if length v =? n then Ok v
  else match v with
       | [x] => Ok (replicate n x)
       | _ => Raise RuntimeError
       end.

(** [t[i].copy_(v)] and [t[i] = v] for a tensor [v] *)
Definition set_row (t : tensor A) (i : nat) (v : list A) : result (tensor A) :=
  match rows t !! i with
  | Some _ =>
      r ← broadcast_to (size1 t) v;
      Ok (Tensor (size1 t) (<[i := r]> (rows t)))
  | None => Raise IndexError
  end.

(** [t[-1] = v] *)
Definition set_last (t : tensor A) (v : list A) : result (tensor A) :=
  match size0 t with
  | 0 => Raise IndexError
  | S k => set_row t k v
  end.

(** [t[:-1]] *)
Definition drop_last (t : tensor A) : tensor A :=
  Tensor (size1 t) (take (size0 t - 1) (rows t)).

(** [t.view(-1, ...)]: the rows one after the other *)
Definition flatten (t : tensor A) : list A := concat (rows t).

(** [flat[indices]] *)
Definition gather (flat : list A) (indices : list nat) : result (list A) :=
  mapM (fun i => match flat !! i with
                 | Some x => Ok x
                 | None => Raise IndexError
                 end) indices.

(** A tensor of [k] rows of [n] entries each. *)
Definition shaped (k n : nat) (t : tensor A) : Prop :=
  size1 t = n /\ length (rows t) = k /\ Forall (fun r => length r = n) (rows t).
End Tensors.

(** ** Values of arithmetic expressions: a Python number or a tensor *)

Inductive value (R : Type) : Type :=
| Num (x : R)
| Tens (v : list R).
Arguments Num {R} x.
Arguments Tens {R} v.

Section Values.
Context {R : Type} `{Arith R}.

(** Elementwise binary operation with torch's broadcasting. *)
Definition broadcast2 (f : R -> R -> R) (a b : value R) : result (value R) :=
  match a, b with
  | Num x, Num y => Ok (Num (f x y))
  | Num x, Tens v => Ok (Tens (map (f x) v))
  | Tens u, Num y => Ok (Tens (map (fun x => f x y) u))
  | Tens u, Tens v =>
      if length u =? length v then Ok (Tens (zip_with f u v))
      else match u, v with
           | [x], _ => Ok (Tens (map (f x) v))
           | _, [y] => Ok (Tens (map (fun x => f x y) u))
           | _, _ => Raise RuntimeError
           end
  end.

Definition vadd := broadcast2 radd.
Definition vsub := broadcast2 rsub.
Definition vmul := broadcast2 rmul.

(** [t[i] = v] where [v] is a number or a tensor *)
Definition assign_row (t : tensor R) (i : nat) (v : value R) : result (tensor R) :=
  match v with
  | Num x => set_row t i [x]
  | Tens l => set_row t i l
  end.

#[global] Instance R_inhabited : Inhabited R := populate r0.

(** Entry [(i, e)] of a tensor, [r0] outside of it. *)
Definition ent (t : tensor R) (i e : nat) : R := (rows t !!! i) !!! e.

Definition vshape (n : nat) (v : value R) : Prop :=
  match v with
  | Num _ => True
  | Tens l => length l = n
  end.

Definition vent (v : value R) (e : nat) : R :=
  match v with
  | Num x => x
  | Tens l => l !!! e
  end.
End Values.

(** ** The rollout storage *)

Inductive action_space : Set :=
| Discrete
| Box (shape0 : nat)
| OtherSpace.

Section Storage.
Context {Obs Hid Act R : Type} `{Arith R}.

Record RolloutStorage : Type := mkStorage {
  obs : tensor Obs;                       (* [T+1, N, *obs_shape] *)
  recurrent_hidden_states : tensor Hid;   (* [T+1, N, state_size] *)
  rewards : tensor R;                     (* [T, N, 1] *)
  value_preds : tensor R;                 (* [T+1, N, 1] *)
  returns : tensor R;                     (* [T+1, N, 1] *)
  action_log_probs : tensor R;            (* [T, N, 1] *)
  actions : tensor Act;                   (* [T, N, action_shape] *)
  done_masks : tensor R;                  (* [T+1, N, 1] *)
  time_limit_masks : tensor R;            (* [T+1, N, 1] *)
  rollout_steps : nat;
  step : nat
}.

Definition with_value_preds (s : RolloutStorage) (t : tensor R) : RolloutStorage :=
  mkStorage (obs s) (recurrent_hidden_states s) (rewards s) t (returns s)
    (action_log_probs s) (actions s) (done_masks s) (time_limit_masks s)
    (rollout_steps s) (step s).

Definition with_returns (s : RolloutStorage) (t : tensor R) : RolloutStorage :=
  mkStorage (obs s) (recurrent_hidden_states s) (rewards s) (value_preds s) t
    (action_log_probs s) (actions s) (done_masks s) (time_limit_masks s)
    (rollout_steps s) (step s).

(** [RolloutStorage.__init__]; [obs0], [hid0] and [act0] are the zero
    entries of the three payload types. *)
Definition init (obs0 : Obs) (hid0 : Hid) (act0 : Act)
    (rollout_steps num_processes : nat) (space : action_space)
  : result RolloutStorage :=
  let o := full (rollout_steps + 1) num_processes obs0 in
  let h := full (rollout_steps + 1) num_processes hid0 in
  let rw := full rollout_steps num_processes r0 in
  let vp := full (rollout_steps + 1) num_processes r0 in
  let rt := full (rollout_steps + 1) num_processes r0 in
  let lp := full rollout_steps num_processes r0 in
  a ← match space with
      | Discrete => Ok (full rollout_steps num_processes act0)
      | Box _ => Ok (full rollout_steps num_processes act0)
      | OtherSpace => Raise NotImplementedError
      end;
  let dm := full (rollout_steps + 1) num_processes r1 in
  let tl := full (rollout_steps + 1) num_processes r1 in
  Ok (mkStorage o h rw vp rt lp a dm tl rollout_steps 0).

(** [RolloutStorage.insert].  An exception aborts the call; the partly
    written buffer is not observed afterwards. *)
Definition insert (s : RolloutStorage)
    (obs_in : list Obs) (recurrent_hidden_states_in : list Hid)
    (actions_in : list Act) (action_log_probs_in value_preds_in rewards_in
                             done_masks_in time_limit_masks_in : list R)
  : result RolloutStorage :=
  o ← set_row (obs s) (step s + 1) obs_in;
  h ← set_row (recurrent_hidden_states s) (step s + 1) recurrent_hidden_states_in;
  a ← set_row (actions s) (step s) actions_in;
  lp ← set_row (action_log_probs s) (step s) action_log_probs_in;
  vp ← set_row (value_preds s) (step s) value_preds_in;
  rw ← set_row (rewards s) (step s) rewards_in;
  dm ← set_row (done_masks s) (step s + 1) done_masks_in;
  tl ← set_row (time_limit_masks s) (step s + 1) time_limit_masks_in;
  match rollout_steps s with
  | 0 => Raise ZeroDivisionError
  | S _ =>
      Ok (mkStorage o h rw vp (returns s) lp a dm tl (rollout_steps s)
            ((step s + 1) mod rollout_steps s))
  end.

(** The arguments of one [insert] call. *)
Record transition : Type := mkTransition {
  t_obs : list Obs;
  t_hid : list Hid;
  t_actions : list Act;
  t_action_log_probs : list R;
  t_value_preds : list R;
  t_rewards : list R;
  t_done_masks : list R;
  t_time_limit_masks : list R
}.

Definition insert_transition (s : RolloutStorage) (d : transition)
  : result RolloutStorage :=
  insert s (t_obs d) (t_hid d) (t_actions d) (t_action_log_probs d)
    (t_value_preds d) (t_rewards d) (t_done_masks d) (t_time_limit_masks d).

(** A sequence of [insert] calls, as the training loop issues them. *)
Fixpoint insert_all (s : RolloutStorage) (ds : list transition)
  : result RolloutStorage :=
  match ds with
  | [] => Ok s
  | d :: ds' => s' ← insert_transition s d; insert_all s' ds'
  end.

(** [RolloutStorage.after_update] *)
Definition after_update (s : RolloutStorage) : result RolloutStorage :=
  o_last ← get_last (obs s);
  o ← set_row (obs s) 0 o_last;
  h_last ← get_last (recurrent_hidden_states s);
  h ← set_row (recurrent_hidden_states s) 0 h_last;
  dm_last ← get_last (done_masks s);
  dm ← set_row (done_masks s) 0 dm_last;
  tl_last ← get_last (time_limit_masks s);
  tl ← set_row (time_limit_masks s) 0 tl_last;
  Ok (mkStorage o h (rewards s) (value_preds s) (returns s)
        (action_log_probs s) (actions s) dm tl (rollout_steps s) (step s)).

(** *** [compute_returns]: the four loop bodies *)

Definition loop_state : Type := RolloutStorage * value R.

(** lines 154-161 *)
Definition gae_time_limit_body (gamma gae_lambda : R) (i : nat) (st : loop_state)
  : result loop_state :=
  let '(s, gae) := st in
  rw ← get_row (rewards s) i;
  vp1 ← get_row (value_preds s) (i + 1);
  a ← vmul (Num gamma) (Tens vp1);
  dm1 ← get_row (done_masks s) (i + 1);
  b ← vmul a (Tens dm1);
  c ← vadd (Tens rw) b;
  vp0 ← get_row (value_preds s) i;
  delta ← vsub c (Tens vp0);
  dm1' ← get_row (done_masks s) (i + 1);
  d ← vmul (Num (rmul gamma gae_lambda)) (Tens dm1');
  e ← vmul d gae;
  gae1 ← vadd delta e;
  tl1 ← get_row (time_limit_masks s) (i + 1);
  gae2 ← vmul gae1 (Tens tl1);
  vp0' ← get_row (value_preds s) i;
  ret ← vadd gae2 (Tens vp0');
  rt ← assign_row (returns s) i ret;
  Ok (with_returns s rt, gae2).

(** lines 165-172 *)
Definition return_time_limit_body (gamma : R) (i : nat) (s : RolloutStorage)
  : result RolloutStorage :=
  rt1 ← get_row (returns s) (i + 1);
  a ← vmul (Tens rt1) (Num gamma);
  dm1 ← get_row (done_masks s) (i + 1);
  b ← vmul a (Tens dm1);
  rw ← get_row (rewards s) i;
  c ← vadd b (Tens rw);
  tl1 ← get_row (time_limit_masks s) (i + 1);
  d ← vmul c (Tens tl1);
  tl1' ← get_row (time_limit_masks s) (i + 1);
  e ← vsub (Num r1) (Tens tl1');
  vp0 ← get_row (value_preds s) i;
  f ← vmul e (Tens vp0);
  ret ← vadd d f;
  rt ← assign_row (returns s) i ret;
  Ok (with_returns s rt).

(** lines 178-184 *)
Definition gae_body (gamma gae_lambda : R) (i : nat) (st : loop_state)
  : result loop_state :=
  let '(s, gae) := st in
  rw ← get_row (rewards s) i;
  vp1 ← get_row (value_preds s) (i + 1);
  a ← vmul (Num gamma) (Tens vp1);
  dm1 ← get_row (done_masks s) (i + 1);
  b ← vmul a (Tens dm1);
  c ← vadd (Tens rw) b;
  vp0 ← get_row (value_preds s) i;
  delta ← vsub c (Tens vp0);
  dm1' ← get_row (done_masks s) (i + 1);
  d ← vmul (Num (rmul gamma gae_lambda)) (Tens dm1');
  e ← vmul d gae;
  gae1 ← vadd delta e;
  vp0' ← get_row (value_preds s) i;
  ret ← vadd gae1 (Tens vp0');
  rt ← assign_row (returns s) i ret;
  Ok (with_returns s rt, gae1).

(** lines 188-191 *)
Definition return_body (gamma : R) (i : nat) (s : RolloutStorage)
  : result RolloutStorage :=
  rt1 ← get_row (returns s) (i + 1);
  a ← vmul (Tens rt1) (Num gamma);
  dm1 ← get_row (done_masks s) (i + 1);
  b ← vmul a (Tens dm1);
  rw ← get_row (rewards s) i;
  ret ← vadd b (Tens rw);
  rt ← assign_row (returns s) i ret;
  Ok (with_returns s rt).

(** [RolloutStorage.compute_returns] *)
Definition compute_returns (s : RolloutStorage) (next_value : list R)
    (use_gae : bool) (gamma gae_lambda : R) (use_proper_time_limits : bool)
  : result RolloutStorage :=
  if use_proper_time_limits then
    if use_gae then
      vp ← set_last (value_preds s) next_value;
      st ← for_each (gae_time_limit_body gamma gae_lambda)
             (reversed_range (size0 (rewards s)))
             (with_value_preds s vp, Num r0);
      Ok (fst st)
    else
      rt ← set_last (returns s) next_value;
      for_each (return_time_limit_body gamma)
        (reversed_range (size0 (rewards s))) (with_returns s rt)
  else
    if use_gae then
      vp ← set_last (value_preds s) next_value;
      st ← for_each (gae_body gamma gae_lambda)
             (reversed_range (size0 (rewards s)))
             (with_value_preds s vp, Num r0);
      Ok (fst st)
    else
      rt ← set_last (returns s) next_value;
      for_each (return_body gamma)
        (reversed_range (size0 (rewards s))) (with_returns s rt).
End Storage.

Arguments RolloutStorage : clear implicits.
Arguments transition : clear implicits.

(** ** Generators

    A Python generator is modelled by what one full consumption observes:
    the items it yields, in order, and the exception that ends it, if any. *)

Record trace (A : Type) : Type := mkTrace {
  yielded : list A;
  raised : option exn
}.
Arguments mkTrace {A} yielded raised.
Arguments yielded {A} t.
Arguments raised {A} t.

Definition fail {A : Type} (e : exn) : trace A := mkTrace [] (Some e).

(** [for i in l: yield f(i)] *)
Fixpoint yield_each {I A : Type} (f : I -> result A) (l : list I) : trace A :=
  match l with
  | [] => mkTrace [] None
  | i :: l' =>
      match f i with
      | Ok a => let t := yield_each f l' in mkTrace (a :: yielded t) (raised t)
      | Raise e => fail e
      end
  end.

(** [SubsetRandomSampler(indices)]: yields [indices[i]] for [i] in
    [torch.randperm(len(indices))].  [perm] is that draw, a permutation of
    [0 .. len(indices) - 1], so every lookup is in range. *)
Definition SubsetRandomSampler (indices perm : list nat) : list nat :=
  omap (fun i => indices !! i) perm.

(** [BatchSampler(sampler, batch_size, drop_last=True)]: the indices are
    appended to [batch], which is yielded and emptied whenever it holds
    [batch_size] of them; what is left at the end is dropped. *)
Fixpoint batch_sampler_from (batch_size : nat) (batch sampler : list nat)
  : list (list nat) :=
  match sampler with
  | [] => []
  | idx :: rest =>
      let batch' := batch ++ [idx] in
      if length batch' =? batch_size
      then batch' :: batch_sampler_from batch_size [] rest
      else batch_sampler_from batch_size batch' rest
  end.

Definition BatchSampler (sampler : list nat) (batch_size : nat) : list (list nat) :=
  batch_sampler_from batch_size [] sampler.

(** [range(0, stop, step)] for [step <> 0] *)
Definition range_step (stop : nat) (step : Z) : list nat :=
  if (step <=? 0)%Z then []
  else let k := Z.to_nat step in
       map (fun j => j * k) (seq 0 ((stop + k - 1) / k)).

Section Generators.
Context {Obs Hid Act R : Type} `{Arith R}.
#[local] Abbreviation storage := (RolloutStorage Obs Hid Act R).

Record minibatch : Type := mkBatch {
  obs_batch : list Obs;
  recurrent_hidden_states_batch : list Hid;
  actions_batch : list Act;
  value_preds_batch : list R;
  return_batch : list R;
  masks_batch : list R;
  old_action_log_probs_batch : list R;
  adv_targ : option (list R)
}.

(** lines 230-246: the tuple yielded for one batch of flattened indices *)
Definition feed_forward_sample (s : storage) (advantages : option (tensor R))
    (indices : list nat) : result minibatch :=
  ob ← gather (flatten (drop_last (obs s))) indices;
  hb ← gather (flatten (drop_last (recurrent_hidden_states s))) indices;
  ab ← gather (flatten (actions s)) indices;
  vb ← gather (flatten (drop_last (value_preds s))) indices;
  rb ← gather (flatten (drop_last (returns s))) indices;
  mb ← gather (flatten (drop_last (done_masks s))) indices;
  lb ← gather (flatten (action_log_probs s)) indices;
  adv ← match advantages with
        | None => Ok None
        | Some a => x ← gather (flatten a) indices; Ok (Some x)
        end;
  Ok (mkBatch ob hb ab vb rb mb lb adv).

(** lines 210-223 *)
Definition feed_forward_minibatch_size (s : storage)
    (num_minibatches minibatch_size : option Z) : result Z :=
  let num_steps := size0 (rewards s) in
  let num_processes := size1 (rewards s) in
  let batch_size := num_processes * num_steps in
  match minibatch_size with
  | Some b => Ok b
  | None =>
      match num_minibatches with
      | None => Raise TypeError
      | Some nm =>
          if (Z.of_nat batch_size <? nm)%Z then Raise AssertionError
          else if (nm =? 0)%Z then Raise ZeroDivisionError
          else Ok (Z.of_nat batch_size / nm)%Z
      end
  end.

(** The batches of flattened indices the sampler of line 225 produces. *)
Definition feed_forward_batches (s : storage) (minibatch_size : Z)
    (perm : list nat) : list (list nat) :=
  let batch_size := size1 (rewards s) * size0 (rewards s) in
  BatchSampler (SubsetRandomSampler (seq 0 batch_size) perm)
    (Z.to_nat minibatch_size).

(** [RolloutStorage.feed_forward_generator] *)
Definition feed_forward_generator (s : storage) (advantages : option (tensor R))
    (num_minibatches minibatch_size : option Z) (perm : list nat)
  : trace minibatch :=
  match feed_forward_minibatch_size s num_minibatches minibatch_size with
  | Raise e => fail e
  | Ok b =>
      if (b <=? 0)%Z then fail ValueError
      else yield_each (feed_forward_sample s advantages)
             (feed_forward_batches s b perm)
  end.

(** [t[:, ind]] *)
Definition column {A : Type} (t : tensor A) (ind : nat) : result (list A) :=
  if ind <? size1 t then Ok (omap (fun r => r !! ind) (rows t))
  else Raise IndexError.

(** [torch.stack(cols, 1)]: row [t] holds entry [t] of every column. *)
Definition stack1 {A : Type} (cols : list (list A)) : list (list A) :=
  match cols with
  | [] => []
  | c :: _ => map (fun t => omap (fun col => col !! t) cols) (seq 0 (length c))
  end.

(** [_flatten_helper(T, N, torch.stack(cols, 1))] *)
Definition flatten_helper {A : Type} (T N : nat) (cols : list (list A))
  : result (list A) :=
  let stacked := stack1 cols in
  if length stacked * length cols =? T * N then Ok (concat stacked)
  else Raise RuntimeError.

(** What the inner loop of lines 279-291 appends for one environment. *)
Record env_columns : Type := mkColumns {
  c_obs : list Obs;
  c_hid : list Hid;
  c_actions : list Act;
  c_value_preds : list R;
  c_returns : list R;
  c_masks : list R;
  c_action_log_probs : list R;
  c_adv : list R
}.

Definition recurrent_columns (s : storage) (advantages : option (tensor R))
    (perm : list nat) (start_ind offset : nat) : result env_columns :=
  ind ← match perm !! (start_ind + offset) with
        | Some i => Ok i
        | None => Raise IndexError
        end;
  o ← column (drop_last (obs s)) ind;
  h ← column (Tensor (size1 (recurrent_hidden_states s))
                (take 1 (rows (recurrent_hidden_states s)))) ind;
  a ← column (actions s) ind;
  vp ← column (drop_last (value_preds s)) ind;
  rt ← column (drop_last (returns s)) ind;
  dm ← column (drop_last (done_masks s)) ind;
  lp ← column (action_log_probs s) ind;
  adv ← match advantages with
        | None => Raise TypeError
        | Some t => column t ind
        end;
  Ok (mkColumns o h a vp rt dm lp adv).

(** lines 270-321: the tuple yielded for the group starting at [start_ind] *)
Definition recurrent_sample (s : storage) (advantages : option (tensor R))
    (perm : list nat) (num_envs_per_batch start_ind : nat) : result minibatch :=
  cols ← mapM (recurrent_columns s advantages perm start_ind)
           (seq 0 num_envs_per_batch);
  let T := rollout_steps s in
  let N := num_envs_per_batch in
  hb ← (if length (concat (map c_hid cols)) =? N * 1
        then Ok (concat (map c_hid cols)) else Raise RuntimeError);
  ob ← flatten_helper T N (map c_obs cols);
  ab ← flatten_helper T N (map c_actions cols);
  vb ← flatten_helper T N (map c_value_preds cols);
  rb ← flatten_helper T N (map c_returns cols);
  mb ← flatten_helper T N (map c_masks cols);
  lb ← flatten_helper T N (map c_action_log_probs cols);
  adv ← flatten_helper T N (map c_adv cols);
  Ok (mkBatch ob hb ab vb rb mb lb (Some adv)).

(** [RolloutStorage.recurrent_generator] *)
Definition recurrent_generator (s : storage) (advantages : option (tensor R))
    (num_minibatches : Z) (perm : list nat) : trace minibatch :=
  let num_processes := size1 (rewards s) in
  if (Z.of_nat num_processes <? num_minibatches)%Z then fail AssertionError
  else if (num_minibatches =? 0)%Z then fail ZeroDivisionError
  else
    let num_envs_per_batch := (Z.of_nat num_processes / num_minibatches)%Z in
    if (num_envs_per_batch =? 0)%Z then fail ValueError
    else yield_each
           (recurrent_sample s advantages perm (Z.to_nat num_envs_per_batch))
           (range_step num_processes num_envs_per_batch).
End Generators.

Arguments minibatch : clear implicits.
Arguments env_columns : clear implicits.

(** ** The PPO update engine *)

(** The torch functions of the loss, on the abstract scalars. *)
Class TorchOps (R : Type) : Type := {
  t_exp : R -> R;
  t_clamp : R -> R -> R -> R;     (* [clamp(x, lo, hi)] *)
  t_min : R -> R -> R;
  t_max : R -> R -> R;
  t_pow2 : R -> R;                (* [x.pow(2)] *)
  t_mean : list R -> R;
  t_std : list R -> R;
  r_half : R;                     (* [0.5] *)
  r_eps : R                       (* [1e-5] *)
}.

Definition OPT_ACTOR_PARAMS : string := "params:actor".
Definition OPT_CRITIC_PARAMS : string := "params:critic".

Section PPO.
Context {Obs Hid Act R : Type} `{Arith R} `{TorchOps R}.
#[local] Abbreviation storage := (RolloutStorage Obs Hid Act R).
#[local] Abbreviation batch := (minibatch Obs Hid Act R).

(** One entry of [optimizer.param_groups]; the parameters themselves
    belong to the policy state below. *)
Record param_group : Type := mkGroup {
  pg_name : string;
  pg_lr : R;
  pg_eps : option R
}.

Record PPO : Type := mkPPO {
  clip_param : R;
  num_epochs : Z;
  num_minibatches : Z;
  value_loss_coef : R;
  entropy_coef : R;
  max_grad_norm : option R;
  use_clipped_value_loss : bool;
  initial_actor_lr : R;
  param_groups : list param_group
}.

(** [PPO.__init__] *)
Definition ppo_init (clip_param : R) (num_epochs num_minibatches : Z)
    (entropy_coef value_loss_coef actor_lr critic_lr : R)
    (eps max_grad_norm : option R) (use_clipped_value_loss : bool) : PPO :=
  mkPPO clip_param num_epochs num_minibatches value_loss_coef entropy_coef
    max_grad_norm use_clipped_value_loss actor_lr
    [mkGroup OPT_ACTOR_PARAMS actor_lr eps; mkGroup OPT_CRITIC_PARAMS critic_lr eps].

Definition with_param_groups (self : PPO) (gs : list param_group) : PPO :=
  mkPPO (clip_param self) (num_epochs self) (num_minibatches self)
    (value_loss_coef self) (entropy_coef self) (max_grad_norm self)
    (use_clipped_value_loss self) (initial_actor_lr self) gs.

(** lines 89-95: one iteration of the loop over the parameter groups *)
Definition schedule_group (self : PPO) (current_epoch total_epochs : Z)
    (g : param_group) : result param_group :=
  if negb (String.eqb (pg_name g) OPT_ACTOR_PARAMS) then Ok g
  else if (total_epochs =? 0)%Z then Raise ZeroDivisionError
  else
    let lr := rsub (initial_actor_lr self)
                (rmul (initial_actor_lr self)
                   (rdiv (of_Z current_epoch) (of_Z total_epochs))) in
    Ok (mkGroup (pg_name g) lr (pg_eps g)).

(** [PPO.update_linear_schedule] *)
Definition update_linear_schedule (self : PPO) (current_epoch total_epochs : Z)
  : result PPO :=
  gs ← mapM (schedule_group self current_epoch total_epochs) (param_groups self);
  Ok (with_param_groups self gs).

(** *** The external policy and optimizer

    [Params] is the state the update mutates: the parameters of actor and
    critic and the state of the optimizer. *)
Context {Params : Type}.

Record actor_critic : Type := mkPolicy {
  is_recurrent : bool;
  (* [evaluate_actions(obs, states, masks, actions)]:
     values, action log-probabilities, entropy *)
  evaluate_actions :
    Params -> list Obs -> list Hid -> list R -> list Act -> list R * list R * R;
  (* [zero_grad], [backward] of the total loss of the minibatch, the two
     [clip_grad_norm_] calls and [optimizer.step].  These are external and
     are modelled where they return: [clip_grad_norm_] needs a
     [max_grad_norm] and the optimizer an [eps], so with either left at
     [None] the code raises a type error in the first minibatch update. *)
  gradient_step : PPO -> Params -> batch -> Params
}.

Definition vmap (f : R -> R) (v : value R) : value R :=
  match v with
  | Num x => Num (f x)
  | Tens l => Tens (map f l)
  end.

Definition vmean (v : value R) : R :=
  match v with
  | Num x => x
  | Tens l => t_mean l
  end.

(** Elementwise operation on two [K, N, 1] tensors, with broadcasting. *)
Definition tensor2 (f : R -> R -> R) (a b : tensor R) : result (tensor R) :=
  let row2 u v := x ← broadcast2 f (Tens u) (Tens v);
                  match x with Tens l => Ok l | Num y => Ok [y] end in
  n ← (if size1 a =? size1 b then Ok (size1 a)
       else if size1 a =? 1 then Ok (size1 b)
       else if size1 b =? 1 then Ok (size1 a)
       else Raise RuntimeError);
  rs ← (if size0 a =? size0 b
        then mapM (fun uv => row2 uv.1 uv.2) (zip (rows a) (rows b))
        else match rows a, rows b with
             | [u], _ => mapM (fun v => row2 u v) (rows b)
             | _, [v] => mapM (fun u => row2 u v) (rows a)
             | _, _ => Raise RuntimeError
             end);
  Ok (Tensor n rs).

(** lines 108-109 *)
Definition normalized_advantages (rollouts : storage) : result (tensor R) :=
  adv ← tensor2 rsub (drop_last (returns rollouts)) (drop_last (value_preds rollouts));
  let mean := t_mean (flatten adv) in
  let std := t_std (flatten adv) in
  let denom := radd std r_eps in
  Ok (Tensor (size1 adv)
        (map (map (fun x => rdiv (rsub x mean) denom)) (rows adv))).

(** lines 143-165: the value loss and the action loss of one minibatch,
    and the entropy the policy reports *)
Definition minibatch_losses (self : PPO) (policy : actor_critic)
    (p : Params) (sample : batch) : result (R * R * R) :=
  let '(values, action_log_probs, dist_entropy) :=
    evaluate_actions policy p (obs_batch sample)
      (recurrent_hidden_states_batch sample) (masks_batch sample)
      (actions_batch sample) in
  d ← vsub (Tens action_log_probs) (Tens (old_action_log_probs_batch sample));
  let ratio := vmap t_exp d in
  adv ← match adv_targ sample with
        | Some a => Ok (Tens a)
        | None => Raise TypeError
        end;
  surr1 ← vmul ratio adv;
  let clamped := vmap (fun x => t_clamp x (rsub r1 (clip_param self))
                                  (radd r1 (clip_param self))) ratio in
  surr2 ← vmul clamped adv;
  m ← broadcast2 t_min surr1 surr2;
  let action_loss := ropp (vmean m) in
  value_loss ←
    (if use_clipped_value_loss self then
       dv ← vsub (Tens values) (Tens (value_preds_batch sample));
       let dvc := vmap (fun x => t_clamp x (ropp (clip_param self))
                                   (clip_param self)) dv in
       value_pred_clipped ← vadd (Tens (value_preds_batch sample)) dvc;
       e1 ← vsub (Tens values) (Tens (return_batch sample));
       let value_losses := vmap t_pow2 e1 in
       e2 ← vsub value_pred_clipped (Tens (return_batch sample));
       let value_losses_clipped := vmap t_pow2 e2 in
       mx ← broadcast2 t_max value_losses value_losses_clipped;
       Ok (rmul r_half (vmean mx))
     else
       e ← vsub (Tens (return_batch sample)) (Tens values);
       Ok (rmul r_half (vmean (vmap t_pow2 e))));
  Ok (value_loss, action_loss, dist_entropy).

(** The running state of [update]: the parameters and the losses of the
    minibatch updates performed so far, the latest last. *)
Definition update_state : Type := Params * list (R * R * R).

(** lines 125-183: the loop over the minibatches of one generator.  The
    exception that ends a generator surfaces after the minibatches it
    yielded have been processed. *)
Fixpoint consume (self : PPO) (policy : actor_critic) (samples : list batch)
    (st : update_state) : result update_state :=
  match samples with
  | [] => Ok st
  | sample :: rest =>
      l ← minibatch_losses self policy st.1 sample;
      consume self policy rest (gradient_step policy self st.1 sample, st.2 ++ [l])
  end.

(** lines 115-183: one epoch; [perm] is the draw of its generator *)
Definition epoch (self : PPO) (policy : actor_critic) (rollouts : storage)
    (advantages : tensor R) (perm : list nat) (st : update_state)
  : result update_state :=
  let data_generator :=
    if is_recurrent policy
    then recurrent_generator rollouts (Some advantages) (num_minibatches self) perm
    else feed_forward_generator rollouts (Some advantages)
           (Some (num_minibatches self)) None perm in
  st' ← consume self policy (yielded data_generator) st;
  match raised data_generator with
  | Some e => Raise e
  | None => Ok st'
  end.

(** [range(n)] for a Python integer [n] *)
Definition range (n : Z) : list nat := seq 0 (Z.to_nat n).

(** The minibatch updates [update] performs: lines 108-183.  [perms e] is
    the draw of epoch [e]. *)
Definition update_log (self : PPO) (policy : actor_critic) (rollouts : storage)
    (perms : nat -> list nat) (p : Params) : result update_state :=
  advantages ← normalized_advantages rollouts;
  for_each (fun e st => epoch self policy rollouts advantages (perms e) st)
    (range (num_epochs self)) (p, []).

(** The three accumulators of lines 111-113 and 181-183. *)
Definition accumulate (log : list (R * R * R)) : R * R * R :=
  fold_left (fun acc l =>
               (radd acc.1.1 l.1.1, radd acc.1.2 l.1.2, radd acc.2 l.2))
    log (r0, r0, r0).

(** [PPO.update]: the new parameters and the three returned scalars *)
Definition update (self : PPO) (policy : actor_critic) (rollouts : storage)
    (perms : nat -> list nat) (p : Params) : result (Params * (R * R * R)) :=
  st ← update_log self policy rollouts perms p;
  let '(value_loss_epoch, action_loss_epoch, dist_entropy_epoch) :=
    accumulate st.2 in
  let num_updates := (num_epochs self * num_minibatches self)%Z in
  if (num_updates =? 0)%Z then Raise ZeroDivisionError
  else Ok (st.1, (rdiv value_loss_epoch (of_Z num_updates),
                  rdiv action_loss_epoch (of_Z num_updates),
                  rdiv dist_entropy_epoch (of_Z num_updates))).
End PPO.

Arguments param_group : clear implicits.
Arguments PPO : clear implicits.
Arguments actor_critic : clear implicits.

(** ** Shapes, and the return recursions as the specification words them *)

Section Specs.
Context {Obs Hid Act R : Type} `{Arith R}.
#[local] Abbreviation storage := (RolloutStorage Obs Hid Act R).

(** A buffer of [T] steps and [N] environments, as [init] allocates it. *)
Record well_shaped (T N : nat) (s : storage) : Prop := mkShaped {
  ws_obs : shaped (T + 1) N (obs s);
  ws_hid : shaped (T + 1) N (recurrent_hidden_states s);
  ws_rewards : shaped T N (rewards s);
  ws_value_preds : shaped (T + 1) N (value_preds s);
  ws_returns : shaped (T + 1) N (returns s);
  ws_action_log_probs : shaped T N (action_log_probs s);
  ws_actions : shaped T N (actions s);
  ws_done_masks : shaped (T + 1) N (done_masks s);
  ws_time_limit_masks : shaped (T + 1) N (time_limit_masks s);
  ws_rollout_steps : rollout_steps s = T
}.

(** The arguments of [insert] have leading dimension [N]. *)
Record transition_shaped (N : nat) (d : transition Obs Hid Act R) : Prop :=
  mkTransitionShaped {
    ts_obs : length (t_obs d) = N;
    ts_hid : length (t_hid d) = N;
    ts_actions : length (t_actions d) = N;
    ts_action_log_probs : length (t_action_log_probs d) = N;
    ts_value_preds : length (t_value_preds d) = N;
    ts_rewards : length (t_rewards d) = N;
    ts_done_masks : length (t_done_masks d) = N;
    ts_time_limit_masks : length (t_time_limit_masks d) = N
  }.

(** Slot 0 of the four arrays that [after_update] rolls over, and of
    [returns]. *)
Definition boundary_slot (s : storage)
  : option (list Obs) * option (list Hid) * option (list R) * option (list R)
    * option (list R) :=
  (rows (obs s) !! 0, rows (recurrent_hidden_states s) !! 0,
   rows (done_masks s) !! 0, rows (time_limit_masks s) !! 0,
   rows (returns s) !! 0).

(** Slot 0 of every array with [T + 1] time slots. *)
Definition slot0_of_all (s : storage)
  : option (list Obs) * option (list Hid) * option (list R) * option (list R)
    * option (list R) * option (list R) :=
  (rows (obs s) !! 0, rows (recurrent_hidden_states s) !! 0,
   rows (value_preds s) !! 0, rows (returns s) !! 0,
   rows (done_masks s) !! 0, rows (time_limit_masks s) !! 0).

Section Returns.
Variables (rw vp dm tl : tensor R) (gamma gae_lambda : R).

(** [delta = reward[t] + gamma * value_preds[t+1] * done_masks[t+1]
    - value_preds[t]] *)
Definition delta_spec (t e : nat) : R :=
  rsub (radd (ent rw t e) (rmul (rmul gamma (ent vp (t + 1) e)) (ent dm (t + 1) e)))
    (ent vp t e).

(** The accumulator [gae] of environment [e] once the steps [T-1], ...,
    [T-k] are done, in the variant with proper time limits:
    [gae = delta + gamma * gae_lambda * done_masks[t+1] * gae], then
    masked by [time_limit_masks[t+1]]. *)
Fixpoint gae_time_limit_spec (T k e : nat) : R :=
  match k with
  | 0 => r0
  | S k' =>
      let t := T - S k' in
      rmul (radd (delta_spec t e)
              (rmul (rmul (rmul gamma gae_lambda) (ent dm (t + 1) e))
                 (gae_time_limit_spec T k' e)))
        (ent tl (t + 1) e)
  end.

(** The same without the time-limit mask. *)
Fixpoint gae_spec (T k e : nat) : R :=
  match k with
  | 0 => r0
  | S k' =>
      let t := T - S k' in
      radd (delta_spec t e)
        (rmul (rmul (rmul gamma gae_lambda) (ent dm (t + 1) e))
           (gae_spec T k' e))
  end.

(** [returns[T-k]] of environment [e] in the discounted-return variant
    with proper time limits; [next_value] is the bootstrap value. *)
Fixpoint return_time_limit_spec (next_value : list R) (T k e : nat) : R :=
  match k with
  | 0 => vent (Tens next_value) e
  | S k' =>
      let t := T - S k' in
      radd (rmul (radd (rmul (rmul (return_time_limit_spec next_value T k' e) gamma)
                          (ent dm (t + 1) e))
                    (ent rw t e))
              (ent tl (t + 1) e))
        (rmul (rsub r1 (ent tl (t + 1) e)) (ent vp t e))
  end.

(** The plain discounted return. *)
Fixpoint return_spec (next_value : list R) (T k e : nat) : R :=
  match k with
  | 0 => vent (Tens next_value) e
  | S k' =>
      let t := T - S k' in
      radd (rmul (rmul (return_spec next_value T k' e) gamma) (ent dm (t + 1) e))
        (ent rw t e)
  end.
End Returns.
End Specs.

(** ** Concrete buffers over the integers *)

Module Examples.
#[local] Open Scope Z_scope.

(** Two steps, one environment; [returns] holds stale entries. *)
Definition buffer_2x1 : RolloutStorage Z Z Z Z :=
  mkStorage
    (Tensor 1 [[10]; [11]; [12]])
    (Tensor 1 [[20]; [21]; [22]])
    (Tensor 1 [[1]; [2]])
    (Tensor 1 [[5]; [5]; [5]])
    (Tensor 1 [[7]; [7]; [7]])
    (Tensor 1 [[0]; [0]])
    (Tensor 1 [[0]; [0]])
    (Tensor 1 [[1]; [1]; [0]])
    (Tensor 1 [[1]; [1]; [1]])
    2%nat 0%nat.

(** The same rollout when its last step is a time-limit truncation. *)
Definition buffer_2x1_truncated : RolloutStorage Z Z Z Z :=
  mkStorage (obs buffer_2x1) (recurrent_hidden_states buffer_2x1)
    (rewards buffer_2x1) (value_preds buffer_2x1) (returns buffer_2x1)
    (action_log_probs buffer_2x1) (actions buffer_2x1) (done_masks buffer_2x1)
    (Tensor 1 [[1]; [1]; [0]])
    2%nat 0%nat.

(** The same buffer with other stale entries in [returns]. *)
Definition buffer_2x1_other : RolloutStorage Z Z Z Z :=
  with_returns buffer_2x1 (Tensor 1 [[8]; [8]; [8]]).

(** The rollout of section 8 of the specification, over the rationals:
    rewards 1 and 2, value predictions 0.5, a terminal last step that is
    not a truncation. *)
Definition terminal_rollout : RolloutStorage unit unit unit Qc :=
  mkStorage
    (full 3%nat 1%nat tt)
    (full 3%nat 1%nat tt)
    (Tensor 1 [[Q2Qc 1]; [Q2Qc 2]])
    (Tensor 1 [[Q2Qc 0.5]; [Q2Qc 0.5]; [Q2Qc 0.5]])
    (full 3%nat 1%nat (Q2Qc 0))
    (full 2%nat 1%nat (Q2Qc 0))
    (full 2%nat 1%nat tt)
    (Tensor 1 [[Q2Qc 1]; [Q2Qc 1]; [Q2Qc 0]])
    (Tensor 1 [[Q2Qc 1]; [Q2Qc 1]; [Q2Qc 1]])
    2%nat 0%nat.

Definition transition_1 : transition Z Z Z Z :=
  mkTransition [13] [23] [1] [4] [6] [3] [1] [1].

(** A zero-filled buffer of [T] steps and [N] environments whose
    recurrent states carry their time step. *)
Definition numbered_buffer (T N : nat) : RolloutStorage Z Z Z Z :=
  mkStorage
    (full (T + 1)%nat N 0)
    (Tensor N (map (fun t => replicate N (Z.of_nat t)) (seq 0 (T + 1)%nat)))
    (full T N 0)
    (full (T + 1)%nat N 0)
    (full (T + 1)%nat N 0)
    (full T N 0)
    (full T N 0)
    (full (T + 1)%nat N 1)
    (full (T + 1)%nat N 1)
    T 0%nat.

Section Generic.
Context {R : Type} `{Arith R}.

(** The buffer [init] allocates, with one-point payload types. *)
Definition zero_buffer (T N : nat) : RolloutStorage unit unit unit R :=
  mkStorage
    (full (T + 1)%nat N tt)
    (full (T + 1)%nat N tt)
    (full T N r0)
    (full (T + 1)%nat N r0)
    (full (T + 1)%nat N r0)
    (full T N r0)
    (full T N tt)
    (full (T + 1)%nat N r1)
    (full (T + 1)%nat N r1)
    T 0%nat.

(** A memoryless policy without parameters: zero values and
    log-probabilities for every transition of the batch, entropy one. *)
Definition constant_policy : actor_critic unit unit unit R unit :=
  mkPolicy false
    (fun _ o _ _ _ => (map (fun _ => r0) o, map (fun _ => r0) o, r1))
    (fun _ p _ => p).

(** One epoch, four minibatches, with the two optional arguments given:
    [eps = 1e-5] for the optimizer and [max_grad_norm = 0.5] for the
    gradient clipping of every minibatch update. *)
Definition ppo_1_epoch_4_minibatches `{TorchOps R} : PPO R :=
  ppo_init r1 1 4 r0 r1 r1 r1 (Some r_eps) (Some r_half) true.
End Generic.
End Examples.

(** ** Entries of a flattened [K, N, ...] tensor *)

(** The entry that belongs to flattened index [i]: time step [i / N],
    environment [i mod N]. *)
Definition transition_entry {A : Type} (t : tensor A) (i : nat) : option A :=
  rows t !! (i / size1 t) ≫= fun r => r !! (i mod size1 t).

(** The entry of time step 0 for the environment of flattened index [i]. *)
Definition first_slot_entry {A : Type} (t : tensor A) (i : nat) : option A :=
  rows t !! 0 ≫= fun r => r !! (i mod size1 t).

(** Every field of a minibatch holds [b] transitions. *)
Definition batch_length {Obs Hid Act R : Type} (b : nat) (mb : minibatch Obs Hid Act R)
  : Prop :=
  length (obs_batch mb) = b /\
  length (recurrent_hidden_states_batch mb) = b /\
  length (actions_batch mb) = b /\
  length (value_preds_batch mb) = b /\
  length (return_batch mb) = b /\
  length (masks_batch mb) = b /\
  length (old_action_log_probs_batch mb) = b /\
  forall a, adv_targ mb = Some a -> length a = b.

(** ** Reading a stored step back *)

Section StoredTransitions.
Context {Obs Hid Act R : Type}.

(** What the buffer holds for step [t]: the state-like fields of slot
    [t + 1] and the action-like fields of slot [t], as [insert] lays them
    out. *)
Definition stored_transition (s : RolloutStorage Obs Hid Act R) (t : nat)
  : option (transition Obs Hid Act R) :=
  o ← rows (obs s) !! (t + 1);
  h ← rows (recurrent_hidden_states s) !! (t + 1);
  a ← rows (actions s) !! t;
  lp ← rows (action_log_probs s) !! t;
  vp ← rows (value_preds s) !! t;
  rw ← rows (rewards s) !! t;
  dm ← rows (done_masks s) !! (t + 1);
  tl ← rows (time_limit_masks s) !! (t + 1);
  Some (mkTransition o h a lp vp rw dm tl).
End StoredTransitions.

Module MoreExamples.
#[local] Open Scope Z_scope.

Definition transition_2 : transition Z Z Z Z :=
  mkTransition [14] [24] [2] [8] [9] [7] [0] [1].
End MoreExamples.

(** ** Whole trajectories, as [recurrent_generator] batches them *)

(** Entry [e] of row [i]. *)
Definition entry_at {A : Type} (t : tensor A) (i e : nat) : option A :=
  rows t !! i ≫= fun r => r !! e.

Section RecurrentSpecs.
Context {Obs Hid Act R : Type}.

(** The columns of environment [e]: its [T] steps of every per-step array
    and its recurrent state of slot 0. *)
Definition columns_of (s : RolloutStorage Obs Hid Act R) (a : tensor R)
    (T e : nat) (c : env_columns Obs Hid Act R) : Prop :=
  length (c_obs c) = T /\ length (c_hid c) = 1 /\ length (c_actions c) = T /\
  length (c_value_preds c) = T /\ length (c_returns c) = T /\
  length (c_masks c) = T /\ length (c_action_log_probs c) = T /\
  length (c_adv c) = T /\
  c_hid c !! 0 = entry_at (recurrent_hidden_states s) 0 e /\
  forall t, t < T ->
    c_obs c !! t = entry_at (obs s) t e /\
    c_actions c !! t = entry_at (actions s) t e /\
    c_value_preds c !! t = entry_at (value_preds s) t e /\
    c_returns c !! t = entry_at (returns s) t e /\
    c_masks c !! t = entry_at (done_masks s) t e /\
    c_action_log_probs c !! t = entry_at (action_log_probs s) t e /\
    c_adv c !! t = entry_at a t e.

(** A minibatch of the whole trajectories of the environments [envs]:
    [T * k] transitions in time-major order, step [t] of the [j]-th
    environment at position [t * k + j], and one recurrent state per
    environment, that of slot 0. *)
Definition recurrent_batch_of (s : RolloutStorage Obs Hid Act R) (a : tensor R)
    (T : nat) (envs : list nat) (mb : minibatch Obs Hid Act R) : Prop :=
  let k := length envs in
  length (obs_batch mb) = T * k /\
  length (recurrent_hidden_states_batch mb) = k /\
  length (actions_batch mb) = T * k /\
  length (value_preds_batch mb) = T * k /\
  length (return_batch mb) = T * k /\
  length (masks_batch mb) = T * k /\
  length (old_action_log_probs_batch mb) = T * k /\
  exists adv,
    adv_targ mb = Some adv /\ length adv = T * k /\
    forall j e, envs !! j = Some e ->
      recurrent_hidden_states_batch mb !! j = entry_at (recurrent_hidden_states s) 0 e /\
      forall t, t < T ->
        obs_batch mb !! (t * k + j) = entry_at (obs s) t e /\
        actions_batch mb !! (t * k + j) = entry_at (actions s) t e /\
        value_preds_batch mb !! (t * k + j) = entry_at (value_preds s) t e /\
        return_batch mb !! (t * k + j) = entry_at (returns s) t e /\
        masks_batch mb !! (t * k + j) = entry_at (done_masks s) t e /\
        old_action_log_probs_batch mb !! (t * k + j)
          = entry_at (action_log_probs s) t e /\
        adv !! (t * k + j) = entry_at a t e.
End RecurrentSpecs.

(** ** Policies and minibatches the losses of [update] are defined on *)

Section UpdateSpecs.
Context {Obs Hid Act R Params : Type}.


End UpdateSpecs.

(** ** Symbolic scalars

    The scalar operations as uninterpreted syntax, to run the update engine
    without fixing what [exp], [mean] or [std] compute. *)
Module Symbolic.
#[local] Unset Elimination Schemes.
Inductive sym : Type :=
| SConst (z : Z)
| SHalf
| SEps
| SAdd (a b : sym)
| SSub (a b : sym)
| SMul (a b : sym)
| SDiv (a b : sym)
| SOpp (a : sym)
| SExp (a : sym)
| SClamp (x lo hi : sym)
| SMin (a b : sym)
| SMax (a b : sym)
| SPow2 (a : sym)
| SMean (l : list sym)
| SStd (l : list sym).
#[local] Set Elimination Schemes.

#[global] Instance sym_arith : Arith sym := {|
  r0 := SConst 0; r1 := SConst 1;
  radd := SAdd; rsub := SSub; rmul := SMul; rdiv := SDiv;
  ropp := SOpp; of_Z := SConst
|}.

#[global] Instance sym_torch : TorchOps sym := {|
  t_exp := SExp; t_clamp := SClamp; t_min := SMin; t_max := SMax;
  t_pow2 := SPow2; t_mean := SMean; t_std := SStd;
  r_half := SHalf; r_eps := SEps
|}.

(** A recurrent policy with constant outputs and no parameters. *)
Definition constant_recurrent_policy : actor_critic unit unit unit sym unit :=
  mkPolicy true
    (fun _ o _ _ _ => (map (fun _ => r0) o, map (fun _ => r0) o, r1))
    (fun _ p _ => p).


End Symbolic.

(** ** Arguments that [copy_] and slot assignment broadcast *)

(** A source of leading dimension [N] or 1. *)
Definition broadcastable {A : Type} (N : nat) (v : list A) : Prop :=
  length v = N \/ length v = 1.

(** What a broadcastable source is copied as. *)
Definition expand {A : Type} (N : nat) (v : list A) : list A :=
  match v with
  | [x] => replicate N x
  | _ => v
  end.

Section BroadcastSpecs.
Context {Obs Hid Act R : Type}.

Definition transition_broadcastable (N : nat) (d : transition Obs Hid Act R) : Prop :=
  broadcastable N (t_obs d) /\ broadcastable N (t_hid d) /\
  broadcastable N (t_actions d) /\ broadcastable N (t_action_log_probs d) /\
  broadcastable N (t_value_preds d) /\ broadcastable N (t_rewards d) /\
  broadcastable N (t_done_masks d) /\ broadcastable N (t_time_limit_masks d).

Definition expand_transition (N : nat) (d : transition Obs Hid Act R)
  : transition Obs Hid Act R :=
  mkTransition (expand N (t_obs d)) (expand N (t_hid d)) (expand N (t_actions d))
    (expand N (t_action_log_probs d)) (expand N (t_value_preds d))
    (expand N (t_rewards d)) (expand N (t_done_masks d))
    (expand N (t_time_limit_masks d)).
End BroadcastSpecs.

(** * Properties *)

(** ** Tensors and the error monad *)

Lemma for_each_app {S : Type} (body : nat -> S -> result S) (l1 l2 : list nat) (s : S) :
  for_each body (l1 ++ l2) s = (s' ← for_each body l1 s; for_each body l2 s').
Proof.
  revert s. induction l1 as [|i l1 IH]; intros s; cbn; [done|].
  destruct (body i s) as [s'|e]; cbn; [apply IH | done].
Qed.

Lemma reversed_range_S (n : nat) : reversed_range (S n) = n :: reversed_range n.
Proof. unfold reversed_range. rewrite seq_S, rev_app_distr. done. Qed.

Section TensorFacts.
Context {A : Type}.
Implicit Types (t : tensor A) (v r : list A).

Lemma shaped_lookup k n t i :
  shaped k n t -> i < k -> exists r, rows t !! i = Some r /\ length r = n.
Proof.
  intros (_ & Hk & Hall) Hi.
  destruct (lookup_lt_is_Some_2 (rows t) i) as [r Hr]; [lia|].
  exists r. split; [done|].
  by apply (Forall_lookup_1 _ _ _ _ Hall Hr).
Qed.

Lemma shaped_insert k n t i v :
  shaped k n t -> length v = n -> shaped k n (Tensor n (<[i := v]> (rows t))).
Proof.
  intros (Hn & Hk & Hall) Hv. repeat split; cbn.
  - by rewrite length_insert.
  - by apply Forall_insert.
Qed.

Lemma get_row_shaped k n t i :
  shaped k n t -> i < k ->
  exists r, get_row t i = Ok r /\ rows t !! i = Some r /\ length r = n.
Proof.
  intros Ht Hi. destruct (shaped_lookup _ _ _ _ Ht Hi) as (r & Hr & Hl).
  exists r. unfold get_row. by rewrite Hr.
Qed.

Lemma get_last_shaped k n t :
  shaped (k + 1) n t ->
  exists r, get_last t = Ok r /\ rows t !! k = Some r /\ length r = n.
Proof.
  intros Ht. unfold get_last, size0.
  destruct Ht as (Hn & Hk & Hall). rewrite Hk.
  replace (k + 1) with (S k) by lia.
  apply (get_row_shaped (k + 1) n); [done | lia].
Qed.

Lemma broadcast_to_same n v : length v = n -> broadcast_to n v = Ok v.
Proof. intros Hv. unfold broadcast_to. by rewrite (proj2 (Nat.eqb_eq _ _) Hv). Qed.

Lemma set_row_shaped k n t i v :
  shaped k n t -> i < k -> length v = n ->
  set_row t i v = Ok (Tensor n (<[i := v]> (rows t))).
Proof.
  intros Ht Hi Hv. destruct (shaped_lookup _ _ _ _ Ht Hi) as (r & Hr & _).
  unfold set_row. rewrite Hr. destruct Ht as (Hn & _).
  rewrite Hn, (broadcast_to_same _ _ Hv). done.
Qed.

Lemma set_last_shaped k n t v :
  shaped (k + 1) n t -> length v = n ->
  set_last t v = Ok (Tensor n (<[k := v]> (rows t))).
Proof.
  intros Ht Hv. unfold set_last, size0.
  rewrite (proj1 (proj2 Ht)). replace (k + 1) with (S k) by lia.
  apply (set_row_shaped (k + 1)); [done | lia | done].
Qed.

Lemma shaped_full k n (x : A) : shaped k n (full k n x).
Proof.
  unfold full. split_and!; cbn.
  - done.
  - by rewrite length_replicate.
  - apply Forall_replicate. by rewrite length_replicate.
Qed.
End TensorFacts.

(** ** Construction and roll-over *)

Section LifecycleFacts.
Context {Obs Hid Act R : Type} `{Arith R}.
#[local] Abbreviation storage := (RolloutStorage Obs Hid Act R).
Implicit Types (s : storage).

(** [init] allocates a well-shaped buffer with the cursor at 0, for the
    two supported kinds of action space only. *)
Lemma init_well_shaped obs0 hid0 act0 T N space s :
  init obs0 hid0 act0 T N space = Ok s ->
  space <> OtherSpace /\ well_shaped T N s /\ step s = 0.
Proof.
  unfold init. destruct space; cbn; intros [= <-];
    (split; [done|]); (split; [|done]); constructor; cbn;
    first [by apply shaped_full | done].
Qed.

Lemma init_other_space obs0 hid0 act0 T N :
  init obs0 hid0 act0 T N OtherSpace = Raise NotImplementedError (A := storage).
Proof. reflexivity. Qed.

(** [after_update] copies slot [T] of the four state-like arrays into slot
    0 and leaves the rest alone. *)
Lemma after_update_spec T N s :
  well_shaped T N s ->
  exists s',
    after_update s = Ok s' /\
    well_shaped T N s' /\
    rows (obs s') !! 0 = rows (obs s) !! T /\
    rows (recurrent_hidden_states s') !! 0 = rows (recurrent_hidden_states s) !! T /\
    rows (done_masks s') !! 0 = rows (done_masks s) !! T /\
    rows (time_limit_masks s') !! 0 = rows (time_limit_masks s) !! T /\
    step s' = step s.
Proof.
  intros Hs. destruct Hs. unfold after_update.
  destruct (get_last_shaped T N (obs s)) as (o & -> & Ho & Hlo); [done|].
  cbn [mbind result_bind].
  rewrite (set_row_shaped (T + 1) N (obs s)) by (done || lia).
  cbn [mbind result_bind].
  destruct (get_last_shaped T N (recurrent_hidden_states s)) as (h & -> & Hh & Hlh);
    [done|].
  cbn [mbind result_bind].
  rewrite (set_row_shaped (T + 1) N (recurrent_hidden_states s)) by (done || lia).
  cbn [mbind result_bind].
  destruct (get_last_shaped T N (done_masks s)) as (dm & -> & Hdm & Hldm); [done|].
  cbn [mbind result_bind].
  rewrite (set_row_shaped (T + 1) N (done_masks s)) by (done || lia).
  cbn [mbind result_bind].
  destruct (get_last_shaped T N (time_limit_masks s)) as (tl & -> & Htl & Hltl); [done|].
  cbn [mbind result_bind].
  rewrite (set_row_shaped (T + 1) N (time_limit_masks s)) by (done || lia).
  cbn [mbind result_bind].
  eexists. split; [reflexivity|].
  cbn [obs recurrent_hidden_states done_masks time_limit_masks step rows].
  split.
  { constructor; cbn; try done; by apply shaped_insert. }
  rewrite Ho, Hh, Hdm, Htl.
  destruct ws_obs0 as (_ & Lo & _), ws_hid0 as (_ & Lh & _),
    ws_done_masks0 as (_ & Ld & _), ws_time_limit_masks0 as (_ & Lt & _).
  rewrite !list_lookup_insert_eq by lia. done.
Qed.
End LifecycleFacts.

(** ** [insert]: write positions and the cursor *)

Section InsertFacts.
Context {Obs Hid Act R : Type} `{Arith R}.
#[local] Abbreviation storage := (RolloutStorage Obs Hid Act R).
Implicit Types (s : storage) (d : transition Obs Hid Act R).

(** One [insert] on a well-shaped buffer whose cursor is in range. *)
Lemma insert_transition_spec T N s d :
  well_shaped T N s -> step s < T -> transition_shaped N d ->
  exists s',
    insert_transition s d = Ok s' /\
    well_shaped T N s' /\
    step s' = (step s + 1) mod T /\
    obs s' = Tensor N (<[step s + 1 := t_obs d]> (rows (obs s))) /\
    recurrent_hidden_states s' =
      Tensor N (<[step s + 1 := t_hid d]> (rows (recurrent_hidden_states s))) /\
    done_masks s' = Tensor N (<[step s + 1 := t_done_masks d]> (rows (done_masks s))) /\
    time_limit_masks s' =
      Tensor N (<[step s + 1 := t_time_limit_masks d]> (rows (time_limit_masks s))) /\
    actions s' = Tensor N (<[step s := t_actions d]> (rows (actions s))) /\
    action_log_probs s' =
      Tensor N (<[step s := t_action_log_probs d]> (rows (action_log_probs s))) /\
    value_preds s' = Tensor N (<[step s := t_value_preds d]> (rows (value_preds s))) /\
    rewards s' = Tensor N (<[step s := t_rewards d]> (rows (rewards s))) /\
    returns s' = returns s.
Proof.
  intros Hs Hst Hd. destruct Hs, Hd.
  unfold insert_transition, insert.
  rewrite (set_row_shaped (T + 1) N (obs s)) by (done || lia); cbn.
  rewrite (set_row_shaped (T + 1) N (recurrent_hidden_states s)) by (done || lia); cbn.
  rewrite (set_row_shaped T N (actions s)) by (done || lia); cbn.
  rewrite (set_row_shaped T N (action_log_probs s)) by (done || lia); cbn.
  rewrite (set_row_shaped (T + 1) N (value_preds s)) by (done || lia); cbn.
  rewrite (set_row_shaped T N (rewards s)) by (done || lia); cbn.
  rewrite (set_row_shaped (T + 1) N (done_masks s)) by (done || lia); cbn.
  rewrite (set_row_shaped (T + 1) N (time_limit_masks s)) by (done || lia); cbn.
  rewrite ws_rollout_steps0.
  destruct T as [|T']; [lia|].
  eexists. split; [reflexivity|]. cbn [step obs recurrent_hidden_states rewards
    value_preds returns action_log_probs actions done_masks time_limit_masks].
  split; [|by repeat split].
  constructor; cbn [step obs recurrent_hidden_states rewards value_preds returns
    action_log_probs actions done_masks time_limit_masks rollout_steps];
    try (by apply shaped_insert); done.
Qed.

(** A sequence of [insert] calls. *)
Lemma insert_all_spec T N s ds :
  well_shaped T N s -> step s < T -> Forall (transition_shaped N) ds ->
  exists s',
    insert_all s ds = Ok s' /\
    well_shaped T N s' /\
    step s' < T /\
    step s' = (step s + length ds) mod T /\
    boundary_slot s' = boundary_slot s.
Proof.
  intros Hs Hst Hds. revert s Hs Hst.
  induction Hds as [|d ds Hd Hds IH]; intros s Hs Hst.
  - exists s. cbn. rewrite Nat.add_0_r, Nat.mod_small by done. done.
  - destruct (insert_transition_spec T N s d Hs Hst Hd)
      as (s1 & Hins & Hs1 & Hstep & Ho & Hh & Hdm & Htl & _ & _ & _ & _ & Hrt).
    assert (step s1 < T) as Hst1 by (rewrite Hstep; apply Nat.mod_upper_bound; lia).
    destruct (IH s1 Hs1 Hst1) as (s' & Hall & Hs' & Hlt & Hcur & Hb).
    exists s'. cbn. rewrite Hins. cbn. split; [done|]. split; [done|].
    split; [done|]. split.
    + rewrite Hcur, Hstep, Nat.Div0.add_mod_idemp_l. f_equal. lia.
    + rewrite Hb. unfold boundary_slot. rewrite Ho, Hh, Hdm, Htl, Hrt. cbn.
      rewrite !list_lookup_insert_ne by lia. done.
Qed.
End InsertFacts.

Section InsertClaims.
Context {Obs Hid Act R : Type} `{Arith R}.
#[local] Abbreviation storage := (RolloutStorage Obs Hid Act R).
Implicit Types (s : storage) (d : transition Obs Hid Act R).

(** C8.  On a buffer of [T] steps whose cursor is in range, [insert]
    writes the observations, recurrent states, done masks and time-limit
    masks at index [step + 1], the actions, action log-probabilities, value
    predictions and rewards at index [step], leaves every other slot and
    [returns] as they were, and sets the cursor to [(step + 1) mod T].
    Hence the cursor stays below [T] after every insert of a sequence, and
    after exactly [T] inserts it is back at its value before the
    rollout. *)
Theorem insert_cursor_cyclic T N s d :
  well_shaped T N s -> step s < T -> transition_shaped N d ->
  (exists s',
     insert s (t_obs d) (t_hid d) (t_actions d) (t_action_log_probs d)
       (t_value_preds d) (t_rewards d) (t_done_masks d) (t_time_limit_masks d)
     = Ok s' /\
     obs s' = Tensor N (<[step s + 1 := t_obs d]> (rows (obs s))) /\
     recurrent_hidden_states s' =
       Tensor N (<[step s + 1 := t_hid d]> (rows (recurrent_hidden_states s))) /\
     done_masks s' =
       Tensor N (<[step s + 1 := t_done_masks d]> (rows (done_masks s))) /\
     time_limit_masks s' =
       Tensor N (<[step s + 1 := t_time_limit_masks d]> (rows (time_limit_masks s))) /\
     actions s' = Tensor N (<[step s := t_actions d]> (rows (actions s))) /\
     action_log_probs s' =
       Tensor N (<[step s := t_action_log_probs d]> (rows (action_log_probs s))) /\
     value_preds s' =
       Tensor N (<[step s := t_value_preds d]> (rows (value_preds s))) /\
     rewards s' = Tensor N (<[step s := t_rewards d]> (rows (rewards s))) /\
     returns s' = returns s /\
     step s' = (step s + 1) mod T /\
     step s' < T) /\
  (forall ds, Forall (transition_shaped N) ds ->
     exists s'', insert_all s ds = Ok s'' /\
                 step s'' < T /\
                 (length ds = T -> step s'' = step s)).
Proof.
  intros Hs Hst Hd. split.
  - destruct (insert_transition_spec T N s d Hs Hst Hd)
      as (s' & Hins & _ & Hstep & Hrest).
    exists s'. split; [exact Hins|].
    destruct Hrest as (? & ? & ? & ? & ? & ? & ? & ? & ?).
    repeat (split; [assumption|]).
    rewrite Hstep. apply Nat.mod_upper_bound. lia.
  - intros ds Hds.
    destruct (insert_all_spec T N s ds Hs Hst Hds) as (s'' & Hall & _ & Hlt & Hcur & _).
    exists s''. split; [done|]. split; [done|].
    intros Hlen. rewrite Hcur, Hlen.
    replace (step s + T) with (step s + 1 * T) by lia.
    rewrite Nat.Div0.mod_add. by apply Nat.mod_small.
Qed.

(** C10 (amended).  [insert] writes observations, recurrent states, done
    masks and time-limit masks only at index [step + 1], which lies in
    [1, T], and does not write [returns]; slot 0 of these arrays is the same
    after any sequence of inserts. *)
Theorem insert_preserves_boundary_slot T N s d ds :
  well_shaped T N s -> step s < T -> transition_shaped N d ->
  Forall (transition_shaped N) ds ->
  (exists s1,
     insert_transition s d = Ok s1 /\
     1 <= step s + 1 <= T /\
     forall j, j <> step s + 1 ->
       rows (obs s1) !! j = rows (obs s) !! j /\
       rows (recurrent_hidden_states s1) !! j = rows (recurrent_hidden_states s) !! j /\
       rows (done_masks s1) !! j = rows (done_masks s) !! j /\
       rows (time_limit_masks s1) !! j = rows (time_limit_masks s) !! j) /\
  (exists s', insert_all s ds = Ok s' /\ boundary_slot s' = boundary_slot s).
Proof.
  intros Hs Hst Hd Hds. split.
  - destruct (insert_transition_spec T N s d Hs Hst Hd)
      as (s1 & Hins & _ & _ & Ho & Hh & Hdm & Htl & _).
    exists s1. split; [done|]. split; [lia|].
    intros j Hj. rewrite Ho, Hh, Hdm, Htl. cbn.
    rewrite !list_lookup_insert_ne by lia. done.
  - destruct (insert_all_spec T N s ds Hs Hst Hds) as (s' & Hall & _ & _ & _ & Hb).
    by exists s'.
Qed.
End InsertClaims.

Lemma buffer_2x1_shaped : well_shaped 2 1 Examples.buffer_2x1.
Proof. constructor; cbn; repeat split; repeat constructor. Defined.

Lemma transition_1_shaped : transition_shaped 1 Examples.transition_1.
Proof. constructor; reflexivity. Defined.

Lemma insert_cursor_cyclic_witness :
  exists s'',
    insert_all Examples.buffer_2x1 [Examples.transition_1; Examples.transition_1] = Ok s'' /\
    step s'' < 2 /\
    (2 = 2 -> step s'' = 0).
Proof.
  refine (proj2 (insert_cursor_cyclic 2 1 Examples.buffer_2x1 Examples.transition_1
                   buffer_2x1_shaped _ transition_1_shaped) _ _).
  - cbn. lia.
  - repeat constructor.
Defined.

Lemma insert_preserves_boundary_slot_witness :
  exists s',
    insert_all Examples.buffer_2x1 [Examples.transition_1; Examples.transition_1] = Ok s' /\
    boundary_slot s' = boundary_slot Examples.buffer_2x1.
Proof.
  refine (proj2 (insert_preserves_boundary_slot 2 1 Examples.buffer_2x1
                   Examples.transition_1 [Examples.transition_1; Examples.transition_1]
                   buffer_2x1_shaped _ transition_1_shaped _)).
  - cbn. lia.
  - repeat constructor.
Defined.

(** C10 as stated fails: [value_preds] has [T + 1] slots as well, and the
    insert at cursor 0 overwrites its slot 0. *)
Lemma insert_overwrites_value_preds_slot0 :
  exists s1,
    insert_transition Examples.buffer_2x1 Examples.transition_1 = Ok s1 /\
    step Examples.buffer_2x1 = 0 /\
    rows (value_preds Examples.buffer_2x1) !! 0 = Some [5%Z] /\
    rows (value_preds s1) !! 0 = Some [6%Z] /\
    slot0_of_all s1 <> slot0_of_all Examples.buffer_2x1.
Proof.
  eexists. split; [vm_compute; reflexivity|].
  repeat split. vm_compute. intros Heq. discriminate Heq.
Qed.

Example insert_example :
  insert_transition Examples.buffer_2x1 Examples.transition_1 =
  Ok (mkStorage
        (Tensor 1 [[10]; [13]; [12]])
        (Tensor 1 [[20]; [23]; [22]])
        (Tensor 1 [[3]; [2]])
        (Tensor 1 [[6]; [5]; [5]])
        (Tensor 1 [[7]; [7]; [7]])
        (Tensor 1 [[4]; [0]])
        (Tensor 1 [[1]; [0]])
        (Tensor 1 [[1]; [1]; [0]])
        (Tensor 1 [[1]; [1]; [1]])
        2 1)%Z.
Proof. reflexivity. Qed.

(** ** Arithmetic on values: shapes and entries *)

Section ValueFacts.
Context {R : Type} `{Arith R}.
Implicit Types (a b c : value R) (u v : list R).

Lemma lookup_total_map (f : R -> R) v e :
  e < length v -> map f v !!! e = f (v !!! e).
Proof.
  revert e. induction v as [|x v IH]; intros e He; cbn in He; [lia|].
  destruct e as [|e]; cbn; [done|]. apply IH. lia.
Qed.

Lemma lookup_total_zip_with (f : R -> R -> R) u v e :
  e < length u -> e < length v -> zip_with f u v !!! e = f (u !!! e) (v !!! e).
Proof.
  revert v e. induction u as [|x u IH]; intros [|y v] e Hu Hv; cbn in *; try lia.
  destruct e as [|e]; cbn; [done|]. apply IH; lia.
Qed.

Lemma lookup_total_replicate (x : R) n e : e < n -> replicate n x !!! e = x.
Proof.
  revert e. induction n as [|n IH]; intros e He; [lia|].
  destruct e as [|e]; cbn; [done|]. apply IH. lia.
Qed.

Lemma ent_lookup (t : tensor R) i r e : rows t !! i = Some r -> ent t i e = r !!! e.
Proof. intros Hr. unfold ent. by rewrite (list_lookup_total_correct _ _ _ Hr). Qed.

Lemma ent_ext (t1 t2 : tensor R) i e :
  rows t1 !! i = rows t2 !! i -> ent t1 i e = ent t2 i e.
Proof. intros Hr. unfold ent. by rewrite !list_lookup_total_alt, Hr. Qed.

(** Rows of equal length with equal entries are equal. *)
Lemma row_ext n u v :
  length u = n -> length v = n -> (forall e, e < n -> u !!! e = v !!! e) -> u = v.
Proof.
  revert u v. induction n as [|n IH]; intros [|x u] [|y v] Hu Hv He; cbn in *; try lia.
  - done.
  - f_equal.
    + apply (He 0). lia.
    + apply IH; [lia | lia |]. intros e Hlt. apply (He (S e)). lia.
Qed.

Lemma shaped_row_ext k n (t1 t2 : tensor R) i :
  shaped k n t1 -> shaped k n t2 -> i < k ->
  (forall e, e < n -> ent t1 i e = ent t2 i e) ->
  rows t1 !! i = rows t2 !! i.
Proof.
  intros H1 H2 Hi He.
  destruct (shaped_lookup _ _ _ _ H1 Hi) as (r1 & Hr1 & Hl1).
  destruct (shaped_lookup _ _ _ _ H2 Hi) as (r2 & Hr2 & Hl2).
  rewrite Hr1, Hr2. f_equal. apply (row_ext n); [done | done |].
  intros e Hlt. rewrite <- (ent_lookup _ _ _ _ Hr1), <- (ent_lookup _ _ _ _ Hr2).
  by apply He.
Qed.

Lemma get_row_ent k n (t : tensor R) i :
  shaped k n t -> i < k ->
  exists r, get_row t i = Ok r /\ vshape n (Tens r) /\
            forall e, vent (Tens r) e = ent t i e.
Proof.
  intros Ht Hi. destruct (get_row_shaped _ _ _ _ Ht Hi) as (r & Hg & Hr & Hl).
  exists r. split; [done|]. split; [done|].
  intros e. cbn. by rewrite (ent_lookup _ _ _ _ Hr).
Qed.

(** On operands of one shape, broadcasting is the elementwise operation. *)
Lemma broadcast2_shaped (f : R -> R -> R) a b n :
  vshape n a -> vshape n b ->
  exists c, broadcast2 f a b = Ok c /\ vshape n c /\
            forall e, e < n -> vent c e = f (vent a e) (vent b e).
Proof.
  destruct a as [x|u], b as [y|v]; cbn; intros Ha Hb.
  - eexists. split; [done|]. split; done.
  - eexists. split; [done|]. cbn. split; [by rewrite length_map|].
    intros e He. apply lookup_total_map. lia.
  - eexists. split; [done|]. cbn. split; [by rewrite length_map|].
    intros e He. apply (lookup_total_map (fun x => f x y)). lia.
  - rewrite (proj2 (Nat.eqb_eq (length u) (length v))) by lia.
    eexists. split; [done|]. cbn. split.
    + rewrite length_zip_with. lia.
    + intros e He. apply lookup_total_zip_with; lia.
Qed.

Lemma assign_row_shaped k n (t : tensor R) i a :
  shaped k n t -> i < k -> vshape n a ->
  exists t', assign_row t i a = Ok t' /\ shaped k n t' /\
             (forall e, e < n -> ent t' i e = vent a e) /\
             (forall j, j <> i -> rows t' !! j = rows t !! j).
Proof.
  intros Ht Hi Ha.
  assert (exists r, assign_row t i a = Ok (Tensor n (<[i := r]> (rows t))) /\
                    length r = n /\ forall e, e < n -> r !!! e = vent a e)
    as (r & Hset & Hl & He).
  { destruct (shaped_lookup _ _ _ _ Ht Hi) as (r0' & Hr0 & _).
    destruct a as [x|l]; cbn in *.
    - unfold set_row. rewrite Hr0, (proj1 Ht). unfold broadcast_to.
      destruct (Nat.eqb_spec (length [x]) n) as [Hn|Hn]; cbn in Hn; [subst n|]; cbn.
      + exists [x]. split; [done|]. split; [reflexivity|].
        intros e He. replace e with 0 by lia. reflexivity.
      + exists (replicate n x). split; [done|]. split; [by rewrite length_replicate|].
        intros e He. by apply lookup_total_replicate.
    - exists l. split; [by apply (set_row_shaped k)|]. done. }
  exists (Tensor n (<[i := r]> (rows t))). split; [done|].
  split; [by apply shaped_insert|]. split.
  - intros e Hlt. rewrite <- (He e Hlt).
    apply ent_lookup. cbn. apply list_lookup_insert_eq. rewrite (proj1 (proj2 Ht)). lia.
  - intros j Hj. cbn. by apply list_lookup_insert_ne.
Qed.
End ValueFacts.

(** ** [compute_returns] *)

Ltac run_get :=
  match goal with
  | |- context [get_row ?tn ?ix] =>
      let r := fresh "r" in
      let Hg := fresh "Hg" in
      let Hsh := fresh "Hsh" in
      let He := fresh "He" in
      edestruct get_row_ent with (t := tn) (i := ix) as (r & Hg & Hsh & He);
      [eassumption | lia | rewrite Hg; clear Hg; cbn [mbind result_bind]]
  end.

Ltac run_op n :=
  match goal with
  | |- context [broadcast2 ?f ?a ?b] =>
      let c := fresh "c" in
      let Hc := fresh "Hc" in
      let Hsh := fresh "Hsh" in
      let He := fresh "He" in
      destruct (broadcast2_shaped f a b n) as (c & Hc & Hsh & He);
      [first [assumption | exact I] | first [assumption | exact I]
      | rewrite Hc; clear Hc; cbn [mbind result_bind]]
  end.

Ltac run_assign :=
  match goal with
  | |- context [assign_row ?tn ?ix ?av] =>
      let t' := fresh "rt'" in
      let Ha := fresh "Ha" in
      let Hsh := fresh "Hsh'" in
      let He := fresh "He'" in
      let Hfr := fresh "Hfr" in
      edestruct assign_row_shaped with (t := tn) (i := ix) (a := av) as (t' & Ha & Hsh & He & Hfr);
      [eassumption | lia | assumption | rewrite Ha; clear Ha; cbn [mbind result_bind]]
  end.

(** Rewrites the entries of the intermediate values down to the entries
    of the stored tensors. *)
Ltac entries :=
  intros; unfold delta_spec;
  repeat match goal with
    | Hx : forall e, e < _ -> vent ?c e = _ |- context [vent ?c ?e0] =>
        rewrite (Hx e0) by assumption
    | Hx : forall e, e < _ -> ent ?t ?i e = _ |- context [ent ?t ?i ?e0] =>
        rewrite (Hx e0) by assumption
    | Hx : forall e, vent (Tens ?r) e = _ |- context [vent (Tens ?r) ?e0] =>
        rewrite (Hx e0)
    end;
  cbn [vent]; reflexivity.

Ltac run_body n :=
  repeat first [run_get | run_op n]; run_assign;
  cbn [returns with_returns fst snd];
  repeat match goal with |- _ /\ _ => split end;
  first [reflexivity | assumption | entries].

Section ReturnsBodies.
Context {Obs Hid Act R : Type} `{Arith R}.
#[local] Abbreviation storage := (RolloutStorage Obs Hid Act R).
Implicit Types (s : storage) (g : value R).

Lemma with_returns_id s : with_returns s (returns s) = s.
Proof. by destruct s. Qed.

Lemma well_shaped_with_returns T N s rt :
  well_shaped T N s -> shaped (T + 1) N rt -> well_shaped T N (with_returns s rt).
Proof. intros [] Hrt. by constructor. Qed.

Lemma well_shaped_with_value_preds T N s vp :
  well_shaped T N s -> shaped (T + 1) N vp -> well_shaped T N (with_value_preds s vp).
Proof. intros [] Hvp. by constructor. Qed.

Lemma gae_time_limit_body_spec T N s gamma gae_lambda i g :
  well_shaped T N s -> i < T -> vshape N g ->
  match gae_time_limit_body gamma gae_lambda i (s, g) with
  | Raise _ => False
  | Ok (s', g') =>
    s' = with_returns s (returns s') /\
    shaped (T + 1) N (returns s') /\ vshape N g' /\
    (forall e, e < N ->
       vent g' e =
       rmul (radd (delta_spec (rewards s) (value_preds s) (done_masks s) gamma i e)
               (rmul (rmul (rmul gamma gae_lambda) (ent (done_masks s) (i + 1) e))
                  (vent g e)))
         (ent (time_limit_masks s) (i + 1) e)) /\
    (forall e, e < N ->
       ent (returns s') i e = radd (vent g' e) (ent (value_preds s) i e)) /\
    (forall j, j <> i -> rows (returns s') !! j = rows (returns s) !! j)
  end.
Proof.
  intros [] Hi Hg. unfold gae_time_limit_body, vmul, vadd, vsub. run_body N.
Qed.

Lemma gae_body_spec T N s gamma gae_lambda i g :
  well_shaped T N s -> i < T -> vshape N g ->
  match gae_body gamma gae_lambda i (s, g) with
  | Raise _ => False
  | Ok (s', g') =>
    s' = with_returns s (returns s') /\
    shaped (T + 1) N (returns s') /\ vshape N g' /\
    (forall e, e < N ->
       vent g' e =
       radd (delta_spec (rewards s) (value_preds s) (done_masks s) gamma i e)
         (rmul (rmul (rmul gamma gae_lambda) (ent (done_masks s) (i + 1) e))
            (vent g e))) /\
    (forall e, e < N ->
       ent (returns s') i e = radd (vent g' e) (ent (value_preds s) i e)) /\
    (forall j, j <> i -> rows (returns s') !! j = rows (returns s) !! j)
  end.
Proof.
  intros [] Hi Hg. unfold gae_body, vmul, vadd, vsub. run_body N.
Qed.

Lemma return_time_limit_body_spec T N s gamma i :
  well_shaped T N s -> i < T ->
  match return_time_limit_body gamma i s with
  | Raise _ => False
  | Ok s' =>
    s' = with_returns s (returns s') /\
    shaped (T + 1) N (returns s') /\
    (forall e, e < N ->
       ent (returns s') i e =
       radd (rmul (radd (rmul (rmul (ent (returns s) (i + 1) e) gamma)
                           (ent (done_masks s) (i + 1) e))
                     (ent (rewards s) i e))
               (ent (time_limit_masks s) (i + 1) e))
         (rmul (rsub r1 (ent (time_limit_masks s) (i + 1) e))
            (ent (value_preds s) i e))) /\
    (forall j, j <> i -> rows (returns s') !! j = rows (returns s) !! j)
  end.
Proof.
  intros [] Hi. unfold return_time_limit_body, vmul, vadd, vsub. run_body N.
Qed.

Lemma return_body_spec T N s gamma i :
  well_shaped T N s -> i < T ->
  match return_body gamma i s with
  | Raise _ => False
  | Ok s' =>
    s' = with_returns s (returns s') /\
    shaped (T + 1) N (returns s') /\
    (forall e, e < N ->
       ent (returns s') i e =
       radd (rmul (rmul (ent (returns s) (i + 1) e) gamma)
               (ent (done_masks s) (i + 1) e))
         (ent (rewards s) i e)) /\
    (forall j, j <> i -> rows (returns s') !! j = rows (returns s) !! j)
  end.
Proof.
  intros [] Hi. unfold return_body, vmul, vadd, vsub. run_body N.
Qed.
End ReturnsBodies.

(** *** The backward loops *)

Lemma rev_seq_step (T k : nat) :
  S k <= T -> rev (seq (T - S k) (S k)) = rev (seq (T - k) k) ++ [T - S k].
Proof.
  intros Hk. cbn [seq rev]. replace (S (T - S k)) with (T - k) by lia. done.
Qed.

Section GaeLoop.
Context {Obs Hid Act R : Type} `{Arith R}.
#[local] Abbreviation storage := (RolloutStorage Obs Hid Act R).
Variables (T N : nat) (s0 : storage).
Variable body : nat -> storage * value R -> result (storage * value R).
Variable F : nat -> nat -> R -> R.
Variable spec : nat -> nat -> R.

Hypothesis body_spec : forall rt i g,
  shaped (T + 1) N rt -> i < T -> vshape N g ->
  match body i (with_returns s0 rt, g) with
  | Raise _ => False
  | Ok (s', g') =>
      s' = with_returns s0 (returns s') /\
      shaped (T + 1) N (returns s') /\ vshape N g' /\
      (forall e, e < N -> vent g' e = F i e (vent g e)) /\
      (forall e, e < N ->
         ent (returns s') i e = radd (vent g' e) (ent (value_preds s0) i e)) /\
      (forall j, j <> i -> rows (returns s') !! j = rows rt !! j)
  end.
Hypothesis spec_0 : forall e, spec 0 e = r0.
Hypothesis spec_S : forall k e, spec (S k) e = F (T - S k) e (spec k e).

Lemma gae_loop rt0 k :
  shaped (T + 1) N rt0 -> k <= T ->
  match for_each body (rev (seq (T - k) k)) (with_returns s0 rt0, Num r0) with
  | Raise _ => False
  | Ok (s', g) =>
      s' = with_returns s0 (returns s') /\
      shaped (T + 1) N (returns s') /\ vshape N g /\
      (forall e, e < N -> vent g e = spec k e) /\
      (forall t e, T - k <= t < T -> e < N ->
         ent (returns s') t e = radd (spec (T - t) e) (ent (value_preds s0) t e)) /\
      (forall j, j < T - k \/ T <= j -> rows (returns s') !! j = rows rt0 !! j)
  end.
Proof using body_spec spec_0 spec_S.
  intros Hrt0. induction k as [|k IH]; intros Hk.
  - cbn. split_and!; try done.
    intros t e Ht. lia.
  - rewrite rev_seq_step, for_each_app by done.
    specialize (IH ltac:(lia)).
    destruct (for_each body (rev (seq (T - k) k)) (with_returns s0 rt0, Num r0))
      as [[s1 g1]|]; [|done].
    destruct IH as (Hs1 & Hsh1 & Hg1 & Hspec & Hent & Hfr).
    cbn [mbind result_bind for_each]. rewrite Hs1.
    pose proof (body_spec (returns s1) (T - S k) g1 Hsh1 ltac:(lia) Hg1) as Hb.
    destruct (body (T - S k) (with_returns s0 (returns s1), g1)) as [[s2 g2]|]; [|done].
    destruct Hb as (Hs2 & Hsh2 & Hg2 & Hstep & Hnew & Hfr2).
    split_and!; try done.
    + intros e He. rewrite spec_S, (Hstep e He), (Hspec e He). done.
    + intros t e Ht He. destruct (decide (t = T - S k)) as [->|Hne].
      * rewrite (Hnew e He). replace (T - (T - S k)) with (S k) by lia.
        rewrite spec_S, (Hstep e He), (Hspec e He). done.
      * rewrite <- (Hent t e) by (lia || done). apply ent_ext. by apply Hfr2.
    + intros j Hj. rewrite Hfr2 by lia. apply Hfr. lia.
Qed.
End GaeLoop.

Section ReturnLoop.
Context {Obs Hid Act R : Type} `{Arith R}.
#[local] Abbreviation storage := (RolloutStorage Obs Hid Act R).
Variables (T N : nat) (s0 : storage).
Variable body : nat -> storage -> result storage.
Variable G : nat -> nat -> R -> R.
Variable spec : nat -> nat -> R.

Hypothesis body_spec : forall rt i,
  shaped (T + 1) N rt -> i < T ->
  match body i (with_returns s0 rt) with
  | Raise _ => False
  | Ok s' =>
      s' = with_returns s0 (returns s') /\
      shaped (T + 1) N (returns s') /\
      (forall e, e < N -> ent (returns s') i e = G i e (ent rt (i + 1) e)) /\
      (forall j, j <> i -> rows (returns s') !! j = rows rt !! j)
  end.
Hypothesis spec_S : forall k e, spec (S k) e = G (T - S k) e (spec k e).

Lemma return_loop rt0 k :
  shaped (T + 1) N rt0 -> k <= T ->
  (forall e, e < N -> ent rt0 T e = spec 0 e) ->
  match for_each body (rev (seq (T - k) k)) (with_returns s0 rt0) with
  | Raise _ => False
  | Ok s' =>
      s' = with_returns s0 (returns s') /\
      shaped (T + 1) N (returns s') /\
      (forall t e, T - k <= t <= T -> e < N -> ent (returns s') t e = spec (T - t) e) /\
      (forall j, j < T - k \/ T <= j -> rows (returns s') !! j = rows rt0 !! j)
  end.
Proof using body_spec spec_S.
  intros Hrt0 Hk Hlast. induction k as [|k IH].
  - cbn. split_and!; try done.
    intros t e Ht He. replace t with T by lia. rewrite Nat.sub_diag. by apply Hlast.
  - rewrite rev_seq_step, for_each_app by done.
    specialize (IH ltac:(lia)).
    destruct (for_each body (rev (seq (T - k) k)) (with_returns s0 rt0))
      as [s1|]; [|done].
    destruct IH as (Hs1 & Hsh1 & Hent & Hfr).
    cbn [mbind result_bind for_each]. rewrite Hs1.
    pose proof (body_spec (returns s1) (T - S k) Hsh1 ltac:(lia)) as Hb.
    destruct (body (T - S k) (with_returns s0 (returns s1))) as [s2|]; [|done].
    destruct Hb as (Hs2 & Hsh2 & Hnew & Hfr2).
    split_and!; try done.
    + intros t e Ht He. destruct (decide (t = T - S k)) as [->|Hne].
      * rewrite (Hnew e He). replace (T - (T - S k)) with (S k) by lia.
        rewrite spec_S. f_equal.
        rewrite (Hent (T - S k + 1) e) by (lia || done). f_equal. lia.
      * rewrite <- (Hent t e) by (lia || done). apply ent_ext. by apply Hfr2.
    + intros j Hj. rewrite Hfr2 by lia. apply Hfr. lia.
Qed.
End ReturnLoop.

(** *** The four variants of [compute_returns] *)

Section ComputeReturnsFacts.
Context {Obs Hid Act R : Type} `{Arith R}.
#[local] Abbreviation storage := (RolloutStorage Obs Hid Act R).
Implicit Types (s : storage) (nv : list R).

(** The value predictions once slot [T] holds the bootstrap value. *)
#[local] Abbreviation bootstrapped T N s nv :=
  (Tensor N (<[T := nv]> (rows (value_preds s)))).

Lemma reversed_range_rewards T N s :
  well_shaped T N s -> reversed_range (size0 (rewards s)) = rev (seq (T - T) T).
Proof.
  intros []. unfold reversed_range, size0.
  rewrite (proj1 (proj2 ws_rewards0)), Nat.sub_diag. done.
Qed.

Lemma last_row_inserted T N (t : tensor R) nv e :
  shaped (T + 1) N t -> ent (Tensor N (<[T := nv]> (rows t))) T e = vent (Tens nv) e.
Proof.
  intros Ht. apply ent_lookup. cbn. apply list_lookup_insert_eq.
  rewrite (proj1 (proj2 Ht)). lia.
Qed.

Lemma compute_returns_gae_time_limit_spec T N s nv gamma gae_lambda :
  well_shaped T N s -> length nv = N ->
  match compute_returns s nv true gamma gae_lambda true with
  | Raise _ => False
  | Ok s' =>
      s' = with_returns (with_value_preds s (bootstrapped T N s nv)) (returns s') /\
      shaped (T + 1) N (returns s') /\
      (forall t e, t < T -> e < N ->
         ent (returns s') t e =
         radd (gae_time_limit_spec (rewards s) (bootstrapped T N s nv) (done_masks s)
                 (time_limit_masks s) gamma gae_lambda T (T - t) e)
           (ent (bootstrapped T N s nv) t e)) /\
      (forall j, T <= j -> rows (returns s') !! j = rows (returns s) !! j)
  end.
Proof.
  intros Hs Hnv. unfold compute_returns.
  rewrite (set_last_shaped T N) by (done || apply Hs). cbn [mbind result_bind].
  rewrite (reversed_range_rewards T N s Hs).
  set (s1 := with_value_preds s (bootstrapped T N s nv)).
  assert (well_shaped T N s1) as Hs1.
  { apply well_shaped_with_value_preds; [done|]. apply shaped_insert; [apply Hs | done]. }
  pose proof (gae_loop T N s1 (gae_time_limit_body gamma gae_lambda)
    (fun i e g =>
       rmul (radd (delta_spec (rewards s1) (value_preds s1) (done_masks s1) gamma i e)
               (rmul (rmul (rmul gamma gae_lambda) (ent (done_masks s1) (i + 1) e)) g))
         (ent (time_limit_masks s1) (i + 1) e))
    (gae_time_limit_spec (rewards s1) (value_preds s1) (done_masks s1)
       (time_limit_masks s1) gamma gae_lambda T)) as Hloop.
  rewrite <- (with_returns_id s1).
  specialize (Hloop ltac:(intros rt i g Hrt Hi Hg;
    apply (gae_time_limit_body_spec T N (with_returns s1 rt)); try done;
    by apply well_shaped_with_returns) ltac:(done) ltac:(done)
    (returns s1) T ltac:(apply Hs1) ltac:(lia)).
  destruct (for_each _ _ _) as [[s' g]|]; [|done].
  destruct Hloop as (Hs' & Hsh & _ & _ & Hent & Hfr). cbn [fst].
  split_and!; try done.
  - intros t e Ht He. apply Hent; [lia | done].
  - intros j Hj. apply Hfr. lia.
Qed.

Lemma compute_returns_gae_spec T N s nv gamma gae_lambda :
  well_shaped T N s -> length nv = N ->
  match compute_returns s nv true gamma gae_lambda false with
  | Raise _ => False
  | Ok s' =>
      s' = with_returns (with_value_preds s (bootstrapped T N s nv)) (returns s') /\
      shaped (T + 1) N (returns s') /\
      (forall t e, t < T -> e < N ->
         ent (returns s') t e =
         radd (gae_spec (rewards s) (bootstrapped T N s nv) (done_masks s)
                 gamma gae_lambda T (T - t) e)
           (ent (bootstrapped T N s nv) t e)) /\
      (forall j, T <= j -> rows (returns s') !! j = rows (returns s) !! j)
  end.
Proof.
  intros Hs Hnv. unfold compute_returns.
  rewrite (set_last_shaped T N) by (done || apply Hs). cbn [mbind result_bind].
  rewrite (reversed_range_rewards T N s Hs).
  set (s1 := with_value_preds s (bootstrapped T N s nv)).
  assert (well_shaped T N s1) as Hs1.
  { apply well_shaped_with_value_preds; [done|]. apply shaped_insert; [apply Hs | done]. }
  pose proof (gae_loop T N s1 (gae_body gamma gae_lambda)
    (fun i e g =>
       radd (delta_spec (rewards s1) (value_preds s1) (done_masks s1) gamma i e)
         (rmul (rmul (rmul gamma gae_lambda) (ent (done_masks s1) (i + 1) e)) g))
    (gae_spec (rewards s1) (value_preds s1) (done_masks s1) gamma gae_lambda T))
    as Hloop.
  rewrite <- (with_returns_id s1).
  specialize (Hloop ltac:(intros rt i g Hrt Hi Hg;
    apply (gae_body_spec T N (with_returns s1 rt)); try done;
    by apply well_shaped_with_returns) ltac:(done) ltac:(done)
    (returns s1) T ltac:(apply Hs1) ltac:(lia)).
  destruct (for_each _ _ _) as [[s' g]|]; [|done].
  destruct Hloop as (Hs' & Hsh & _ & _ & Hent & Hfr). cbn [fst].
  split_and!; try done.
  - intros t e Ht He. apply Hent; [lia | done].
  - intros j Hj. apply Hfr. lia.
Qed.

Lemma compute_returns_return_time_limit_spec T N s nv gamma gae_lambda :
  well_shaped T N s -> length nv = N ->
  match compute_returns s nv false gamma gae_lambda true with
  | Raise _ => False
  | Ok s' =>
      s' = with_returns s (returns s') /\
      shaped (T + 1) N (returns s') /\
      (forall t e, t <= T -> e < N ->
         ent (returns s') t e =
         return_time_limit_spec (rewards s) (value_preds s) (done_masks s)
           (time_limit_masks s) gamma nv T (T - t) e) /\
      rows (returns s') !! T = Some nv
  end.
Proof.
  intros Hs Hnv. unfold compute_returns.
  rewrite (set_last_shaped T N) by (done || apply Hs). cbn [mbind result_bind].
  rewrite (reversed_range_rewards T N s Hs).
  set (rt0 := Tensor N (<[T := nv]> (rows (returns s)))).
  assert (shaped (T + 1) N rt0) as Hrt0 by (apply shaped_insert; [apply Hs | done]).
  pose proof (return_loop T N s (return_time_limit_body gamma)
    (fun i e x =>
       radd (rmul (radd (rmul (rmul x gamma) (ent (done_masks s) (i + 1) e))
                     (ent (rewards s) i e))
               (ent (time_limit_masks s) (i + 1) e))
         (rmul (rsub r1 (ent (time_limit_masks s) (i + 1) e)) (ent (value_preds s) i e)))
    (return_time_limit_spec (rewards s) (value_preds s) (done_masks s)
       (time_limit_masks s) gamma nv T)) as Hloop.
  specialize (Hloop ltac:(intros rt i Hrt Hi;
    apply (return_time_limit_body_spec T N (with_returns s rt)); try done;
    by apply well_shaped_with_returns) ltac:(done)
    rt0 T Hrt0 ltac:(lia)
    ltac:(intros e _; apply last_row_inserted, Hs)).
  destruct (for_each _ _ _) as [s'|]; [|done].
  destruct Hloop as (Hs' & Hsh & Hent & Hfr).
  split_and!; try done.
  - intros t e Ht He. apply Hent; [lia | done].
  - rewrite Hfr by lia. cbn. apply list_lookup_insert_eq.
    rewrite (proj1 (proj2 (ws_returns _ _ _ Hs))). lia.
Qed.

Lemma compute_returns_return_spec T N s nv gamma gae_lambda :
  well_shaped T N s -> length nv = N ->
  match compute_returns s nv false gamma gae_lambda false with
  | Raise _ => False
  | Ok s' =>
      s' = with_returns s (returns s') /\
      shaped (T + 1) N (returns s') /\
      (forall t e, t <= T -> e < N ->
         ent (returns s') t e =
         return_spec (rewards s) (done_masks s) gamma nv T (T - t) e) /\
      rows (returns s') !! T = Some nv
  end.
Proof.
  intros Hs Hnv. unfold compute_returns.
  rewrite (set_last_shaped T N) by (done || apply Hs). cbn [mbind result_bind].
  rewrite (reversed_range_rewards T N s Hs).
  set (rt0 := Tensor N (<[T := nv]> (rows (returns s)))).
  assert (shaped (T + 1) N rt0) as Hrt0 by (apply shaped_insert; [apply Hs | done]).
  pose proof (return_loop T N s (return_body gamma)
    (fun i e x =>
       radd (rmul (rmul x gamma) (ent (done_masks s) (i + 1) e)) (ent (rewards s) i e))
    (return_spec (rewards s) (done_masks s) gamma nv T)) as Hloop.
  specialize (Hloop ltac:(intros rt i Hrt Hi;
    apply (return_body_spec T N (with_returns s rt)); try done;
    by apply well_shaped_with_returns) ltac:(done)
    rt0 T Hrt0 ltac:(lia)
    ltac:(intros e _; apply last_row_inserted, Hs)).
  destruct (for_each _ _ _) as [s'|]; [|done].
  destruct Hloop as (Hs' & Hsh & Hent & Hfr).
  split_and!; try done.
  - intros t e Ht He. apply Hent; [lia | done].
  - rewrite Hfr by lia. cbn. apply list_lookup_insert_eq.
    rewrite (proj1 (proj2 (ws_returns _ _ _ Hs))). lia.
Qed.
End ComputeReturnsFacts.

Section ExactFacts.
Context {R : Type} `{ExactArith R}.

Add Ring exact_ring : arith_ring.

(** With a zero mask, the masked sum gives way to the value estimate. *)
Lemma masked_fallback (x v : R) :
  radd (rmul x r0) (rmul (rsub r1 r0) v) = v.
Proof. ring. Qed.

Lemma linear_decay (a q : R) : rsub a (rmul a q) = rmul a (rsub r1 q).
Proof. ring. Qed.

Lemma linear_decay_start (a : R) : rsub a (rmul a r0) = a.
Proof. ring. Qed.

Lemma linear_decay_end (a : R) : rsub a (rmul a r1) = r0.
Proof. ring. Qed.
End ExactFacts.

Section ComputeReturnsClaims.
Context {Obs Hid Act R : Type} `{Arith R}.
#[local] Abbreviation storage := (RolloutStorage Obs Hid Act R).
Implicit Types (s : storage) (nv : list R).

(** C1.  With [use_gae] and [use_proper_time_limits], [compute_returns]
    on a buffer of [T] steps and [N] environments succeeds, stores the
    bootstrap value in [value_preds[T]] and changes nothing else but
    [returns]; there is an accumulator [gae], zero before the first
    iteration, such that for every [t < T] and every environment
    [delta = reward[t] + gamma * value_preds[t+1] * done_masks[t+1]
    - value_preds[t]], [gae[t]] is
    [delta + gamma * gae_lambda * done_masks[t+1] * gae[t+1]] masked by
    [time_limit_masks[t+1]], and [returns[t] = gae[t] + value_preds[t]]. *)
Theorem compute_returns_gae_time_limit T N s nv gamma gae_lambda :
  well_shaped T N s -> length nv = N ->
  exists s' (gae : nat -> nat -> R),
    compute_returns s nv true gamma gae_lambda true = Ok s' /\
    rows (value_preds s') !! T = Some nv /\
    s' = with_returns
           (with_value_preds s (Tensor N (<[T := nv]> (rows (value_preds s)))))
           (returns s') /\
    (forall e, gae T e = r0) /\
    forall t e, t < T -> e < N ->
      let delta :=
        rsub (radd (ent (rewards s') t e)
                (rmul (rmul gamma (ent (value_preds s') (t + 1) e))
                   (ent (done_masks s') (t + 1) e)))
          (ent (value_preds s') t e) in
      gae t e =
        rmul (radd delta
                (rmul (rmul (rmul gamma gae_lambda) (ent (done_masks s') (t + 1) e))
                   (gae (t + 1) e)))
          (ent (time_limit_masks s') (t + 1) e) /\
      ent (returns s') t e = radd (gae t e) (ent (value_preds s') t e).
Proof.
  intros Hs Hnv.
  pose proof (compute_returns_gae_time_limit_spec T N s nv gamma gae_lambda Hs Hnv) as Hc.
  destruct (compute_returns s nv true gamma gae_lambda true) as [s'|]; [|done].
  destruct Hc as (Hs' & Hsh & Hent & Hfr).
  set (vp' := Tensor N (<[T := nv]> (rows (value_preds s)))) in *.
  exists s', (fun t e =>
    gae_time_limit_spec (rewards s) vp' (done_masks s) (time_limit_masks s)
      gamma gae_lambda T (T - t) e).
  split; [done|]. rewrite Hs'.
  cbn [value_preds rewards done_masks time_limit_masks returns with_returns
         with_value_preds].
  split.
  { subst vp'. cbn. apply list_lookup_insert_eq.
    rewrite (proj1 (proj2 (ws_value_preds _ _ _ Hs))). lia. }
  split; [done|]. split.
  { intros e. by rewrite Nat.sub_diag. }
  intros t e Ht He. cbn zeta. split; [|by apply Hent].
  replace (T - t) with (S (T - (t + 1))) by lia.
  cbn [gae_time_limit_spec].
  replace (T - S (T - (t + 1))) with t by lia.
  reflexivity.
Qed.

(** C2.  Without GAE and with [use_proper_time_limits], [compute_returns]
    succeeds, changes nothing but [returns], stores the bootstrap value in
    [returns[T]], and for every [t < T] and every environment
    [returns[t] = (returns[t+1] * gamma * done_masks[t+1] + reward[t])
    * time_limit_masks[t+1] + (1 - time_limit_masks[t+1]) * value_preds[t]];
    in exact arithmetic a zero time-limit mask at [t+1] makes [returns[t]]
    the stored value estimate [value_preds[t]]. *)
Theorem compute_returns_discounted_time_limit T N s nv gamma gae_lambda :
  well_shaped T N s -> length nv = N ->
  exists s',
    compute_returns s nv false gamma gae_lambda true = Ok s' /\
    s' = with_returns s (returns s') /\
    rows (returns s') !! T = Some nv /\
    forall t e, t < T -> e < N ->
      ent (returns s') t e =
        radd (rmul (radd (rmul (rmul (ent (returns s') (t + 1) e) gamma)
                            (ent (done_masks s) (t + 1) e))
                      (ent (rewards s) t e))
                (ent (time_limit_masks s) (t + 1) e))
          (rmul (rsub r1 (ent (time_limit_masks s) (t + 1) e))
             (ent (value_preds s) t e)) /\
      (ExactArith R -> ent (time_limit_masks s) (t + 1) e = r0 ->
       ent (returns s') t e = ent (value_preds s) t e).
Proof.
  intros Hs Hnv.
  pose proof (compute_returns_return_time_limit_spec T N s nv gamma gae_lambda Hs Hnv)
    as Hc.
  destruct (compute_returns s nv false gamma gae_lambda true) as [s'|]; [|done].
  destruct Hc as (Hs' & Hsh & Hent & Hlast).
  exists s'. split; [done|]. split; [done|]. split; [done|].
  intros t e Ht He.
  assert (ent (returns s') t e =
          radd (rmul (radd (rmul (rmul (ent (returns s') (t + 1) e) gamma)
                              (ent (done_masks s) (t + 1) e))
                        (ent (rewards s) t e))
                  (ent (time_limit_masks s) (t + 1) e))
            (rmul (rsub r1 (ent (time_limit_masks s) (t + 1) e))
               (ent (value_preds s) t e))) as Hrec.
  { rewrite (Hent t e) by (lia || done). rewrite (Hent (t + 1) e) by (lia || done).
    replace (T - t) with (S (T - (t + 1))) by lia.
    cbn [return_time_limit_spec].
    replace (T - S (T - (t + 1))) with t by lia.
    reflexivity. }
  split; [exact Hrec|].
  intros Hexact Hmask. rewrite Hrec, Hmask. apply masked_fallback.
Qed.

(** C7 (amended).  For every combination of [use_gae] and
    [use_proper_time_limits], [compute_returns] succeeds and what
    [returns[0..T-1]] hold afterwards is written by the call: it is the same
    whatever [returns] held before.  Slot [T] of [returns] is written, with
    the bootstrap value, in the two variants without GAE; the two GAE
    variants leave [returns[T]] as it was. *)
Theorem compute_returns_fills_returns T N s rt nv use_gae gamma gae_lambda proper :
  well_shaped T N s -> shaped (T + 1) N rt -> length nv = N ->
  exists s1 s2,
    compute_returns s nv use_gae gamma gae_lambda proper = Ok s1 /\
    compute_returns (with_returns s rt) nv use_gae gamma gae_lambda proper = Ok s2 /\
    (forall t, t < T -> rows (returns s1) !! t = rows (returns s2) !! t) /\
    (use_gae = false ->
       rows (returns s1) !! T = Some nv /\ rows (returns s2) !! T = Some nv) /\
    (use_gae = true ->
       rows (returns s1) !! T = rows (returns s) !! T /\
       rows (returns s2) !! T = rows rt !! T).
Proof.
  intros Hs Hrt Hnv.
  assert (well_shaped T N (with_returns s rt)) as Hs2
    by (by apply well_shaped_with_returns).
  destruct use_gae, proper.
  - pose proof (compute_returns_gae_time_limit_spec T N s nv gamma gae_lambda Hs Hnv) as H1.
    pose proof (compute_returns_gae_time_limit_spec T N _ nv gamma gae_lambda Hs2 Hnv) as H2.
    destruct (compute_returns s _ _ _ _ _) as [s1|]; [|done].
    destruct (compute_returns (with_returns s rt) _ _ _ _ _) as [s2|]; [|done].
    destruct H1 as (_ & Hsh1 & He1 & Hf1), H2 as (_ & Hsh2 & He2 & Hf2).
    exists s1, s2. split_and!; try done.
    + intros t Ht. apply (shaped_row_ext (T + 1) N); [done | done | lia |].
      intros e He. rewrite He1, He2 by done. done.
    + intros _. split; [apply Hf1 | apply Hf2]; lia.
  - pose proof (compute_returns_gae_spec T N s nv gamma gae_lambda Hs Hnv) as H1.
    pose proof (compute_returns_gae_spec T N _ nv gamma gae_lambda Hs2 Hnv) as H2.
    destruct (compute_returns s _ _ _ _ _) as [s1|]; [|done].
    destruct (compute_returns (with_returns s rt) _ _ _ _ _) as [s2|]; [|done].
    destruct H1 as (_ & Hsh1 & He1 & Hf1), H2 as (_ & Hsh2 & He2 & Hf2).
    exists s1, s2. split_and!; try done.
    + intros t Ht. apply (shaped_row_ext (T + 1) N); [done | done | lia |].
      intros e He. rewrite He1, He2 by done. done.
    + intros _. split; [apply Hf1 | apply Hf2]; lia.
  - pose proof (compute_returns_return_time_limit_spec T N s nv gamma gae_lambda Hs Hnv)
      as H1.
    pose proof (compute_returns_return_time_limit_spec T N _ nv gamma gae_lambda Hs2 Hnv)
      as H2.
    destruct (compute_returns s _ _ _ _ _) as [s1|]; [|done].
    destruct (compute_returns (with_returns s rt) _ _ _ _ _) as [s2|]; [|done].
    destruct H1 as (_ & Hsh1 & He1 & Hl1), H2 as (_ & Hsh2 & He2 & Hl2).
    exists s1, s2. split_and!; try done.
    intros t Ht. apply (shaped_row_ext (T + 1) N); [done | done | lia |].
    intros e He. rewrite He1, He2 by (lia || done). done.
  - pose proof (compute_returns_return_spec T N s nv gamma gae_lambda Hs Hnv) as H1.
    pose proof (compute_returns_return_spec T N _ nv gamma gae_lambda Hs2 Hnv) as H2.
    destruct (compute_returns s _ _ _ _ _) as [s1|]; [|done].
    destruct (compute_returns (with_returns s rt) _ _ _ _ _) as [s2|]; [|done].
    destruct H1 as (_ & Hsh1 & He1 & Hl1), H2 as (_ & Hsh2 & He2 & Hl2).
    exists s1, s2. split_and!; try done.
    intros t Ht. apply (shaped_row_ext (T + 1) N); [done | done | lia |].
    intros e He. rewrite He1, He2 by (lia || done). done.
Qed.
End ComputeReturnsClaims.

Example compute_returns_gae_time_limit_example :
  compute_returns Examples.buffer_2x1 [0%Z] true 2%Z 3%Z true =
  Ok (with_returns
        (with_value_preds Examples.buffer_2x1 (Tensor 1 [[5]; [5]; [0]]))
        (Tensor 1 [[-7]; [2]; [7]]))%Z.
Proof. reflexivity. Qed.

Example compute_returns_discounted_time_limit_example :
  compute_returns Examples.buffer_2x1 [0%Z] false 2%Z 3%Z true =
  Ok (with_returns Examples.buffer_2x1 (Tensor 1 [[5]; [2]; [0]]))%Z.
Proof. reflexivity. Qed.

(** A truncation at the last step: [returns[1]] is the value estimate
    [value_preds[1] = 5], not the discounted sum. *)
Example compute_returns_truncation_example :
  compute_returns Examples.buffer_2x1_truncated [0%Z] false 2%Z 3%Z true =
  Ok (with_returns Examples.buffer_2x1_truncated (Tensor 1 [[11]; [5]; [0]]))%Z.
Proof. reflexivity. Qed.

(** Section 8 of the specification: [gamma = 0.99], [gae_lambda = 0.95],
    bootstrap value 0.  The backward recursion gives [returns[1] = 2] and
    [returns[0] = 0.995 + 0.99 * 0.95 * 1.5 + 0.5 = 2.90575 = 11623/4000]. *)
Example compute_returns_terminal_rollout :
  match compute_returns Examples.terminal_rollout [Q2Qc 0] true
          (Q2Qc 0.99) (Q2Qc 0.95) true with
  | Ok s' => map (map this) (rows (returns s')) = [[11623 # 4000]; [2]; [0]]%Q
  | Raise _ => False
  end.
Proof. vm_compute. reflexivity. Qed.

Lemma compute_returns_gae_time_limit_witness :
  exists s', compute_returns Examples.buffer_2x1 [0%Z] true 2%Z 3%Z true = Ok s' /\
             rows (value_preds s') !! 2 = Some [0%Z].
Proof.
  destruct (compute_returns_gae_time_limit 2 1 Examples.buffer_2x1 [0%Z] 2%Z 3%Z
              buffer_2x1_shaped eq_refl) as (s' & gae & Hc & Hvp & _).
  exists s'. split; [exact Hc | exact Hvp].
Defined.

Lemma compute_returns_discounted_time_limit_witness :
  exists s', compute_returns Examples.buffer_2x1 [0%Z] false 2%Z 3%Z true = Ok s' /\
             rows (returns s') !! 2 = Some [0%Z].
Proof.
  destruct (compute_returns_discounted_time_limit 2 1 Examples.buffer_2x1 [0%Z] 2%Z 3%Z
              buffer_2x1_shaped eq_refl) as (s' & Hc & _ & Hrt & _).
  exists s'. split; [exact Hc | exact Hrt].
Defined.

Lemma compute_returns_fills_returns_witness :
  exists s1 s2,
    compute_returns Examples.buffer_2x1 [0%Z] false 2%Z 3%Z true = Ok s1 /\
    compute_returns Examples.buffer_2x1_other [0%Z] false 2%Z 3%Z true = Ok s2 /\
    forall t, t < 2 -> rows (returns s1) !! t = rows (returns s2) !! t.
Proof.
  destruct (compute_returns_fills_returns 2 1 Examples.buffer_2x1
              (Tensor 1 [[8]; [8]; [8]])%Z [0%Z] false 2%Z 3%Z true
              buffer_2x1_shaped) as (s1 & s2 & H1 & H2 & Hlow & _).
  - repeat split; repeat constructor.
  - reflexivity.
  - exists s1, s2. split; [exact H1|]. split; [exact H2 | exact Hlow].
Defined.

(** C7 as stated fails: with GAE the call does not write [returns[T]].  Two
    buffers that differ only in what [returns] held before still differ in
    [returns[T]] afterwards, each keeping its own stale entry. *)
Lemma compute_returns_gae_keeps_last_return :
  exists s1 s2,
    compute_returns Examples.buffer_2x1 [0%Z] true 2%Z 3%Z true = Ok s1 /\
    compute_returns Examples.buffer_2x1_other [0%Z] true 2%Z 3%Z true = Ok s2 /\
    rows (returns s1) !! 2 = rows (returns Examples.buffer_2x1) !! 2 /\
    rows (returns s2) !! 2 = rows (returns Examples.buffer_2x1_other) !! 2 /\
    rows (returns s1) !! 2 <> rows (returns s2) !! 2.
Proof.
  do 2 eexists. split; [vm_compute; reflexivity|]. split; [vm_compute; reflexivity|].
  split; [reflexivity|]. split; [reflexivity|]. vm_compute. intros Heq. discriminate Heq.
Qed.

(** ** The samplers *)

Lemma subset_random_sampler_range (n : nat) (perm : list nat) :
  Forall (fun i => i < n) perm -> SubsetRandomSampler (seq 0 n) perm = perm.
Proof.
  unfold SubsetRandomSampler. induction 1 as [|i perm Hi _ IH]; cbn; [done|].
  rewrite lookup_seq_lt by done. cbn. by rewrite IH.
Qed.

Lemma permutation_range_bound (n : nat) (perm : list nat) :
  perm ≡ₚ seq 0 n -> Forall (fun i => i < n) perm.
Proof.
  intros Hp. rewrite Hp. apply Forall_forall. intros i Hi.
  apply elem_of_seq in Hi. lia.
Qed.

(** The batches are full and, in order, make up the sampled indices but
    for a last partial batch. *)
Lemma batch_sampler_from_spec (b : nat) (sampler batch : list nat) :
  length batch < b ->
  exists rest,
    batch ++ sampler = concat (batch_sampler_from b batch sampler) ++ rest /\
    length rest < b /\
    Forall (fun ix => length ix = b) (batch_sampler_from b batch sampler).
Proof.
  revert batch. induction sampler as [|idx sampler IH]; intros batch Hlen; cbn.
  - exists batch. by rewrite app_nil_r.
  - destruct (Nat.eqb_spec (length (batch ++ [idx])) b) as [Hfull|Hpart].
    + destruct (IH [] ltac:(cbn; lia)) as (rest & Heq & Hrest & Hall).
      exists rest. cbn [concat]. split_and!; [|done|by constructor].
      cbn in Heq. rewrite <- app_assoc, <- Heq, <- app_assoc. done.
    + rewrite length_app in Hpart. cbn in Hpart.
      destruct (IH (batch ++ [idx]) ltac:(rewrite length_app; cbn; lia))
        as (rest & Heq & Hrest & Hall).
      exists rest. split_and!; [|done|done].
      rewrite <- Heq, <- app_assoc. done.
Qed.

Lemma length_concat_uniform (b : nat) (batches : list (list nat)) :
  Forall (fun ix => length ix = b) batches ->
  length (concat batches) = b * length batches.
Proof.
  induction 1 as [|ix batches Hix _ IH]; cbn; [lia|].
  rewrite length_app, IH, Hix. lia.
Qed.

Lemma batch_sampler_spec (b : nat) (sampler : list nat) :
  1 <= b -> NoDup sampler ->
  length (BatchSampler sampler b) = length sampler / b /\
  Forall (fun ix => length ix = b) (BatchSampler sampler b) /\
  NoDup (concat (BatchSampler sampler b)) /\
  exists rest, sampler = concat (BatchSampler sampler b) ++ rest /\ length rest < b.
Proof.
  intros Hb Hnd. unfold BatchSampler.
  destruct (batch_sampler_from_spec b sampler [] ltac:(cbn; lia))
    as (rest & Heq & Hrest & Hall).
  cbn in Heq. split_and!; [|done| |by exists rest].
  - apply (Nat.div_unique _ _ _ (length rest)); [done|].
    rewrite Heq at 1. rewrite length_app, (length_concat_uniform b) by done. done.
  - rewrite Heq in Hnd. by apply list.NoDup_app in Hnd as (? & _ & _).
Qed.

(** ** Gathering from flattened tensors *)

Section GatherFacts.
Context {A : Type}.
Implicit Types (flat : list A) (ix : list nat) (t : tensor A).

Lemma gather_lookup flat ix l :
  gather flat ix = Ok l ->
  length l = length ix /\
  forall j i, ix !! j = Some i -> i < length flat /\ l !! j = flat !! i.
Proof.
  unfold gather. revert l. induction ix as [|i0 ix IH]; intros l; cbn.
  - intros [= <-]. split; [done|]. intros j i Hj. by rewrite lookup_nil in Hj.
  - destruct (flat !! i0) as [x|] eqn:Hx; cbn; [|done].
    destruct (mapM _ ix) as [l'|] eqn:Hl'; cbn; [|done].
    intros [= <-]. destruct (IH l' eq_refl) as (Hlen & Hall).
    split; [cbn; by rewrite Hlen|].
    intros [|j] i Hj; cbn in *.
    + injection Hj as ->. split; [by eapply lookup_lt_Some | done].
    + by apply Hall.
Qed.

Lemma gather_ok flat ix :
  Forall (fun i => i < length flat) ix -> exists l, gather flat ix = Ok l.
Proof.
  unfold gather. induction 1 as [|i ix Hi _ (l & IH)]; cbn; [by eexists|].
  destruct (lookup_lt_is_Some_2 flat i Hi) as [x ->]. cbn. rewrite IH. cbn.
  by eexists.
Qed.

(** Flattened index [i] of rows of [n] entries is entry [i mod n] of row
    [i / n]. *)
Lemma concat_lookup_uniform (n : nat) (rs : list (list A)) (i : nat) :
  Forall (fun r => length r = n) rs -> i < length rs * n ->
  concat rs !! i = rs !! (i / n) ≫= fun r => r !! (i mod n).
Proof.
  intros Hall. revert i. induction Hall as [|r rs Hr _ IH]; intros i Hi; cbn in *; [lia|].
  assert (n <> 0) as Hn by lia.
  destruct (decide (i < n)) as [Hlt|Hge].
  - rewrite lookup_app_l by lia.
    rewrite Nat.div_small, Nat.mod_small by done. done.
  - rewrite lookup_app_r by lia. rewrite Hr, IH by lia.
    assert (i / n = S ((i - n) / n)) as ->.
    { replace i with ((i - n) + 1 * n) at 1 by lia.
      rewrite Nat.div_add by done. lia. }
    assert (i mod n = (i - n) mod n) as ->.
    { replace i with ((i - n) + 1 * n) at 1 by lia.
      by rewrite Nat.Div0.mod_add. }
    done.
Qed.

Lemma length_concat_shaped (n : nat) (rs : list (list A)) :
  Forall (fun r => length r = n) rs -> length (concat rs) = length rs * n.
Proof.
  induction 1 as [|r rs Hr _ IH]; cbn; [done|]. rewrite length_app, IH, Hr. lia.
Qed.

Lemma drop_last_shaped k n t : shaped (k + 1) n t -> shaped k n (drop_last t).
Proof.
  intros (Hn & Hk & Hall). unfold drop_last, size0. rewrite Hk.
  replace (k + 1 - 1) with k by lia. split_and!; cbn; [done| |].
  - rewrite length_take. lia.
  - by apply Forall_take.
Qed.

Lemma length_flatten k n t : shaped k n t -> length (flatten t) = k * n.
Proof. intros (_ & Hk & Hall). unfold flatten. by rewrite (length_concat_shaped n), Hk. Qed.

Lemma flatten_lookup k n t i :
  shaped k n t -> i < k * n -> flatten t !! i = transition_entry t i.
Proof.
  intros (Hn & Hk & Hall) Hi. unfold flatten, transition_entry. rewrite Hn.
  apply concat_lookup_uniform; [done | by rewrite Hk].
Qed.

Lemma flatten_drop_last_lookup k n t i :
  shaped (k + 1) n t -> i < k * n ->
  flatten (drop_last t) !! i = transition_entry t i.
Proof.
  intros Ht Hi. rewrite (flatten_lookup k n) by (by apply drop_last_shaped || done).
  unfold transition_entry, drop_last, size0. cbn.
  destruct Ht as (Hn & Hk & _). rewrite Hk, Hn, lookup_take.
  assert (i / n < k) by (apply Nat.Div0.div_lt_upper_bound; lia).
  rewrite decide_True by lia. done.
Qed.
End GatherFacts.

Lemma yield_each_elem {I A : Type} (f : I -> result A) (l : list I) (a : A) :
  a ∈ yielded (yield_each f l) -> exists i, i ∈ l /\ f i = Ok a.
Proof.
  induction l as [|i l IH]; cbn.
  - intros Ha. by apply elem_of_nil in Ha.
  - destruct (f i) as [a'|e] eqn:Hf; cbn.
    + intros [->|Ha]%elem_of_cons.
      * exists i. split; [by left | done].
      * destruct (IH Ha) as (i' & Hi' & Hfi'). exists i'. split; [by right | done].
    + intros Ha. by apply elem_of_nil in Ha.
Qed.

Lemma yield_each_ok {I A : Type} (f : I -> result A) (l : list I) :
  Forall (fun i => exists a, f i = Ok a) l ->
  raised (yield_each f l) = None /\
  Forall2 (fun i a => f i = Ok a) l (yielded (yield_each f l)).
Proof.
  induction 1 as [|i l (a & Ha) _ (IH1 & IH2)]; cbn; [by split|].
  rewrite Ha. cbn. split; [done|]. by constructor.
Qed.

(** ** [feed_forward_generator] *)

Section FeedForwardFacts.
Context {Obs Hid Act R : Type} `{Arith R}.
#[local] Abbreviation storage := (RolloutStorage Obs Hid Act R).
Implicit Types (s : storage) (ix : list nat) (mb : minibatch Obs Hid Act R).

Lemma feed_forward_sample_ok T N s adv ix :
  well_shaped T N s -> (forall a, adv = Some a -> shaped T N a) ->
  Forall (fun i => i < T * N) ix ->
  exists mb, feed_forward_sample s adv ix = Ok mb.
Proof.
  intros Hs Hadv Hix. unfold feed_forward_sample. destruct Hs.
  destruct (gather_ok (flatten (drop_last (obs s))) ix) as (l1 & ->);
    [by rewrite (length_flatten T N) by by apply drop_last_shaped|].
  destruct (gather_ok (flatten (drop_last (recurrent_hidden_states s))) ix) as (l2 & ->);
    [by rewrite (length_flatten T N) by by apply drop_last_shaped|].
  destruct (gather_ok (flatten (actions s)) ix) as (l3 & ->);
    [by rewrite (length_flatten T N)|].
  destruct (gather_ok (flatten (drop_last (value_preds s))) ix) as (l4 & ->);
    [by rewrite (length_flatten T N) by by apply drop_last_shaped|].
  destruct (gather_ok (flatten (drop_last (returns s))) ix) as (l5 & ->);
    [by rewrite (length_flatten T N) by by apply drop_last_shaped|].
  destruct (gather_ok (flatten (drop_last (done_masks s))) ix) as (l6 & ->);
    [by rewrite (length_flatten T N) by by apply drop_last_shaped|].
  destruct (gather_ok (flatten (action_log_probs s)) ix) as (l7 & ->);
    [by rewrite (length_flatten T N)|].
  cbn. destruct adv as [a|]; cbn; [|by eexists].
  destruct (gather_ok (flatten a) ix) as (l8 & ->);
    [by rewrite (length_flatten T N) by by apply Hadv|].
  cbn. by eexists.
Qed.

Lemma feed_forward_sample_spec T N s adv ix mb :
  well_shaped T N s -> feed_forward_sample s adv ix = Ok mb ->
  batch_length (length ix) mb /\
  forall j i, ix !! j = Some i ->
    i < T * N /\
    obs_batch mb !! j = transition_entry (obs s) i /\
    recurrent_hidden_states_batch mb !! j =
      transition_entry (recurrent_hidden_states s) i /\
    actions_batch mb !! j = transition_entry (actions s) i /\
    value_preds_batch mb !! j = transition_entry (value_preds s) i /\
    return_batch mb !! j = transition_entry (returns s) i /\
    masks_batch mb !! j = transition_entry (done_masks s) i /\
    old_action_log_probs_batch mb !! j = transition_entry (action_log_probs s) i.
Proof.
  intros Hs. unfold feed_forward_sample.
  destruct (gather (flatten (drop_last (obs s))) ix) as [l1|] eqn:H1;
    cbn [mbind result_bind]; [|done].
  destruct (gather (flatten (drop_last (recurrent_hidden_states s))) ix)
    as [l2|] eqn:H2; cbn [mbind result_bind]; [|done].
  destruct (gather (flatten (actions s)) ix) as [l3|] eqn:H3;
    cbn [mbind result_bind]; [|done].
  destruct (gather (flatten (drop_last (value_preds s))) ix) as [l4|] eqn:H4;
    cbn [mbind result_bind]; [|done].
  destruct (gather (flatten (drop_last (returns s))) ix) as [l5|] eqn:H5;
    cbn [mbind result_bind]; [|done].
  destruct (gather (flatten (drop_last (done_masks s))) ix) as [l6|] eqn:H6;
    cbn [mbind result_bind]; [|done].
  destruct (gather (flatten (action_log_probs s)) ix) as [l7|] eqn:H7;
    cbn [mbind result_bind]; [|done].
  intros Hmb.
  apply gather_lookup in H1 as (L1 & E1), H2 as (L2 & E2), H3 as (L3 & E3),
    H4 as (L4 & E4), H5 as (L5 & E5), H6 as (L6 & E6), H7 as (L7 & E7).
  assert (exists adv', mb = mkBatch l1 l2 l3 l4 l5 l6 l7 adv' /\
                       forall a, adv' = Some a -> length a = length ix)
    as (adv' & -> & Hadv').
  { destruct adv as [a|]; cbn in Hmb.
    - destruct (gather (flatten a) ix) as [l8|] eqn:H8; [|done]. cbn in Hmb.
      injection Hmb as <-. eexists. split; [done|].
      intros a' [= <-]. by apply gather_lookup in H8 as (L8 & _).
    - injection Hmb as <-. eexists. split; [done|]. done. }
  destruct Hs. split; [by repeat split|].
  intros j i Hj. cbn.
  destruct (E1 j i Hj) as (B1 & ->), (E2 j i Hj) as (_ & ->), (E3 j i Hj) as (_ & ->),
    (E4 j i Hj) as (_ & ->), (E5 j i Hj) as (_ & ->), (E6 j i Hj) as (_ & ->),
    (E7 j i Hj) as (_ & ->).
  rewrite (length_flatten T N) in B1 by by apply drop_last_shaped.
  split; [done|].
  rewrite !(flatten_drop_last_lookup T N), !(flatten_lookup T N) by done.
  done.
Qed.

Lemma feed_forward_batches_spec T N s (b : Z) perm :
  well_shaped T N s -> perm ≡ₚ seq 0 (T * N) -> (1 <= b)%Z ->
  Z.of_nat (length (feed_forward_batches s b perm)) = (Z.of_nat (T * N) / b)%Z /\
  Forall (fun ix => length ix = Z.to_nat b) (feed_forward_batches s b perm) /\
  NoDup (concat (feed_forward_batches s b perm)) /\
  Forall (fun i => i < T * N) (concat (feed_forward_batches s b perm)) /\
  exists rest, perm = concat (feed_forward_batches s b perm) ++ rest /\
               length rest < Z.to_nat b.
Proof.
  intros Hs Hperm Hb. unfold feed_forward_batches, size0.
  destruct (ws_rewards _ _ _ Hs) as (-> & -> & _).
  replace (N * T) with (T * N) by lia.
  pose proof (permutation_range_bound _ _ Hperm) as Hbound.
  rewrite subset_random_sampler_range by done.
  assert (NoDup perm) as Hnd by (rewrite Hperm; apply NoDup_seq).
  destruct (batch_sampler_spec (Z.to_nat b) perm ltac:(lia) Hnd)
    as (Hlen & Hall & Hnd' & rest & Hrest & Hshort).
  split_and!; [|done|done| |by exists rest].
  - rewrite Hlen, (Permutation_length Hperm), length_seq, Nat2Z.inj_div.
    rewrite Z2Nat.id by lia. done.
  - rewrite Hrest in Hbound. by apply Forall_app in Hbound as (? & _).
Qed.
(** What one consumption of the generator yields, whichever way the
    minibatch size is given. *)
Lemma feed_forward_generator_spec T N s adv nm mbs (b : Z) perm :
  well_shaped T N s -> (forall a, adv = Some a -> shaped T N a) ->
  perm ≡ₚ seq 0 (T * N) ->
  feed_forward_minibatch_size s nm mbs = Ok b -> (1 <= b)%Z ->
  let tr := feed_forward_generator s adv nm mbs perm in
  let batches := feed_forward_batches s b perm in
  raised tr = None /\
  Forall2 (fun ix mb => feed_forward_sample s adv ix = Ok mb) batches (yielded tr) /\
  Z.of_nat (length (yielded tr)) = (Z.of_nat (T * N) / b)%Z /\
  Forall (fun ix => length ix = Z.to_nat b) batches /\
  Forall (batch_length (Z.to_nat b)) (yielded tr) /\
  NoDup (concat batches) /\
  Forall (fun i => i < T * N) (concat batches) /\
  exists rest, perm = concat batches ++ rest /\ length rest < Z.to_nat b.
Proof.
  intros Hs Hadv Hperm Hsize Hb tr batches.
  destruct (feed_forward_batches_spec T N s b perm Hs Hperm ltac:(lia))
    as (Hlen & Hall & Hnd & Hbound & Hrest).
  fold batches in Hlen, Hall, Hnd, Hbound, Hrest.
  assert (tr = yield_each (feed_forward_sample s adv) batches) as Htr.
  { subst tr. unfold feed_forward_generator. rewrite Hsize.
    destruct (Z.leb_spec b 0) as [Hle|_]; [lia | done]. }
  assert (Forall (fun ix => exists mb, feed_forward_sample s adv ix = Ok mb) batches)
    as Hok.
  { apply Forall_forall. intros ix Hix.
    apply (feed_forward_sample_ok T N); [done | done |].
    apply Forall_forall. intros i Hi.
    apply (proj1 (Forall_forall _ _) Hbound).
    apply list_elem_of_In, in_concat. exists ix.
    split; by apply list_elem_of_In. }
  destruct (yield_each_ok _ _ Hok) as (Hraised & Hyield).
  rewrite <- Htr in Hraised, Hyield.
  split_and!; try done.
  - by rewrite <- (Forall2_length _ _ _ Hyield).
  - clear -Hs Hall Hyield. induction Hyield as [|ix mb bs mbs' Hmb _ IH]; [constructor|].
    inversion Hall as [|? ? Hix Hall']; subst. constructor; [|by apply IH].
    destruct (feed_forward_sample_spec T N s adv ix mb Hs Hmb) as (Hbl & _).
    by rewrite Hix in Hbl.
Qed.

(** With the minibatch size derived from a minibatch count [nm], the
    generator yields [floor(T * N / floor(T * N / nm))] minibatches, which
    is [nm] only if [floor(T * N / nm)] divides [T * N] evenly enough. *)
Lemma feed_forward_generator_count T N s adv (nm : Z) perm :
  well_shaped T N s -> (forall a, adv = Some a -> shaped T N a) ->
  perm ≡ₚ seq 0 (T * N) -> (1 <= nm <= Z.of_nat (T * N))%Z ->
  let tr := feed_forward_generator s adv (Some nm) None perm in
  raised tr = None /\
  Z.of_nat (length (yielded tr)) = (Z.of_nat (T * N) / (Z.of_nat (T * N) / nm))%Z.
Proof.
  intros Hs Hadv Hperm Hnm.
  assert (feed_forward_minibatch_size s (Some nm) None = Ok (Z.of_nat (T * N) / nm)%Z)
    as Hsize.
  { unfold feed_forward_minibatch_size, size0.
    destruct (ws_rewards _ _ _ Hs) as (-> & -> & _).
    replace (N * T) with (T * N) by lia.
    destruct (Z.ltb_spec (Z.of_nat (T * N)) nm); [lia|].
    destruct (Z.eqb_spec nm 0); [lia | done]. }
  assert (1 <= Z.of_nat (T * N) / nm)%Z as Hb
    by (apply Z.div_le_lower_bound; lia).
  destruct (feed_forward_generator_spec T N s adv (Some nm) None _ perm
              Hs Hadv Hperm Hsize Hb) as (Hr & _ & Hlen & _).
  by split.
Qed.
End FeedForwardFacts.

Section FeedForwardClaims.
Context {Obs Hid Act R : Type} `{Arith R}.
#[local] Abbreviation storage := (RolloutStorage Obs Hid Act R).
Implicit Types (s : storage) (ix : list nat) (mb : minibatch Obs Hid Act R).


(** C5 (amended).  In every minibatch yielded by [feed_forward_generator]
    the recurrent-state entry of a sampled flattened index [i] is the
    stored recurrent state of that same transition, time step [i / N] of
    environment [i mod N], like the observation and the value prediction
    next to it. *)
Theorem feed_forward_recurrent_state_per_transition T N s adv nm mbs perm mb :
  well_shaped T N s ->
  mb ∈ yielded (feed_forward_generator s adv nm mbs perm) ->
  exists ix,
    feed_forward_sample s adv ix = Ok mb /\
    length (recurrent_hidden_states_batch mb) = length ix /\
    forall j i, ix !! j = Some i ->
      i < T * N /\
      recurrent_hidden_states_batch mb !! j =
        rows (recurrent_hidden_states s) !! (i / N) ≫= (fun r => r !! (i mod N)) /\
      obs_batch mb !! j = rows (obs s) !! (i / N) ≫= (fun r => r !! (i mod N)) /\
      value_preds_batch mb !! j =
        rows (value_preds s) !! (i / N) ≫= (fun r => r !! (i mod N)).
Proof.
  intros Hs. unfold feed_forward_generator.
  destruct (feed_forward_minibatch_size s nm mbs) as [b|e]; cbn;
    [|intros Hin; by apply elem_of_nil in Hin].
  destruct (b <=? 0)%Z; cbn; [intros Hin; by apply elem_of_nil in Hin|].
  intros Hin. apply yield_each_elem in Hin as (ix & _ & Hmb).
  exists ix. split; [done|].
  destruct (feed_forward_sample_spec T N s adv ix mb Hs Hmb) as (Hbl & Hent).
  split; [apply Hbl|].
  intros j i Hj. destruct (Hent j i Hj) as (Hi & Ho & Hh & _ & Hv & _).
  unfold transition_entry in Ho, Hh, Hv.
  rewrite (proj1 (ws_obs _ _ _ Hs)) in Ho.
  rewrite (proj1 (ws_hid _ _ _ Hs)) in Hh.
  rewrite (proj1 (ws_value_preds _ _ _ Hs)) in Hv.
  done.
Qed.
End FeedForwardClaims.

Lemma numbered_buffer_3x2_shaped : well_shaped 3 2 (Examples.numbered_buffer 3 2).
Proof. constructor; cbn; repeat split; repeat constructor. Defined.

Lemma example_draw : [3; 1; 5; 0; 2; 4] ≡ₚ seq 0 (3 * 2).
Proof.
  apply NoDup_Permutation.
  - repeat (constructor; [rewrite list_elem_of_In; cbn; lia|]). constructor.
  - apply NoDup_seq.
  - intros x. rewrite !list_elem_of_In. cbn. lia.
Defined.

Example feed_forward_generator_example :
  let tr := feed_forward_generator (Examples.numbered_buffer 3 2) None None
              (Some 4%Z) [3; 1; 5; 0; 2; 4] in
  feed_forward_batches (Examples.numbered_buffer 3 2) 4 [3; 1; 5; 0; 2; 4]
    = [[3; 1; 5; 0]] /\
  raised tr = None /\
  map recurrent_hidden_states_batch (yielded tr) = [[1; 0; 2; 0]]%Z.
Proof. repeat split. Qed.


Lemma feed_forward_recurrent_state_per_transition_witness :
  exists ix,
    feed_forward_sample (Examples.numbered_buffer 3 2) None ix
      = Ok (mkBatch [0; 0; 0; 0] [1; 0; 2; 0] [0; 0; 0; 0] [0; 0; 0; 0]
              [0; 0; 0; 0] [1; 1; 1; 1] [0; 0; 0; 0] None)%Z /\
    length [1; 0; 2; 0]%Z = length ix.
Proof.
  destruct (feed_forward_recurrent_state_per_transition 3 2
              (Examples.numbered_buffer 3 2) None None (Some 4%Z) [3; 1; 5; 0; 2; 4]
              (mkBatch [0; 0; 0; 0] [1; 0; 2; 0] [0; 0; 0; 0] [0; 0; 0; 0]
                 [0; 0; 0; 0] [1; 1; 1; 1] [0; 0; 0; 0] None)%Z
              numbered_buffer_3x2_shaped)
    as (ix & Hix & Hlen & _).
  - vm_compute. apply list_elem_of_In. left. reflexivity.
  - exists ix. split; [exact Hix | exact Hlen].
Defined.

(** C5 as stated fails: the minibatch of the flattened indices 3, 1, 5, 0 of
    a buffer with two environments holds the recurrent states of the time
    steps 1, 0, 2, 0, while the first recurrent slot holds the states of
    step 0 only. *)
Lemma feed_forward_recurrent_state_not_first_slot :
  exists mb,
    yielded (feed_forward_generator (Examples.numbered_buffer 3 2) None None
               (Some 4%Z) [3; 1; 5; 0; 2; 4]) = [mb] /\
    feed_forward_batches (Examples.numbered_buffer 3 2) 4 [3; 1; 5; 0; 2; 4]
      = [[3; 1; 5; 0]] /\
    recurrent_hidden_states_batch mb !! 0 = Some 1%Z /\
    first_slot_entry (recurrent_hidden_states (Examples.numbered_buffer 3 2)) 3
      = Some 0%Z /\
    recurrent_hidden_states_batch mb !! 0
      <> first_slot_entry (recurrent_hidden_states (Examples.numbered_buffer 3 2)) 3.
Proof.
  eexists. split; [vm_compute; reflexivity|]. split; [reflexivity|].
  split; [reflexivity|]. split; [reflexivity|]. vm_compute. intros Heq. discriminate Heq.
Qed.

(** ** [recurrent_generator] *)

(** C4 (amended).  [recurrent_generator] checks that the number of
    environments is at least [num_minibatches]: whenever it is smaller, the
    generator ends with an assertion error before it yields any
    minibatch. *)
Theorem recurrent_generator_requires_enough_envs {Obs Hid Act R : Type} `{Arith R}
    (s : RolloutStorage Obs Hid Act R) adv (num_minibatches : Z) perm :
  (Z.of_nat (size1 (rewards s)) < num_minibatches)%Z ->
  recurrent_generator s adv num_minibatches perm = mkTrace [] (Some AssertionError).
Proof.
  intros Hlt. unfold recurrent_generator.
  destruct (Z.ltb_spec (Z.of_nat (size1 (rewards s))) num_minibatches) as [_|Hge];
    [reflexivity | lia].
Qed.

Lemma recurrent_generator_requires_enough_envs_witness :
  recurrent_generator (Examples.numbered_buffer 3 2) (Some (full 3 2 0%Z)) 3 [1; 0]
  = mkTrace [] (Some AssertionError).
Proof.
  apply (recurrent_generator_requires_enough_envs (Examples.numbered_buffer 3 2)).
  cbn. lia.
Defined.

(** C4 as stated fails: six environments are not divisible by four
    minibatches, yet the generator ends without any exception, after six
    minibatches of one environment each. *)
Lemma recurrent_generator_accepts_indivisible :
  let tr := recurrent_generator (Examples.numbered_buffer 1 6) (Some (full 1 6 0%Z))
              4 (seq 0 6) in
  (4 <= 6)%Z /\ (6 mod 4 <> 0)%Z /\ raised tr = None /\ length (yielded tr) = 6.
Proof. vm_compute. repeat split; intros Heq; discriminate Heq. Qed.

(** Five environments and two minibatches: two minibatches are yielded
    before the third group runs past the end of the permutation. *)
Example recurrent_generator_indivisible_late_failure :
  let tr := recurrent_generator (Examples.numbered_buffer 1 5) (Some (full 1 5 0%Z))
              2 (seq 0 5) in
  raised tr = Some IndexError /\ length (yielded tr) = 2.
Proof. vm_compute. split; reflexivity. Qed.

(** Four environments and two minibatches (section 8 of the specification):
    two minibatches, each with two whole trajectories in step order. *)
Example recurrent_generator_example :
  let tr := recurrent_generator (Examples.numbered_buffer 3 4) (Some (full 3 4 0%Z))
              2 [2; 0; 3; 1] in
  raised tr = None /\
  map recurrent_hidden_states_batch (yielded tr) = [[0; 0]; [0; 0]]%Z /\
  map (fun mb => length (obs_batch mb)) (yielded tr) = [6; 6].
Proof. vm_compute. repeat split. Qed.

(** ** The PPO update engine *)

(** The canonical rationals satisfy the laws of exact arithmetic. *)
Lemma Qc_exact : ExactArith Qc.
Proof.
  split.
  - exact Qcrt.
  - intros x. cbn. unfold Qcdiv. ring.
  - intros x Hx. cbn. unfold Qcdiv. by apply Qcmult_inv_r.
  - reflexivity.
  - intros z Hz Heq. cbn in Heq. apply Q2Qc_eq_iff in Heq.
    unfold Qeq in Heq. cbn in Heq. lia.
Qed.

(** So do the integers, with their floor division. *)
Lemma Z_exact : ExactArith Z.
Proof.
  split.
  - exact InitialRing.Zth.
  - intros x. apply Zdiv_0_l.
  - intros x Hx. by apply Z.div_same.
  - reflexivity.
  - intros z Hz. exact Hz.
Qed.

Lemma mapM_ok_map {A B : Type} (f : A -> result B) (h : A -> B) (l : list A) :
  (forall x, f x = Ok (h x)) -> mapM f l = Ok (map h l).
Proof.
  intros Hf. induction l as [|x l IH]; cbn; [done|]. by rewrite Hf, IH.
Qed.

Section ScheduleClaims.
Context {R : Type} `{Arith R}.
Implicit Types (self : PPO R) (g : param_group R).

(** What one iteration of the loop makes of a parameter group. *)
Lemma schedule_group_ok self current_epoch total_epochs g :
  total_epochs <> 0%Z ->
  schedule_group self current_epoch total_epochs g =
  Ok (if String.eqb (pg_name g) OPT_ACTOR_PARAMS
      then mkGroup (pg_name g)
             (rsub (initial_actor_lr self)
                (rmul (initial_actor_lr self)
                   (rdiv (of_Z current_epoch) (of_Z total_epochs))))
             (pg_eps g)
      else g).
Proof.
  intros Hte. unfold schedule_group.
  destruct (String.eqb (pg_name g) OPT_ACTOR_PARAMS); cbn; [|done].
  destruct (Z.eqb_spec total_epochs 0); [lia | done].
Qed.

(** C9.  For every [current_epoch] and every non-zero [total_epochs],
    [update_linear_schedule] succeeds and touches nothing but the learning
    rates of the parameter groups named for the actor: such a group gets
    [initial_actor_lr - initial_actor_lr * (current_epoch / total_epochs)],
    which in exact arithmetic is
    [initial_actor_lr * (1 - current_epoch / total_epochs)], the initial
    value at epoch 0 and zero at epoch [total_epochs]; every other group,
    the critic's among them, is left as it was. *)
Theorem update_linear_schedule_decays_actor self current_epoch total_epochs :
  total_epochs <> 0%Z ->
  exists self',
    update_linear_schedule self current_epoch total_epochs = Ok self' /\
    self' = with_param_groups self (param_groups self') /\
    length (param_groups self') = length (param_groups self) /\
    forall k g, param_groups self !! k = Some g ->
      exists g',
        param_groups self' !! k = Some g' /\
        pg_name g' = pg_name g /\ pg_eps g' = pg_eps g /\
        (pg_name g = OPT_ACTOR_PARAMS ->
           pg_lr g' = rsub (initial_actor_lr self)
                        (rmul (initial_actor_lr self)
                           (rdiv (of_Z current_epoch) (of_Z total_epochs))) /\
           (ExactArith R ->
              pg_lr g' = rmul (initial_actor_lr self)
                           (rsub r1 (rdiv (of_Z current_epoch) (of_Z total_epochs))) /\
              (current_epoch = 0%Z -> pg_lr g' = initial_actor_lr self) /\
              (current_epoch = total_epochs -> pg_lr g' = r0))) /\
        (pg_name g <> OPT_ACTOR_PARAMS -> g' = g) /\
        (pg_name g = OPT_CRITIC_PARAMS -> pg_lr g' = pg_lr g).
Proof.
  intros Hte. unfold update_linear_schedule.
  rewrite (mapM_ok_map _ _ _ (fun g => schedule_group_ok self current_epoch total_epochs g Hte)).
  cbn [mbind result_bind]. eexists. split; [reflexivity|].
  cbn [param_groups with_param_groups]. split; [reflexivity|].
  split; [by rewrite length_map|].
  intros k g Hg.
  eexists. split.
  { change (map ?h ?l) with (h <$> l). rewrite list_lookup_fmap, Hg. reflexivity. }
  destruct (String.eqb_spec (pg_name g) OPT_ACTOR_PARAMS) as [Hactor|Hother]; cbn.
  - split_and!; try done.
    + intros _. split; [done|]. intros Hexact. split_and!.
      * apply linear_decay.
      * intros ->. rewrite of_Z_0, rdiv_0_l. apply linear_decay_start.
      * intros ->. rewrite rdiv_same by (by apply of_Z_nonzero).
        apply linear_decay_end.
    + intros Hcritic. rewrite Hactor in Hcritic. discriminate Hcritic.
  - split_and!; done.
Qed.
End ScheduleClaims.

Lemma update_linear_schedule_decays_actor_witness :
  exists self',
    update_linear_schedule (ppo_init (Q2Qc 0.2) 4 4 (Q2Qc 0.01) (Q2Qc 0.5)
                              (Q2Qc 0.0003) (Q2Qc 0.001) None None true) 5 10
    = Ok self' /\
    length (param_groups self') = 2.
Proof.
  destruct (update_linear_schedule_decays_actor
              (ppo_init (Q2Qc 0.2) 4 4 (Q2Qc 0.01) (Q2Qc 0.5)
                 (Q2Qc 0.0003) (Q2Qc 0.001) None None true) 5 10)
    as (self' & Hself' & _ & Hlen & _).
  - lia.
  - exists self'. split; [exact Hself' | exact Hlen].
Defined.

(** Halfway through the schedule the actor's rate is half its initial
    value; the critic's rate is the one it was built with. *)
Example update_linear_schedule_example :
  match update_linear_schedule (ppo_init (Q2Qc 0.2) 4 4 (Q2Qc 0.01) (Q2Qc 0.5)
                                  (Q2Qc 0.0003) (Q2Qc 0.001) None None true) 5 10 with
  | Ok self' =>
      map (fun g => (pg_name g, this (pg_lr g))) (param_groups self')
      = [(OPT_ACTOR_PARAMS, 3 # 20000); (OPT_CRITIC_PARAMS, 1 # 1000)]%Q
  | Raise _ => False
  end.
Proof. vm_compute. reflexivity. Qed.

Example update_linear_schedule_zero_total :
  update_linear_schedule (ppo_init 1 4 4 1 1 3 1 None None true)%Z 5 0
  = Raise ZeroDivisionError.
Proof. reflexivity. Qed.

Section UpdateFacts.
Context {Obs Hid Act R Params : Type} `{Arith R} `{TorchOps R}.

End UpdateFacts.

(** C6, at a buffer of seven steps and one environment with one epoch and
    four minibatches, for a PPO built with [eps = 1e-5] and
    [max_grad_norm = 0.5], so that every minibatch update has its optimizer
    epsilon and its clipping norm.  The minibatch size is [7 // 4 = 1], so
    the generator yields seven minibatches and [update] performs seven
    minibatch updates; the three sums over these seven updates are divided
    by [num_epochs * num_minibatches = 4]. *)
Theorem update_divides_by_configured_count {R : Type} `{Arith R} `{TorchOps R} :
  max_grad_norm Examples.ppo_1_epoch_4_minibatches = Some r_half /\
  map pg_eps (param_groups Examples.ppo_1_epoch_4_minibatches)
    = [Some r_eps; Some r_eps] /\
  exists log,
    update_log Examples.ppo_1_epoch_4_minibatches Examples.constant_policy
      (Examples.zero_buffer 7 1) (fun _ => seq 0 7) tt = Ok (tt, log) /\
    length log = 7 /\
    update Examples.ppo_1_epoch_4_minibatches Examples.constant_policy
      (Examples.zero_buffer 7 1) (fun _ => seq 0 7) tt
    = Ok (tt, (rdiv (accumulate log).1.1 (of_Z 4),
               rdiv (accumulate log).1.2 (of_Z 4),
               rdiv (accumulate log).2 (of_Z 4))) /\
    (accumulate log).2 =
      radd (radd (radd (radd (radd (radd (radd r0 r1) r1) r1) r1) r1) r1) r1.
Proof.
  split; [reflexivity|]. split; [reflexivity|].
  eexists. split; [vm_compute; reflexivity|].
  split; [reflexivity|]. split; reflexivity.
Qed.

(** * Further properties of the rollout storage *)

Section LifecycleExtras.
Context {Obs Hid Act R : Type} `{Arith R}.
#[local] Abbreviation storage := (RolloutStorage Obs Hid Act R).
Implicit Types (s : storage) (d : transition Obs Hid Act R).

Lemma stored_transition_eta d :
  mkTransition (t_obs d) (t_hid d) (t_actions d) (t_action_log_probs d)
    (t_value_preds d) (t_rewards d) (t_done_masks d) (t_time_limit_masks d) = d.
Proof. by destruct d. Qed.

(** The buffer [after_update] returns, written out. *)
Lemma after_update_explicit T N s :
  well_shaped T N s ->
  exists o h dm tl,
    rows (obs s) !! T = Some o /\
    rows (recurrent_hidden_states s) !! T = Some h /\
    rows (done_masks s) !! T = Some dm /\
    rows (time_limit_masks s) !! T = Some tl /\
    after_update s =
    Ok (mkStorage
          (Tensor N (<[0 := o]> (rows (obs s))))
          (Tensor N (<[0 := h]> (rows (recurrent_hidden_states s))))
          (rewards s) (value_preds s) (returns s) (action_log_probs s) (actions s)
          (Tensor N (<[0 := dm]> (rows (done_masks s))))
          (Tensor N (<[0 := tl]> (rows (time_limit_masks s))))
          (rollout_steps s) (step s)).
Proof.
  intros Hs. destruct Hs. unfold after_update.
  destruct (get_last_shaped T N (obs s)) as (o & -> & Ho & Hlo); [done|].
  cbn [mbind result_bind].
  rewrite (set_row_shaped (T + 1) N (obs s)) by (done || lia).
  cbn [mbind result_bind].
  destruct (get_last_shaped T N (recurrent_hidden_states s)) as (h & -> & Hh & Hlh);
    [done|].
  cbn [mbind result_bind].
  rewrite (set_row_shaped (T + 1) N (recurrent_hidden_states s)) by (done || lia).
  cbn [mbind result_bind].
  destruct (get_last_shaped T N (done_masks s)) as (dm & -> & Hdm & Hldm); [done|].
  cbn [mbind result_bind].
  rewrite (set_row_shaped (T + 1) N (done_masks s)) by (done || lia).
  cbn [mbind result_bind].
  destruct (get_last_shaped T N (time_limit_masks s)) as (tl & -> & Htl & Hltl); [done|].
  cbn [mbind result_bind].
  rewrite (set_row_shaped (T + 1) N (time_limit_masks s)) by (done || lia).
  cbn [mbind result_bind].
  by exists o, h, dm, tl.
Qed.

(** X1.  [RolloutStorage.__init__] fails with [NotImplementedError] for an
    action space that is neither discrete nor a box, and otherwise builds a
    buffer of [T + 1] (state-like arrays, value predictions, returns) and
    [T] (rewards, actions, log-probabilities) slots of [N] entries each, all
    zero but for the two masks, which are all one, with the cursor at 0. *)
Theorem init_allocates (obs0 : Obs) (hid0 : Hid) (act0 : Act) T N space :
  match init obs0 hid0 act0 T N space with
  | Raise e => space = OtherSpace /\ e = NotImplementedError
  | Ok s =>
      space <> OtherSpace /\ well_shaped T N s /\ step s = 0 /\
      (forall t e, t < T + 1 -> e < N ->
         rows (obs s) !! t ≫= (fun r => r !! e) = Some obs0 /\
         rows (recurrent_hidden_states s) !! t ≫= (fun r => r !! e) = Some hid0 /\
         ent (value_preds s) t e = r0 /\ ent (returns s) t e = r0 /\
         ent (done_masks s) t e = r1 /\ ent (time_limit_masks s) t e = r1) /\
      (forall t e, t < T -> e < N ->
         rows (actions s) !! t ≫= (fun r => r !! e) = Some act0 /\
         ent (rewards s) t e = r0 /\ ent (action_log_probs s) t e = r0)
  end.
Proof.
  assert (forall (A : Type) k n (x : A) t e, t < k -> e < n ->
            rows (full k n x) !! t ≫= (fun r => r !! e) = Some x) as Hfull.
  { intros A k n x t e Ht He. cbn. rewrite lookup_replicate_2 by done. cbn.
    by apply lookup_replicate_2. }
  assert (forall k n (x : R) t e, t < k -> e < n -> ent (full k n x) t e = x) as Hent.
  { intros k n x t e Ht He. rewrite (ent_lookup _ t (replicate n x)).
    - by apply lookup_total_replicate.
    - cbn. by apply lookup_replicate_2. }
  unfold init. destruct space; cbv zeta; cbn [mbind result_bind]; [| |done].
  all: split; [done|]; split;
    [constructor; cbn; first [by apply shaped_full | done]|]; split; [done|].
  all: cbn [obs recurrent_hidden_states rewards value_preds returns
              action_log_probs actions done_masks time_limit_masks].
  all: split; intros t e Ht He; rewrite ?Hfull, ?Hent by done; done.
Qed.

(** X2.  On a well-shaped buffer [after_update] succeeds and copies slot
    [T] of the observations, recurrent states, done masks and time-limit
    masks into their slot 0.  Every other slot, the five other arrays and
    the cursor stay as they are; so does every stored step. *)
Theorem after_update_rolls_over T N s :
  well_shaped T N s ->
  exists s',
    after_update s = Ok s' /\
    well_shaped T N s' /\
    rows (obs s') !! 0 = rows (obs s) !! T /\
    rows (recurrent_hidden_states s') !! 0 = rows (recurrent_hidden_states s) !! T /\
    rows (done_masks s') !! 0 = rows (done_masks s) !! T /\
    rows (time_limit_masks s') !! 0 = rows (time_limit_masks s) !! T /\
    (forall j, j <> 0 ->
       rows (obs s') !! j = rows (obs s) !! j /\
       rows (recurrent_hidden_states s') !! j = rows (recurrent_hidden_states s) !! j /\
       rows (done_masks s') !! j = rows (done_masks s) !! j /\
       rows (time_limit_masks s') !! j = rows (time_limit_masks s) !! j) /\
    rewards s' = rewards s /\ value_preds s' = value_preds s /\
    returns s' = returns s /\ action_log_probs s' = action_log_probs s /\
    actions s' = actions s /\ step s' = step s /\
    forall t, stored_transition s' t = stored_transition s t.
Proof.
  intros Hs.
  destruct (after_update_spec T N s Hs) as (s' & Hs' & Hws & _).
  destruct (after_update_explicit T N s Hs)
    as (o & h & dm & tl & Ho & Hh & Hdm & Htl & Heq).
  rewrite Heq in Hs'. injection Hs' as Hs'.
  exists s'. split; [by rewrite Heq, Hs'|]. split; [done|]. subst s'.
  cbn [obs recurrent_hidden_states rewards value_preds returns action_log_probs
         actions done_masks time_limit_masks step rows].
  rewrite Ho, Hh, Hdm, Htl.
  destruct Hs as [(_ & Lo & _) (_ & Lh & _) _ _ _ _ _ (_ & Ld & _) (_ & Lt & _) _].
  rewrite !list_lookup_insert_eq by lia. split_and!; try done.
  - intros j Hj. rewrite !list_lookup_insert_ne by done. done.
  - intros t. unfold stored_transition.
    cbn [obs recurrent_hidden_states rewards value_preds returns action_log_probs
           actions done_masks time_limit_masks rows].
    rewrite !list_lookup_insert_ne by lia. done.
Qed.

(** X3.  [after_update] is idempotent: applied to its own result it gives
    that result again. *)
Theorem after_update_idempotent T N s :
  well_shaped T N s ->
  exists s', after_update s = Ok s' /\ after_update s' = Ok s'.
Proof.
  intros Hs.
  destruct (after_update_spec T N s Hs) as (s' & Hs' & Hws & _).
  destruct (after_update_explicit T N s Hs)
    as (o & h & dm & tl & Ho & Hh & Hdm & Htl & Heq).
  exists s'. split; [done|].
  rewrite Heq in Hs'. injection Hs' as Hs'.
  destruct (after_update_explicit T N s' Hws)
    as (o' & h' & dm' & tl' & Ho' & Hh' & Hdm' & Htl' & Heq').
  rewrite Heq'. subst s'.
  cbn [obs recurrent_hidden_states rewards value_preds returns action_log_probs
         actions done_masks time_limit_masks step rollout_steps rows] in *.
  destruct Hs as [(_ & Lo & _) (_ & Lh & _) _ _ _ _ _ (_ & Ld & _) (_ & Lt & _) _].
  assert (forall (A : Type) (l : list A) (x y : A),
            l !! T = Some x -> <[0 := x]> l !! T = Some y -> 0 < length l -> y = x)
    as Hsame.
  { intros A l x y Hx Hy Hl. destruct (decide (T = 0)) as [->|Hne].
    - rewrite list_lookup_insert_eq in Hy by done. by injection Hy.
    - rewrite list_lookup_insert_ne in Hy by done. congruence. }
  rewrite (Hsame _ _ _ _ Ho Ho'), (Hsame _ _ _ _ Hh Hh'),
    (Hsame _ _ _ _ Hdm Hdm'), (Hsame _ _ _ _ Htl Htl') by lia.
  rewrite !list_insert_insert_eq. done.
Qed.
End LifecycleExtras.

Section InsertExtras.
Context {Obs Hid Act R : Type} `{Arith R}.
#[local] Abbreviation storage := (RolloutStorage Obs Hid Act R).
Implicit Types (s : storage) (d : transition Obs Hid Act R).

(** One [insert] stores its arguments as step [step s] and leaves the
    other stored steps alone. *)
Lemma insert_transition_stored T N s d :
  well_shaped T N s -> step s < T -> transition_shaped N d ->
  exists s',
    insert_transition s d = Ok s' /\
    well_shaped T N s' /\
    step s' = (step s + 1) mod T /\
    stored_transition s' (step s) = Some d /\
    (forall t, t <> step s -> stored_transition s' t = stored_transition s t) /\
    rows (obs s') !! 0 = rows (obs s) !! 0 /\
    rows (recurrent_hidden_states s') !! 0 = rows (recurrent_hidden_states s) !! 0 /\
    rows (done_masks s') !! 0 = rows (done_masks s) !! 0 /\
    rows (time_limit_masks s') !! 0 = rows (time_limit_masks s) !! 0.
Proof.
  intros Hs Hst Hd.
  destruct (insert_transition_spec T N s d Hs Hst Hd)
    as (s' & Hins & Hs' & Hstep & Ho & Hh & Hdm & Htl & Ha & Hlp & Hvp & Hrw & Hrt).
  exists s'. split; [done|]. split; [done|]. split; [done|].
  destruct Hs as [(_ & Lo & _) (_ & Lh & _) (_ & Lrw & _) (_ & Lvp & _) _
                    (_ & Llp & _) (_ & La & _) (_ & Ld & _) (_ & Lt & _) _].
  unfold stored_transition. rewrite Ho, Hh, Hdm, Htl, Ha, Hlp, Hvp, Hrw. cbn [rows].
  split_and!.
  - rewrite !list_lookup_insert_eq by lia. cbn. by rewrite stored_transition_eta.
  - intros t Ht. rewrite !list_lookup_insert_ne by lia. done.
  - by rewrite list_lookup_insert_ne by lia.
  - by rewrite list_lookup_insert_ne by lia.
  - by rewrite list_lookup_insert_ne by lia.
  - by rewrite list_lookup_insert_ne by lia.
Qed.

(** A run of [insert] calls that does not pass the end of the buffer. *)
Lemma insert_all_stored T N s ds :
  well_shaped T N s -> step s + length ds <= T ->
  Forall (transition_shaped N) ds ->
  exists s',
    insert_all s ds = Ok s' /\
    well_shaped T N s' /\
    (forall j, j < length ds -> stored_transition s' (step s + j) = ds !! j) /\
    (forall t, t < step s \/ step s + length ds <= t ->
       stored_transition s' t = stored_transition s t).
Proof.
  intros Hs Hlen Hds. revert s Hs Hlen.
  induction Hds as [|d ds Hd Hds IH]; intros s Hs Hlen.
  - exists s. split; [done|]. split; [done|]. split; [|done].
    intros j Hj. cbn in Hj. lia.
  - cbn [length] in Hlen.
    destruct (insert_transition_stored T N s d Hs ltac:(lia) Hd)
      as (s1 & Hins & Hs1 & Hstep & Hnew & Hold & _).
    cbn [insert_all]. rewrite Hins. cbn [mbind result_bind].
    destruct (decide (step s + 1 = T)) as [Hend|Hmid].
    + assert (ds = []) as -> by (destruct ds; [done | cbn in Hlen; lia]).
      exists s1. split; [done|]. split; [done|]. split.
      * intros j Hj. cbn in Hj. replace j with 0 by lia.
        by rewrite Nat.add_0_r.
      * intros t Ht. apply Hold. cbn in Ht. lia.
    + rewrite Nat.mod_small in Hstep by lia.
      destruct (IH s1 Hs1 ltac:(lia)) as (s' & Hall & Hs' & Hcont & Hframe).
      exists s'. split; [done|]. split; [done|]. split.
      * intros [|j] Hj.
        -- rewrite Nat.add_0_r, Hframe by lia. done.
        -- cbn in Hj. replace (step s + S j) with (step s1 + j) by lia.
           apply Hcont. lia.
      * intros t Ht. cbn [length] in Ht. rewrite Hframe by lia. apply Hold. lia.
Qed.

(** X4.  Inserting, from cursor [c], a run of steps that fits below the end
    of the buffer stores them in order: the buffer then holds the [j]-th
    inserted step as step [c + j], with the state-like fields in slot
    [c + j + 1] and the action-like fields in slot [c + j], and every other
    stored step is what it was.  A full rollout from cursor 0 therefore
    reads back as inserted. *)
Theorem insert_all_round_trip T N s ds :
  well_shaped T N s -> step s + length ds <= T ->
  Forall (transition_shaped N) ds ->
  exists s',
    insert_all s ds = Ok s' /\
    (forall j, j < length ds -> stored_transition s' (step s + j) = ds !! j) /\
    (forall t, t < step s \/ step s + length ds <= t ->
       stored_transition s' t = stored_transition s t) /\
    (step s = 0 -> length ds = T -> forall t, t < T -> stored_transition s' t = ds !! t).
Proof.
  intros Hs Hlen Hds.
  destruct (insert_all_stored T N s ds Hs Hlen Hds) as (s' & Hall & _ & Hcont & Hframe).
  exists s'. split; [done|]. split; [done|]. split; [done|].
  intros H0 HT t Ht. rewrite <- Hcont by lia. by rewrite H0.
Qed.

(** X5.  A full rollout followed by [after_update]: both succeed, the
    cursor is back at 0, slot 0 of the observations, recurrent states, done
    masks and time-limit masks holds what the last [insert] wrote, and the
    stored steps still read back as inserted. *)
Theorem rollout_then_after_update T N s ds :
  well_shaped T N s -> step s = 0 -> length ds = T ->
  Forall (transition_shaped N) ds ->
  exists s1 s2,
    insert_all s ds = Ok s1 /\ after_update s1 = Ok s2 /\
    step s2 = 0 /\
    (forall t, t < T -> stored_transition s2 t = ds !! t) /\
    forall d, list.last ds = Some d ->
      rows (obs s2) !! 0 = Some (t_obs d) /\
      rows (recurrent_hidden_states s2) !! 0 = Some (t_hid d) /\
      rows (done_masks s2) !! 0 = Some (t_done_masks d) /\
      rows (time_limit_masks s2) !! 0 = Some (t_time_limit_masks d).
Proof.
  intros Hs H0 HT Hds.
  destruct (insert_all_stored T N s ds Hs ltac:(lia) Hds)
    as (s1 & Hall & Hs1 & Hcont & _).
  assert (step s1 = 0) as Hcur.
  { destruct T as [|T'].
    - destruct ds; [|done]. cbn in Hall. by injection Hall as <-.
    - destruct (insert_all_spec (S T') N s ds Hs ltac:(lia) Hds)
        as (s1' & Hall' & _ & _ & Hstep & _).
      rewrite Hall in Hall'. injection Hall' as <-.
      rewrite Hstep, H0, HT. cbn [Nat.add]. apply Nat.Div0.mod_same. }
  destruct (after_update_spec T N s1 Hs1) as (s2 & Hup & _ & Ho & Hh & Hdm & Htl & Hst).
  destruct (after_update_explicit T N s1 Hs1)
    as (o & h & dm & tl & _ & _ & _ & _ & Heq).
  exists s1, s2. split; [done|]. split; [done|]. split; [congruence|]. split.
  - intros t Ht. rewrite <- (Hcont t) by lia. rewrite H0. cbn [Nat.add].
    rewrite Heq in Hup. injection Hup as <-. unfold stored_transition.
    cbn [obs recurrent_hidden_states rewards value_preds returns action_log_probs
           actions done_masks time_limit_masks rows].
    rewrite !list_lookup_insert_ne by lia. done.
  - intros d Hd. rewrite last_lookup, HT in Hd.
    destruct T as [|T']; [by destruct ds|]. cbn [Init.Nat.pred] in Hd.
    pose proof (Hcont T' ltac:(lia)) as Hlast. rewrite H0, Hd in Hlast.
    cbn [Nat.add] in Hlast. unfold stored_transition in Hlast.
    replace (T' + 1) with (S T') in Hlast by lia.
    rewrite Ho, Hh, Hdm, Htl.
    destruct (rows (obs s1) !! S T') as [o1|]; [|done].
    destruct (rows (recurrent_hidden_states s1) !! S T') as [h1|]; [|done].
    cbn in Hlast.
    destruct (rows (actions s1) !! T'); [|done].
    destruct (rows (action_log_probs s1) !! T'); [|done].
    destruct (rows (value_preds s1) !! T'); [|done].
    destruct (rows (rewards s1) !! T'); [|done].
    destruct (rows (done_masks s1) !! S T') as [dm1|]; [|done].
    destruct (rows (time_limit_masks s1) !! S T') as [tl1|]; [|done].
    cbn in Hlast. injection Hlast as <-. done.
Qed.

(** X6.  A buffer of zero steps accepts no transition: whatever the
    arguments and the cursor, [insert] fails with an index error at its
    first write, before the cursor is taken modulo zero. *)
Theorem insert_zero_steps_fails N s obs_in hid_in actions_in lp_in vp_in rw_in dm_in tl_in :
  well_shaped 0 N s ->
  insert s obs_in hid_in actions_in lp_in vp_in rw_in dm_in tl_in = Raise IndexError.
Proof.
  intros Hs. unfold insert, set_row.
  destruct (ws_obs _ _ _ Hs) as (_ & Lo & _).
  rewrite (lookup_ge_None_2 (rows (obs s)) (step s + 1)) by (rewrite Lo; lia).
  done.
Qed.
End InsertExtras.

Lemma zero_step_buffer_shaped : well_shaped 0 2 (Examples.numbered_buffer 0 2).
Proof. constructor; cbn; repeat split; repeat constructor. Defined.

Lemma after_update_rolls_over_witness :
  exists s', after_update Examples.buffer_2x1 = Ok s' /\
             rows (obs s') !! 0 = rows (obs Examples.buffer_2x1) !! 2.
Proof.
  destruct (after_update_rolls_over 2 1 Examples.buffer_2x1 buffer_2x1_shaped)
    as (s' & Hs' & _ & Ho & _).
  exists s'. split; [exact Hs' | exact Ho].
Defined.

Lemma after_update_idempotent_witness :
  exists s', after_update Examples.buffer_2x1 = Ok s' /\ after_update s' = Ok s'.
Proof. exact (after_update_idempotent 2 1 Examples.buffer_2x1 buffer_2x1_shaped). Defined.

Lemma insert_all_round_trip_witness :
  exists s',
    insert_all Examples.buffer_2x1 [Examples.transition_1; MoreExamples.transition_2]
      = Ok s' /\
    stored_transition s' 1 = Some MoreExamples.transition_2.
Proof.
  destruct (insert_all_round_trip 2 1 Examples.buffer_2x1
              [Examples.transition_1; MoreExamples.transition_2] buffer_2x1_shaped)
    as (s' & Hs' & _ & _ & Hfull).
  - cbn. lia.
  - repeat constructor.
  - exists s'. split; [exact Hs'|]. apply (Hfull eq_refl eq_refl 1). lia.
Defined.

Lemma rollout_then_after_update_witness :
  exists s1 s2,
    insert_all Examples.buffer_2x1 [Examples.transition_1; MoreExamples.transition_2]
      = Ok s1 /\
    after_update s1 = Ok s2 /\ step s2 = 0.
Proof.
  destruct (rollout_then_after_update 2 1 Examples.buffer_2x1
              [Examples.transition_1; MoreExamples.transition_2] buffer_2x1_shaped
              eq_refl eq_refl)
    as (s1 & s2 & H1 & H2 & Hc & _).
  - repeat constructor.
  - exists s1, s2. split; [exact H1|]. split; [exact H2 | exact Hc].
Defined.

Lemma insert_zero_steps_fails_witness :
  insert (Examples.numbered_buffer 0 2) [1; 2]%Z [3; 4]%Z [5; 6]%Z [7; 8]%Z
    [9; 10]%Z [11; 12]%Z [1; 1]%Z [1; 1]%Z = Raise IndexError.
Proof. exact (insert_zero_steps_fails 2 _ _ _ _ _ _ _ _ _ zero_step_buffer_shaped). Defined.

Example rollout_then_after_update_example :
  (s1 ← insert_all Examples.buffer_2x1
          [Examples.transition_1; MoreExamples.transition_2];
   after_update s1) =
  Ok (mkStorage
        (Tensor 1 [[14]; [13]; [14]])
        (Tensor 1 [[24]; [23]; [24]])
        (Tensor 1 [[3]; [7]])
        (Tensor 1 [[6]; [9]; [5]])
        (Tensor 1 [[7]; [7]; [7]])
        (Tensor 1 [[4]; [8]])
        (Tensor 1 [[1]; [2]])
        (Tensor 1 [[0]; [1]; [0]])
        (Tensor 1 [[1]; [1]; [1]])
        2 0)%Z.
Proof. reflexivity. Qed.

(** * Further properties of [compute_returns] *)

Section TensorExt.
Context {R : Type} `{Arith R}.

(** Tensors of one shape with equal entries are equal. *)
Lemma tensor_ext k n (t1 t2 : tensor R) :
  shaped k n t1 -> shaped k n t2 ->
  (forall i e, i < k -> e < n -> ent t1 i e = ent t2 i e) ->
  t1 = t2.
Proof.
  intros H1 H2 He.
  assert (rows t1 = rows t2) as Hrows.
  { apply list_eq. intros i. destruct (decide (i < k)) as [Hi|Hi].
    - apply (shaped_row_ext k n); try done. intros e Hlt. by apply He.
    - rewrite !lookup_ge_None_2; [done | |].
      + rewrite (proj1 (proj2 H2)). lia.
      + rewrite (proj1 (proj2 H1)). lia. }
  destruct t1 as [n1 r1'], t2 as [n2 r2'], H1 as (Hn1 & _), H2 as (Hn2 & _).
  cbn in *. by subst.
Qed.
End TensorExt.

Section ComputeReturnsExtras.
Context {Obs Hid Act R : Type} `{Arith R}.
#[local] Abbreviation storage := (RolloutStorage Obs Hid Act R).
Implicit Types (s : storage) (nv : list R).

#[local] Abbreviation bootstrapped T N s nv :=
  (Tensor N (<[T := nv]> (rows (value_preds s)))).

Lemma bootstrapped_shaped T N s nv :
  well_shaped T N s -> length nv = N -> shaped (T + 1) N (bootstrapped T N s nv).
Proof. intros Hs Hnv. apply shaped_insert; [apply Hs | done]. Qed.

Lemma bootstrapped_below T N s nv t e :
  t < T -> ent (bootstrapped T N s nv) t e = ent (value_preds s) t e.
Proof. intros Ht. apply ent_ext. cbn. apply list_lookup_insert_ne. lia. Qed.

Lemma with_returns_fields s base rt :
  s = with_returns base rt ->
  rewards s = rewards base /\ value_preds s = value_preds base /\
  done_masks s = done_masks base /\ time_limit_masks s = time_limit_masks base.
Proof. by intros ->. Qed.

(** What all four variants have in common. *)
Lemma compute_returns_frame T N s nv use_gae gamma gae_lambda proper :
  well_shaped T N s -> length nv = N ->
  exists s',
    compute_returns s nv use_gae gamma gae_lambda proper = Ok s' /\
    well_shaped T N s' /\
    s' = with_returns
           (if use_gae then with_value_preds s (bootstrapped T N s nv) else s)
           (returns s').
Proof.
  intros Hs Hnv.
  assert (well_shaped T N (with_value_preds s (bootstrapped T N s nv))) as Hs1
    by (apply well_shaped_with_value_preds; [done | by apply bootstrapped_shaped]).
  destruct use_gae, proper.
  - pose proof (compute_returns_gae_time_limit_spec T N s nv gamma gae_lambda Hs Hnv) as Hc.
    destruct (compute_returns s _ _ _ _ _) as [s'|]; [|done].
    destruct Hc as (Hs' & Hsh & _). exists s'. split; [done|]. split; [|done].
    rewrite Hs'. by apply well_shaped_with_returns.
  - pose proof (compute_returns_gae_spec T N s nv gamma gae_lambda Hs Hnv) as Hc.
    destruct (compute_returns s _ _ _ _ _) as [s'|]; [|done].
    destruct Hc as (Hs' & Hsh & _). exists s'. split; [done|]. split; [|done].
    rewrite Hs'. by apply well_shaped_with_returns.
  - pose proof (compute_returns_return_time_limit_spec T N s nv gamma gae_lambda Hs Hnv)
      as Hc.
    destruct (compute_returns s _ _ _ _ _) as [s'|]; [|done].
    destruct Hc as (Hs' & Hsh & _). exists s'. split; [done|]. split; [|done].
    rewrite Hs'. by apply well_shaped_with_returns.
  - pose proof (compute_returns_return_spec T N s nv gamma gae_lambda Hs Hnv) as Hc.
    destruct (compute_returns s _ _ _ _ _) as [s'|]; [|done].
    destruct Hc as (Hs' & Hsh & _). exists s'. split; [done|]. split; [|done].
    rewrite Hs'. by apply well_shaped_with_returns.
Qed.

(** X7.  With [use_gae] and without [use_proper_time_limits],
    [compute_returns] stores the bootstrap value in [value_preds[T]] and runs
    the GAE recursion without any time-limit mask: [gae] starts at zero and,
    for [t] from [T-1] down to 0, [gae[t] = delta + gamma * gae_lambda *
    done_masks[t+1] * gae[t+1]] and [returns[t] = gae[t] + value_preds[t]];
    the time-limit masks are not read. *)
Theorem compute_returns_gae_plain T N s nv gamma gae_lambda :
  well_shaped T N s -> length nv = N ->
  exists s' (gae : nat -> nat -> R),
    compute_returns s nv true gamma gae_lambda false = Ok s' /\
    rows (value_preds s') !! T = Some nv /\
    s' = with_returns (with_value_preds s (bootstrapped T N s nv)) (returns s') /\
    (forall e, gae T e = r0) /\
    forall t e, t < T -> e < N ->
      let delta :=
        rsub (radd (ent (rewards s') t e)
                (rmul (rmul gamma (ent (value_preds s') (t + 1) e))
                   (ent (done_masks s') (t + 1) e)))
          (ent (value_preds s') t e) in
      gae t e =
        radd delta
          (rmul (rmul (rmul gamma gae_lambda) (ent (done_masks s') (t + 1) e))
             (gae (t + 1) e)) /\
      ent (returns s') t e = radd (gae t e) (ent (value_preds s') t e).
Proof.
  intros Hs Hnv.
  pose proof (compute_returns_gae_spec T N s nv gamma gae_lambda Hs Hnv) as Hc.
  destruct (compute_returns s nv true gamma gae_lambda false) as [s'|]; [|done].
  destruct Hc as (Hs' & Hsh & Hent & Hfr).
  set (vp' := Tensor N (<[T := nv]> (rows (value_preds s)))) in *.
  exists s', (fun t e =>
    gae_spec (rewards s) vp' (done_masks s) gamma gae_lambda T (T - t) e).
  split; [done|]. rewrite Hs'.
  cbn [value_preds rewards done_masks time_limit_masks returns with_returns
         with_value_preds].
  split.
  { subst vp'. cbn. apply list_lookup_insert_eq.
    rewrite (proj1 (proj2 (ws_value_preds _ _ _ Hs))). lia. }
  split; [done|]. split.
  { intros e. by rewrite Nat.sub_diag. }
  intros t e Ht He. cbn zeta. split; [|by apply Hent].
  replace (T - t) with (S (T - (t + 1))) by lia.
  cbn [gae_spec].
  replace (T - S (T - (t + 1))) with t by lia.
  reflexivity.
Qed.

(** X8.  Without GAE and without [use_proper_time_limits],
    [compute_returns] stores the bootstrap value in [returns[T]] and, for [t]
    from [T-1] down to 0, sets
    [returns[t] = returns[t+1] * gamma * done_masks[t+1] + reward[t]];
    nothing but [returns] changes, and neither the value predictions nor the
    time-limit masks are read. *)
Theorem compute_returns_discounted_plain T N s nv gamma gae_lambda :
  well_shaped T N s -> length nv = N ->
  exists s',
    compute_returns s nv false gamma gae_lambda false = Ok s' /\
    s' = with_returns s (returns s') /\
    rows (returns s') !! T = Some nv /\
    forall t e, t < T -> e < N ->
      ent (returns s') t e =
        radd (rmul (rmul (ent (returns s') (t + 1) e) gamma)
                (ent (done_masks s) (t + 1) e))
          (ent (rewards s) t e).
Proof.
  intros Hs Hnv.
  pose proof (compute_returns_return_spec T N s nv gamma gae_lambda Hs Hnv) as Hc.
  destruct (compute_returns s nv false gamma gae_lambda false) as [s'|]; [|done].
  destruct Hc as (Hs' & Hsh & Hent & Hlast).
  exists s'. split; [done|]. split; [done|]. split; [done|].
  intros t e Ht He.
  rewrite (Hent t e) by (lia || done). rewrite (Hent (t + 1) e) by (lia || done).
  replace (T - t) with (S (T - (t + 1))) by lia.
  cbn [return_spec].
  replace (T - S (T - (t + 1))) with t by lia.
  reflexivity.
Qed.

(** X9.  Every variant of [compute_returns] succeeds on a well-shaped
    buffer with a bootstrap value of [N] entries, returns a well-shaped
    buffer, and changes nothing but [returns] and, with GAE, slot [T] of
    [value_preds]: observations, recurrent states, rewards, actions,
    log-probabilities, both masks and the cursor are as before. *)
Theorem compute_returns_preserves_buffer T N s nv use_gae gamma gae_lambda proper :
  well_shaped T N s -> length nv = N ->
  exists s',
    compute_returns s nv use_gae gamma gae_lambda proper = Ok s' /\
    well_shaped T N s' /\
    obs s' = obs s /\ recurrent_hidden_states s' = recurrent_hidden_states s /\
    rewards s' = rewards s /\ actions s' = actions s /\
    action_log_probs s' = action_log_probs s /\
    done_masks s' = done_masks s /\ time_limit_masks s' = time_limit_masks s /\
    step s' = step s /\ rollout_steps s' = rollout_steps s /\
    value_preds s' = (if use_gae then bootstrapped T N s nv else value_preds s) /\
    (forall t, t < T -> rows (value_preds s') !! t = rows (value_preds s) !! t).
Proof.
  intros Hs Hnv.
  destruct (compute_returns_frame T N s nv use_gae gamma gae_lambda proper Hs Hnv)
    as (s' & Hc & Hs' & Heq).
  exists s'. split; [done|]. split; [done|]. rewrite Heq.
  destruct use_gae; cbn; split_and!; try done.
  intros t Ht. apply list_lookup_insert_ne. lia.
Qed.

(** X10.  Computing the returns twice is the same as computing them once:
    on the buffer a call returns, the same call returns that buffer
    again. *)
Theorem compute_returns_idempotent T N s nv use_gae gamma gae_lambda proper :
  well_shaped T N s -> length nv = N ->
  exists s',
    compute_returns s nv use_gae gamma gae_lambda proper = Ok s' /\
    compute_returns s' nv use_gae gamma gae_lambda proper = Ok s'.
Proof.
  intros Hs Hnv.
  set (vp' := bootstrapped T N s nv).
  assert (shaped (T + 1) N vp') as Hvp' by (by apply bootstrapped_shaped).
  assert (forall s', value_preds s' = vp' -> bootstrapped T N s' nv = vp') as Hboot.
  { intros s' ->. subst vp'. cbn. by rewrite list_insert_insert_eq. }
  assert (forall s', value_preds s' = vp' -> with_value_preds s' vp' = s') as Hsame.
  { intros s' <-. by destruct s'. }
  destruct use_gae, proper.
  - pose proof (compute_returns_gae_time_limit_spec T N s nv gamma gae_lambda Hs Hnv) as H1.
    destruct (compute_returns s _ _ _ _ _) as [s'|]; [|done].
    destruct H1 as (Hs' & Hsh & He1 & Hf1). exists s'. split; [done|].
    destruct (with_returns_fields _ _ _ Hs') as (Hrw & Hvp & Hdm & Htl).
    cbn in Hrw, Hvp, Hdm, Htl. fold vp' in Hvp.
    assert (well_shaped T N s') as Hws.
    { rewrite Hs'. apply well_shaped_with_returns; [|done].
      by apply well_shaped_with_value_preds. }
    pose proof (compute_returns_gae_time_limit_spec T N s' nv gamma gae_lambda Hws Hnv)
      as H2.
    destruct (compute_returns s' _ _ _ _ _) as [s''|]; [|done].
    destruct H2 as (Hs'' & Hsh2 & He2 & Hf2).
    rewrite (Hboot s' Hvp) in Hs'', He2. rewrite (Hsame s' Hvp) in Hs''.
    rewrite Hs''. rewrite <- (with_returns_id s') at 2. do 2 f_equal.
    apply (tensor_ext (T + 1) N); try done.
    intros i e Hi He. destruct (decide (i < T)) as [Hlt|Hge].
    + rewrite He2 by done. rewrite (He1 i e) by done. by rewrite Hrw, Hdm, Htl.
    + apply ent_ext, Hf2. lia.
  - pose proof (compute_returns_gae_spec T N s nv gamma gae_lambda Hs Hnv) as H1.
    destruct (compute_returns s _ _ _ _ _) as [s'|]; [|done].
    destruct H1 as (Hs' & Hsh & He1 & Hf1). exists s'. split; [done|].
    destruct (with_returns_fields _ _ _ Hs') as (Hrw & Hvp & Hdm & Htl).
    cbn in Hrw, Hvp, Hdm, Htl. fold vp' in Hvp.
    assert (well_shaped T N s') as Hws.
    { rewrite Hs'. apply well_shaped_with_returns; [|done].
      by apply well_shaped_with_value_preds. }
    pose proof (compute_returns_gae_spec T N s' nv gamma gae_lambda Hws Hnv) as H2.
    destruct (compute_returns s' _ _ _ _ _) as [s''|]; [|done].
    destruct H2 as (Hs'' & Hsh2 & He2 & Hf2).
    rewrite (Hboot s' Hvp) in Hs'', He2. rewrite (Hsame s' Hvp) in Hs''.
    rewrite Hs''. rewrite <- (with_returns_id s') at 2. do 2 f_equal.
    apply (tensor_ext (T + 1) N); try done.
    intros i e Hi He. destruct (decide (i < T)) as [Hlt|Hge].
    + rewrite He2 by done. rewrite (He1 i e) by done. by rewrite Hrw, Hdm.
    + apply ent_ext, Hf2. lia.
  - pose proof (compute_returns_return_time_limit_spec T N s nv gamma gae_lambda Hs Hnv)
      as H1.
    destruct (compute_returns s _ _ _ _ _) as [s'|]; [|done].
    destruct H1 as (Hs' & Hsh & He1 & Hl1). exists s'. split; [done|].
    destruct (with_returns_fields _ _ _ Hs') as (Hrw & Hvp & Hdm & Htl).
    assert (well_shaped T N s') as Hws
      by (rewrite Hs'; by apply well_shaped_with_returns).
    pose proof (compute_returns_return_time_limit_spec T N s' nv gamma gae_lambda Hws Hnv)
      as H2.
    destruct (compute_returns s' _ _ _ _ _) as [s''|]; [|done].
    destruct H2 as (Hs'' & Hsh2 & He2 & Hl2).
    rewrite Hs''. rewrite <- (with_returns_id s') at 2. do 2 f_equal.
    apply (tensor_ext (T + 1) N); try done.
    intros i e Hi He. rewrite He2, (He1 i e) by (lia || done).
    by rewrite Hrw, Hvp, Hdm, Htl.
  - pose proof (compute_returns_return_spec T N s nv gamma gae_lambda Hs Hnv) as H1.
    destruct (compute_returns s _ _ _ _ _) as [s'|]; [|done].
    destruct H1 as (Hs' & Hsh & He1 & Hl1). exists s'. split; [done|].
    destruct (with_returns_fields _ _ _ Hs') as (Hrw & Hvp & Hdm & Htl).
    assert (well_shaped T N s') as Hws
      by (rewrite Hs'; by apply well_shaped_with_returns).
    pose proof (compute_returns_return_spec T N s' nv gamma gae_lambda Hws Hnv) as H2.
    destruct (compute_returns s' _ _ _ _ _) as [s''|]; [|done].
    destruct H2 as (Hs'' & Hsh2 & He2 & Hl2).
    rewrite Hs''. rewrite <- (with_returns_id s') at 2. do 2 f_equal.
    apply (tensor_ext (T + 1) N); try done.
    intros i e Hi He. rewrite He2, (He1 i e) by (lia || done).
    by rewrite Hrw, Hdm.
Qed.
End ComputeReturnsExtras.

Section ComputeReturnsExact.
Context {Obs Hid Act R : Type} `{ExactArith R}.
#[local] Abbreviation storage := (RolloutStorage Obs Hid Act R).
Implicit Types (s : storage) (nv : list R) (rw vp dm tl : tensor R).

Add Ring exact_returns_ring : arith_ring.

Lemma gae_specs_agree rw vp dm tl gamma gae_lambda T k e :
  k <= T -> (forall t, t < T -> ent tl (t + 1) e = r1) ->
  gae_time_limit_spec rw vp dm tl gamma gae_lambda T k e =
  gae_spec rw vp dm gamma gae_lambda T k e.
Proof.
  intros Hk Htl. induction k as [|k IH]; [done|].
  cbn [gae_time_limit_spec gae_spec]. rewrite IH, Htl by lia. ring.
Qed.

Lemma return_specs_agree rw vp dm tl gamma nv T k e :
  k <= T -> (forall t, t < T -> ent tl (t + 1) e = r1) ->
  return_time_limit_spec rw vp dm tl gamma nv T k e =
  return_spec rw dm gamma nv T k e.
Proof.
  intros Hk Htl. induction k as [|k IH]; [done|].
  cbn [return_time_limit_spec return_spec]. rewrite IH, Htl by lia. ring.
Qed.

(** X11.  In exact arithmetic, when no stored step is a time-limit
    truncation (all time-limit masks of slots 1 to [T] are one),
    [use_proper_time_limits] makes no difference: with and without it
    [compute_returns] returns the same buffer. *)
Theorem time_limit_toggle_immaterial T N s nv use_gae gamma gae_lambda :
  well_shaped T N s -> length nv = N ->
  (forall t e, t < T -> e < N -> ent (time_limit_masks s) (t + 1) e = r1) ->
  compute_returns s nv use_gae gamma gae_lambda true =
  compute_returns s nv use_gae gamma gae_lambda false.
Proof.
  intros Hs Hnv Htl. destruct use_gae.
  - pose proof (compute_returns_gae_time_limit_spec T N s nv gamma gae_lambda Hs Hnv) as H1.
    pose proof (compute_returns_gae_spec T N s nv gamma gae_lambda Hs Hnv) as H2.
    destruct (compute_returns s nv true gamma gae_lambda true) as [s1|]; [|done].
    destruct (compute_returns s nv true gamma gae_lambda false) as [s2|]; [|done].
    destruct H1 as (Hs1 & Hsh1 & He1 & Hf1), H2 as (Hs2 & Hsh2 & He2 & Hf2).
    rewrite Hs1, Hs2. do 2 f_equal.
    apply (tensor_ext (T + 1) N); try done.
    intros i e Hi He. destruct (decide (i < T)) as [Hlt|Hge].
    + rewrite He1, He2 by done. f_equal. apply gae_specs_agree; [lia|].
      intros t Ht. by apply Htl.
    + apply ent_ext. rewrite Hf1, Hf2 by lia. done.
  - pose proof (compute_returns_return_time_limit_spec T N s nv gamma gae_lambda Hs Hnv)
      as H1.
    pose proof (compute_returns_return_spec T N s nv gamma gae_lambda Hs Hnv) as H2.
    destruct (compute_returns s nv false gamma gae_lambda true) as [s1|]; [|done].
    destruct (compute_returns s nv false gamma gae_lambda false) as [s2|]; [|done].
    destruct H1 as (Hs1 & Hsh1 & He1 & Hl1), H2 as (Hs2 & Hsh2 & He2 & Hl2).
    rewrite Hs1, Hs2. do 2 f_equal.
    apply (tensor_ext (T + 1) N); try done.
    intros i e Hi He. rewrite He1, He2 by (lia || done).
    apply return_specs_agree; [lia|]. intros t Ht. by apply Htl.
Qed.

(** X12.  In exact arithmetic, a transition that ends its episode for good
    (done mask zero at [t+1], and no truncation there when
    [use_proper_time_limits] is on) gets the bare reward as its return in
    every variant: [returns[t] = reward[t]], whatever the later steps, the
    value predictions and the bootstrap value are. *)
Theorem terminal_step_return_is_reward T N s nv use_gae gamma gae_lambda proper t e :
  well_shaped T N s -> length nv = N -> t < T -> e < N ->
  ent (done_masks s) (t + 1) e = r0 ->
  (proper = true -> ent (time_limit_masks s) (t + 1) e = r1) ->
  exists s',
    compute_returns s nv use_gae gamma gae_lambda proper = Ok s' /\
    ent (returns s') t e = ent (rewards s) t e.
Proof.
  intros Hs Hnv Ht He Hdone Htl. destruct use_gae, proper.
  - pose proof (compute_returns_gae_time_limit_spec T N s nv gamma gae_lambda Hs Hnv) as H1.
    destruct (compute_returns s _ _ _ _ _) as [s'|]; [|done].
    destruct H1 as (_ & _ & He1 & _). exists s'. split; [done|].
    rewrite (He1 t e Ht He). replace (T - t) with (S (T - (t + 1))) by lia.
    cbn [gae_time_limit_spec]. unfold delta_spec.
    replace (T - S (T - (t + 1))) with t by lia.
    rewrite Hdone, (Htl eq_refl). ring.
  - pose proof (compute_returns_gae_spec T N s nv gamma gae_lambda Hs Hnv) as H1.
    destruct (compute_returns s _ _ _ _ _) as [s'|]; [|done].
    destruct H1 as (_ & _ & He1 & _). exists s'. split; [done|].
    rewrite (He1 t e Ht He). replace (T - t) with (S (T - (t + 1))) by lia.
    cbn [gae_spec]. unfold delta_spec.
    replace (T - S (T - (t + 1))) with t by lia.
    rewrite Hdone. ring.
  - pose proof (compute_returns_return_time_limit_spec T N s nv gamma gae_lambda Hs Hnv)
      as H1.
    destruct (compute_returns s _ _ _ _ _) as [s'|]; [|done].
    destruct H1 as (_ & _ & He1 & _). exists s'. split; [done|].
    rewrite (He1 t e ltac:(lia) He). replace (T - t) with (S (T - (t + 1))) by lia.
    cbn [return_time_limit_spec].
    replace (T - S (T - (t + 1))) with t by lia.
    rewrite Hdone, (Htl eq_refl). ring.
  - pose proof (compute_returns_return_spec T N s nv gamma gae_lambda Hs Hnv) as H1.
    destruct (compute_returns s _ _ _ _ _) as [s'|]; [|done].
    destruct H1 as (_ & _ & He1 & _). exists s'. split; [done|].
    rewrite (He1 t e ltac:(lia) He). replace (T - t) with (S (T - (t + 1))) by lia.
    cbn [return_spec].
    replace (T - S (T - (t + 1))) with t by lia.
    rewrite Hdone. ring.
Qed.

(** X13.  In exact arithmetic, with GAE and [use_proper_time_limits], a
    truncation at [t+1] (time-limit mask zero) resets the advantage: the
    return of step [t] is its value prediction, [returns[t] = value_preds[t]],
    whatever the reward, the later steps and the bootstrap value are. *)
Theorem gae_truncation_return_is_value T N s nv gamma gae_lambda t e :
  well_shaped T N s -> length nv = N -> t < T -> e < N ->
  ent (time_limit_masks s) (t + 1) e = r0 ->
  exists s',
    compute_returns s nv true gamma gae_lambda true = Ok s' /\
    ent (returns s') t e = ent (value_preds s) t e.
Proof.
  intros Hs Hnv Ht He Htl.
  pose proof (compute_returns_gae_time_limit_spec T N s nv gamma gae_lambda Hs Hnv) as H1.
  destruct (compute_returns s _ _ _ _ _) as [s'|]; [|done].
  destruct H1 as (_ & _ & He1 & _). exists s'. split; [done|].
  rewrite (He1 t e Ht He). replace (T - t) with (S (T - (t + 1))) by lia.
  cbn [gae_time_limit_spec].
  replace (T - S (T - (t + 1))) with t by lia.
  rewrite Htl, (bootstrapped_below T N s nv t e Ht). ring.
Qed.
End ComputeReturnsExact.

Lemma compute_returns_gae_plain_witness :
  exists s', compute_returns Examples.buffer_2x1 [0%Z] true 2%Z 3%Z false = Ok s' /\
             rows (value_preds s') !! 2 = Some [0%Z].
Proof.
  destruct (compute_returns_gae_plain 2 1 Examples.buffer_2x1 [0%Z] 2%Z 3%Z
              buffer_2x1_shaped eq_refl) as (s' & gae & Hc & Hvp & _).
  exists s'. split; [exact Hc | exact Hvp].
Defined.

Lemma compute_returns_discounted_plain_witness :
  exists s', compute_returns Examples.buffer_2x1 [0%Z] false 2%Z 3%Z false = Ok s' /\
             rows (returns s') !! 2 = Some [0%Z].
Proof.
  destruct (compute_returns_discounted_plain 2 1 Examples.buffer_2x1 [0%Z] 2%Z 3%Z
              buffer_2x1_shaped eq_refl) as (s' & Hc & _ & Hrt & _).
  exists s'. split; [exact Hc | exact Hrt].
Defined.

Lemma compute_returns_preserves_buffer_witness :
  exists s', compute_returns Examples.buffer_2x1 [0%Z] true 2%Z 3%Z true = Ok s' /\
             well_shaped 2 1 s'.
Proof.
  destruct (compute_returns_preserves_buffer 2 1 Examples.buffer_2x1 [0%Z] true 2%Z 3%Z
              true buffer_2x1_shaped eq_refl) as (s' & Hc & Hws & _).
  exists s'. split; [exact Hc | exact Hws].
Defined.

Lemma compute_returns_idempotent_witness :
  exists s', compute_returns Examples.buffer_2x1 [0%Z] true 2%Z 3%Z true = Ok s' /\
             compute_returns s' [0%Z] true 2%Z 3%Z true = Ok s'.
Proof.
  exact (compute_returns_idempotent 2 1 Examples.buffer_2x1 [0%Z] true 2%Z 3%Z true
           buffer_2x1_shaped eq_refl).
Defined.

Lemma buffer_2x1_truncated_shaped : well_shaped 2 1 Examples.buffer_2x1_truncated.
Proof. constructor; cbn; repeat split; repeat constructor. Defined.

Lemma time_limit_toggle_immaterial_witness :
  compute_returns Examples.buffer_2x1 [0%Z] true 2%Z 3%Z true =
  compute_returns Examples.buffer_2x1 [0%Z] true 2%Z 3%Z false.
Proof.
  apply (time_limit_toggle_immaterial (H0 := Z_exact) 2 1 Examples.buffer_2x1 [0%Z] true
           2%Z 3%Z buffer_2x1_shaped eq_refl).
  intros [|[|t]] [|e] Ht He; try lia; reflexivity.
Defined.

Lemma terminal_step_return_is_reward_witness :
  exists s', compute_returns Examples.buffer_2x1 [9%Z] true 2%Z 3%Z true = Ok s' /\
             ent (returns s') 1 0 = ent (rewards Examples.buffer_2x1) 1 0.
Proof.
  apply (terminal_step_return_is_reward (H0 := Z_exact) 2 1 Examples.buffer_2x1 [9%Z]
           true 2%Z 3%Z true 1 0 buffer_2x1_shaped eq_refl);
    [lia | lia | reflexivity | reflexivity].
Defined.

Lemma gae_truncation_return_is_value_witness :
  exists s',
    compute_returns Examples.buffer_2x1_truncated [9%Z] true 2%Z 3%Z true = Ok s' /\
    ent (returns s') 1 0 = ent (value_preds Examples.buffer_2x1_truncated) 1 0.
Proof.
  apply (gae_truncation_return_is_value (H0 := Z_exact) 2 1
           Examples.buffer_2x1_truncated [9%Z] 2%Z 3%Z 1 0
           buffer_2x1_truncated_shaped eq_refl);
    [lia | lia | reflexivity].
Defined.

(** * Further properties of [feed_forward_generator] *)

Section FeedForwardExtras.
Context {Obs Hid Act R : Type} `{Arith R}.
#[local] Abbreviation storage := (RolloutStorage Obs Hid Act R).
Implicit Types (s : storage) (ix : list nat) (mb : minibatch Obs Hid Act R).

Lemma feed_forward_sample_adv T N s (a : tensor R) ix mb :
  shaped T N a -> feed_forward_sample s (Some a) ix = Ok mb ->
  exists l, adv_targ mb = Some l /\
            forall j i, ix !! j = Some i -> l !! j = transition_entry a i.
Proof.
  intros Ha. unfold feed_forward_sample.
  destruct (gather (flatten (drop_last (obs s))) ix) as [l1|];
    cbn [mbind result_bind]; [|done].
  destruct (gather (flatten (drop_last (recurrent_hidden_states s))) ix)
    as [l2|]; cbn [mbind result_bind]; [|done].
  destruct (gather (flatten (actions s)) ix) as [l3|];
    cbn [mbind result_bind]; [|done].
  destruct (gather (flatten (drop_last (value_preds s))) ix) as [l4|];
    cbn [mbind result_bind]; [|done].
  destruct (gather (flatten (drop_last (returns s))) ix) as [l5|];
    cbn [mbind result_bind]; [|done].
  destruct (gather (flatten (drop_last (done_masks s))) ix) as [l6|];
    cbn [mbind result_bind]; [|done].
  destruct (gather (flatten (action_log_probs s)) ix) as [l7|];
    cbn [mbind result_bind]; [|done].
  destruct (gather (flatten a) ix) as [l8|] eqn:H8; cbn [mbind result_bind]; [|done].
  intros [= <-]. exists l8. split; [done|].
  intros j i Hj. destruct (gather_lookup _ _ _ H8) as (_ & Hl8).
  destruct (Hl8 j i Hj) as (Hi & ->).
  rewrite (length_flatten T N) in Hi by done.
  by apply (flatten_lookup T N).
Qed.

(** X14.  The configuration errors of [feed_forward_generator] end it
    before any minibatch: a type error when neither a minibatch count nor a
    size is given, an assertion error when the count exceeds the [T * N]
    transitions, a division by zero for a count of zero, and a value error
    for a negative count or a given size that is not positive. *)
Theorem feed_forward_generator_config_errors s adv nm mbs perm :
  let tr := feed_forward_generator s adv nm mbs perm in
  let TN := Z.of_nat (size1 (rewards s) * size0 (rewards s)) in
  (mbs = None -> nm = None -> tr = mkTrace [] (Some TypeError)) /\
  (forall n, mbs = None -> nm = Some n -> (TN < n)%Z ->
     tr = mkTrace [] (Some AssertionError)) /\
  (mbs = None -> nm = Some 0%Z -> tr = mkTrace [] (Some ZeroDivisionError)) /\
  (forall n, mbs = None -> nm = Some n -> (n < 0)%Z ->
     tr = mkTrace [] (Some ValueError)) /\
  (forall b, mbs = Some b -> (b <= 0)%Z -> tr = mkTrace [] (Some ValueError)).
Proof.
  cbv zeta. unfold feed_forward_generator, feed_forward_minibatch_size.
  split_and!.
  - by intros -> ->.
  - intros n -> -> Hn.
    by destruct (Z.ltb_spec (Z.of_nat (size1 (rewards s) * size0 (rewards s))) n);
      [|lia].
  - intros -> ->.
    destruct (Z.ltb_spec (Z.of_nat (size1 (rewards s) * size0 (rewards s))) 0);
      [lia | done].
  - intros n -> -> Hn.
    destruct (Z.ltb_spec (Z.of_nat (size1 (rewards s) * size0 (rewards s))) n); [lia|].
    destruct (Z.eqb_spec n 0); [lia|].
    set (a := Z.of_nat _).
    assert (a / n <= 0)%Z as Hq.
    { pose proof (Z.div_mod a n ltac:(lia)). pose proof (Z.mod_neg_bound a n Hn).
      assert (0 <= a)%Z by (subst a; lia). nia. }
    by destruct (Z.leb_spec (a / n) 0); [|lia].
  - intros b -> Hb. by destruct (Z.leb_spec b 0); [|lia].
Qed.

(** X15.  With the minibatch size derived from a minibatch count [nm],
    [1 <= nm <= T * N], the generator ends without exception after
    [floor(T*N / floor(T*N / nm))] minibatches of [floor(T*N / nm)]
    transitions each.  That number is at least [nm], and it is [nm] when
    [nm] divides [T * N]. *)
Theorem feed_forward_generator_minibatch_count T N s adv (nm : Z) perm :
  well_shaped T N s -> (forall a, adv = Some a -> shaped T N a) ->
  perm ≡ₚ seq 0 (T * N) -> (1 <= nm <= Z.of_nat (T * N))%Z ->
  let tr := feed_forward_generator s adv (Some nm) None perm in
  let TN := Z.of_nat (T * N) in
  raised tr = None /\
  Z.of_nat (length (yielded tr)) = (TN / (TN / nm))%Z /\
  Forall (batch_length (Z.to_nat (TN / nm))) (yielded tr) /\
  (nm <= Z.of_nat (length (yielded tr)))%Z /\
  ((TN mod nm = 0)%Z -> Z.of_nat (length (yielded tr)) = nm).
Proof.
  intros Hs Hadv Hperm Hnm. cbv zeta.
  assert (feed_forward_minibatch_size s (Some nm) None = Ok (Z.of_nat (T * N) / nm)%Z)
    as Hsize.
  { unfold feed_forward_minibatch_size, size0.
    destruct (ws_rewards _ _ _ Hs) as (-> & -> & _).
    replace (N * T) with (T * N) by lia.
    destruct (Z.ltb_spec (Z.of_nat (T * N)) nm); [lia|].
    destruct (Z.eqb_spec nm 0); [lia | done]. }
  assert (1 <= Z.of_nat (T * N) / nm)%Z as Hb
    by (apply Z.div_le_lower_bound; lia).
  destruct (feed_forward_generator_spec T N s adv (Some nm) None _ perm
              Hs Hadv Hperm Hsize Hb) as (Hr & _ & Hlen & _ & Hbl & _).
  split; [done|]. split; [done|]. split; [done|]. rewrite Hlen. split.
  - apply Z.div_le_lower_bound; [lia|].
    rewrite Z.mul_comm. apply Z.mul_div_le. lia.
  - intros Hmod.
    assert (Z.of_nat (T * N) = nm * (Z.of_nat (T * N) / nm))%Z as Heq
      by (apply Z_div_exact_full_2; [lia | done]).
    set (b := (Z.of_nat (T * N) / nm)%Z) in *.
    rewrite Heq. apply Z.div_mul. lia.
Qed.


(** X17.  Every field of a yielded minibatch, the advantages included, is
    gathered at the same flattened indices: position [j] of each field is
    the entry of one and the same transition [i = ix[j]], time step
    [i / N] of environment [i mod N]. *)
Theorem feed_forward_minibatch_aligned T N s (a : tensor R) nm mbs perm mb :
  well_shaped T N s -> shaped T N a ->
  mb ∈ yielded (feed_forward_generator s (Some a) nm mbs perm) ->
  exists ix adv,
    adv_targ mb = Some adv /\ batch_length (length ix) mb /\
    forall j i, ix !! j = Some i ->
      i < T * N /\
      obs_batch mb !! j = transition_entry (obs s) i /\
      recurrent_hidden_states_batch mb !! j =
        transition_entry (recurrent_hidden_states s) i /\
      actions_batch mb !! j = transition_entry (actions s) i /\
      value_preds_batch mb !! j = transition_entry (value_preds s) i /\
      return_batch mb !! j = transition_entry (returns s) i /\
      masks_batch mb !! j = transition_entry (done_masks s) i /\
      old_action_log_probs_batch mb !! j = transition_entry (action_log_probs s) i /\
      adv !! j = transition_entry a i.
Proof.
  intros Hs Ha. unfold feed_forward_generator.
  destruct (feed_forward_minibatch_size s nm mbs) as [b|e]; cbn;
    [|intros Hin; by apply elem_of_nil in Hin].
  destruct (b <=? 0)%Z; cbn; [intros Hin; by apply elem_of_nil in Hin|].
  intros Hin. apply yield_each_elem in Hin as (ix & _ & Hmb).
  destruct (feed_forward_sample_spec T N s (Some a) ix mb Hs Hmb) as (Hbl & Hent).
  destruct (feed_forward_sample_adv T N s a ix mb Ha Hmb) as (adv & Hadv & Hal).
  exists ix, adv. split; [done|]. split; [done|].
  intros j i Hj. destruct (Hent j i Hj) as (? & ? & ? & ? & ? & ? & ? & ?).
  split_and!; try done. by apply Hal.
Qed.
End FeedForwardExtras.

Lemma feed_forward_generator_minibatch_count_witness :
  let tr := feed_forward_generator (Examples.numbered_buffer 3 2) None (Some 4%Z) None
              [3; 1; 5; 0; 2; 4] in
  raised tr = None /\ Z.of_nat (length (yielded tr)) = (6 / (6 / 4))%Z.
Proof.
  destruct (feed_forward_generator_minibatch_count 3 2 (Examples.numbered_buffer 3 2)
              None 4%Z [3; 1; 5; 0; 2; 4] numbered_buffer_3x2_shaped)
    as (Hr & Hlen & _).
  - intros a Ha. discriminate Ha.
  - exact example_draw.
  - cbn. lia.
  - split; [exact Hr | exact Hlen].
Defined.


Lemma advantages_3x2_shaped : shaped 3 2 (full 3 2 0%Z).
Proof. repeat split; repeat constructor. Defined.

Lemma feed_forward_minibatch_aligned_witness :
  exists (ix : list nat) (adv : list Z),
    adv_targ (mkBatch [0; 0; 0; 0] [1; 0; 2; 0] [0; 0; 0; 0] [0; 0; 0; 0]
                [0; 0; 0; 0] [1; 1; 1; 1] [0; 0; 0; 0] (Some [0; 0; 0; 0]))%Z
      = Some adv /\
    length adv = length ix.
Proof.
  destruct (feed_forward_minibatch_aligned 3 2 (Examples.numbered_buffer 3 2)
              (full 3 2 0%Z) None (Some 4%Z) [3; 1; 5; 0; 2; 4]
              (mkBatch [0; 0; 0; 0] [1; 0; 2; 0] [0; 0; 0; 0] [0; 0; 0; 0]
                 [0; 0; 0; 0] [1; 1; 1; 1] [0; 0; 0; 0] (Some [0; 0; 0; 0]))%Z
              numbered_buffer_3x2_shaped advantages_3x2_shaped)
    as (ix & adv & Hadv & Hbl & _).
  - vm_compute. apply list_elem_of_In. left. reflexivity.
  - exists ix, adv. split; [exact Hadv|].
    destruct Hbl as (_ & _ & _ & _ & _ & _ & _ & Hlen). exact (Hlen adv Hadv).
Defined.

(** * Further properties of [recurrent_generator] *)

Lemma mapM_result_ok {A B : Type} (f : A -> result B) (l : list A) :
  Forall (fun x => exists y, f x = Ok y) l ->
  exists ys, mapM f l = Ok ys /\ Forall2 (fun x y => f x = Ok y) l ys.
Proof.
  induction 1 as [|x l (y & Hy) _ (ys & Hys & Hall)]; cbn.
  - exists []. by split.
  - exists (y :: ys). rewrite Hy, Hys. cbn. split; [done|]. by constructor.
Qed.

Lemma mapM_result_fail {A B : Type} (f : A -> result B) (l1 l2 : list A) x e :
  Forall (fun x => exists y, f x = Ok y) l1 -> f x = Raise e ->
  mapM f (l1 ++ x :: l2) = Raise e.
Proof.
  intros Hok Hx. induction Hok as [|x1 l1 (y & Hy) _ IH]; cbn.
  - by rewrite Hx.
  - by rewrite Hy, IH.
Qed.

Lemma yield_each_prefix {I A : Type} (f : I -> result A) (P : I -> A -> Prop)
    (l1 l2 : list I) :
  Forall (fun i => exists a, f i = Ok a /\ P i a) l1 ->
  exists outs,
    Forall2 (fun i a => f i = Ok a /\ P i a) l1 outs /\
    yielded (yield_each f (l1 ++ l2)) = outs ++ yielded (yield_each f l2) /\
    raised (yield_each f (l1 ++ l2)) = raised (yield_each f l2).
Proof.
  induction 1 as [|i l1 (a & Ha & HP) _ (outs & Hall & Hy & Hr)]; cbn.
  - exists []. by split.
  - exists (a :: outs). rewrite Ha. cbn. split; [by constructor|].
    by rewrite Hy, Hr.
Qed.

Section ColumnFacts.
Context {A : Type}.
Implicit Types (rs cols : list (list A)).

Lemma omap_lookup_column rs e :
  Forall (fun r => e < length r) rs ->
  length (omap (fun r => r !! e) rs) = length rs /\
  forall i, omap (fun r => r !! e) rs !! i = rs !! i ≫= (fun r => r !! e).
Proof.
  induction 1 as [|r rs Hr _ (IHl & IHe)]; cbn; [by split|].
  destruct (lookup_lt_is_Some_2 r e Hr) as [x Hx]. rewrite Hx. cbn.
  split; [by rewrite IHl|]. intros [|i]; cbn; [done | apply IHe].
Qed.

(** [t[:k, e]] on a tensor with at least [k] rows of [n > e] entries. *)
Lemma column_take_shaped K n (t : tensor A) k e :
  shaped K n t -> k <= K -> e < n ->
  exists c,
    column (Tensor (size1 t) (take k (rows t))) e = Ok c /\
    length c = k /\
    forall i, i < k -> c !! i = rows t !! i ≫= (fun r => r !! e).
Proof.
  intros (Hn & HK & Hall) Hk He. unfold column. cbn [size1 rows].
  destruct (Nat.ltb_spec e (size1 t)); [|lia].
  destruct (omap_lookup_column (take k (rows t)) e) as (Hlen & Hent).
  { apply Forall_take. eapply Forall_impl; [exact Hall|]. cbn. intros r ->. done. }
  eexists. split; [reflexivity|]. split.
  - rewrite Hlen, length_take. lia.
  - intros i Hi. rewrite Hent, lookup_take. by rewrite decide_True by done.
Qed.

Lemma column_shaped K n (t : tensor A) e :
  shaped K n t -> e < n ->
  exists c,
    column t e = Ok c /\ length c = K /\
    forall i, c !! i = rows t !! i ≫= (fun r => r !! e).
Proof.
  intros (Hn & HK & Hall) He. unfold column.
  destruct (Nat.ltb_spec e (size1 t)); [|lia].
  destruct (omap_lookup_column (rows t) e) as (Hlen & Hent).
  { eapply Forall_impl; [exact Hall|]. cbn. intros r ->. done. }
  eexists. split; [reflexivity|]. split; [by rewrite Hlen | done].
Qed.

(** Stacking [k >= 1] columns of [T] entries and flattening them: entry
    [t * k + j] is entry [t] of column [j]. *)
Lemma flatten_helper_spec T k cols :
  length cols = k -> 1 <= k -> Forall (fun c => length c = T) cols ->
  exists out,
    flatten_helper T k cols = Ok out /\
    length out = T * k /\
    forall t j, t < T -> j < k -> out !! (t * k + j) = cols !! j ≫= (fun c => c !! t).
Proof.
  intros Hk Hpos Hall. unfold flatten_helper, stack1.
  destruct cols as [|c0 cols']; [cbn in Hk; lia|].
  set (cols := c0 :: cols') in *.
  assert (length c0 = T) as Hc0 by (by inversion Hall).
  rewrite Hc0.
  set (stacked := map (fun t => omap (fun col => col !! t) cols) (seq 0 T)).
  assert (length stacked = T) as Hst by (subst stacked; by rewrite length_map, length_seq).
  assert (forall t, t < T ->
            stacked !! t = Some (omap (fun col => col !! t) cols)) as Hrow.
  { intros t Ht. subst stacked.
    change (map ?h ?l) with (h <$> l). rewrite list_lookup_fmap, lookup_seq_lt by done.
    done. }
  assert (forall t, t < T ->
            length (omap (fun col => col !! t) cols) = k /\
            forall j, omap (fun col => col !! t) cols !! j
                      = cols !! j ≫= (fun c => c !! t)) as Hcol.
  { intros t Ht. rewrite <- Hk. apply omap_lookup_column.
    eapply Forall_impl; [exact Hall|]. cbn. intros r ->. done. }
  assert (Forall (fun r => length r = k) stacked) as Hlens.
  { apply Forall_forall. intros r Hr. apply list_elem_of_lookup in Hr as (t & Ht).
    assert (t < T) as Hlt by (rewrite <- Hst; by eapply lookup_lt_Some).
    rewrite (Hrow t Hlt) in Ht. injection Ht as <-. by apply Hcol. }
  rewrite Hst, Hk, Nat.eqb_refl.
  eexists. split; [reflexivity|]. split.
  - by rewrite (length_concat_shaped k), Hst.
  - intros t j Ht Hj.
    rewrite (concat_lookup_uniform k) by (done || rewrite Hst; nia).
    rewrite Nat.div_add_l, Nat.div_small, Nat.add_0_r by lia.
    replace (t * k + j) with (j + t * k) by lia.
    rewrite Nat.Div0.mod_add, Nat.mod_small by lia.
    rewrite (Hrow t Ht). cbn. by apply Hcol.
Qed.
End ColumnFacts.

(** The stops of [range(0, n, k)], and how far the last group reaches. *)
Lemma range_step_groups (n k : nat) :
  1 <= k ->
  range_step n (Z.of_nat k) =
  map (fun g => g * k) (seq 0 (n / k)) ++
  (if decide (n mod k = 0) then [] else [n / k * k]).
Proof.
  intros Hk. unfold range_step.
  destruct (Z.leb_spec (Z.of_nat k) 0); [lia|]. rewrite Nat2Z.id.
  pose proof (Nat.div_mod_eq n k) as Hdm.
  pose proof (Nat.mod_upper_bound n k ltac:(lia)) as Hlt.
  destruct (decide (n mod k = 0)) as [Hz|Hnz].
  - replace ((n + k - 1) / k) with (n / k); [by rewrite app_nil_r|].
    apply (Nat.div_unique _ _ _ (k - 1)); lia.
  - replace ((n + k - 1) / k) with (S (n / k)).
    + by rewrite seq_S, map_app.
    + apply (Nat.div_unique _ _ _ (n mod k - 1)); lia.
Qed.

Lemma mapM_result_ok_with {A B : Type} (f : A -> result B) (P : A -> B -> Prop)
    (l : list A) :
  Forall (fun x => exists y, f x = Ok y /\ P x y) l ->
  exists ys, mapM f l = Ok ys /\ Forall2 P l ys.
Proof.
  induction 1 as [|x l (y & Hy & HP) _ (ys & Hys & Hall)]; cbn.
  - exists []. by split.
  - exists (y :: ys). rewrite Hy, Hys. cbn. split; [done|]. by constructor.
Qed.

Section RecurrentFacts.
Context {Obs Hid Act R : Type} `{Arith R}.
#[local] Abbreviation storage := (RolloutStorage Obs Hid Act R).
Implicit Types (s : storage) (a : tensor R) (perm : list nat).

Lemma column_drop_last {A : Type} K n (t : tensor A) e :
  shaped (K + 1) n t -> e < n ->
  exists c,
    column (drop_last t) e = Ok c /\ length c = K /\
    forall i, i < K -> c !! i = entry_at t i e.
Proof.
  intros Ht He. unfold drop_last, size0. rewrite (proj1 (proj2 Ht)).
  replace (K + 1 - 1) with K by lia.
  apply (column_take_shaped (K + 1) n); [done | lia | done].
Qed.

(** The inner loop body for one environment of the group. *)
Lemma recurrent_columns_ok T N s a perm start offset e :
  well_shaped T N s -> shaped T N a ->
  perm !! (start + offset) = Some e -> e < N ->
  exists c,
    recurrent_columns s (Some a) perm start offset = Ok c /\ columns_of s a T e c.
Proof.
  intros Hs Ha Hperm He. unfold recurrent_columns. rewrite Hperm.
  cbn [mbind result_bind]. destruct Hs.
  destruct (column_drop_last T N (obs s) e) as (o & -> & Lo & Eo); [done..|].
  cbn [mbind result_bind].
  destruct (column_take_shaped (T + 1) N (recurrent_hidden_states s) 1 e)
    as (h & -> & Lh & Eh); [done | lia | done |].
  cbn [mbind result_bind].
  destruct (column_shaped T N (actions s) e) as (ac & -> & La & Ea); [done..|].
  cbn [mbind result_bind].
  destruct (column_drop_last T N (value_preds s) e) as (vp & -> & Lvp & Evp); [done..|].
  cbn [mbind result_bind].
  destruct (column_drop_last T N (returns s) e) as (rt & -> & Lrt & Ert); [done..|].
  cbn [mbind result_bind].
  destruct (column_drop_last T N (done_masks s) e) as (dm & -> & Ldm & Edm); [done..|].
  cbn [mbind result_bind].
  destruct (column_shaped T N (action_log_probs s) e) as (lp & -> & Llp & Elp); [done..|].
  cbn [mbind result_bind].
  destruct (column_shaped T N a e) as (ad & -> & Lad & Ead); [done..|].
  cbn [mbind result_bind].
  eexists. split; [reflexivity|]. unfold columns_of. cbn.
  split_and!; try done.
  - apply Eh. lia.
  - intros t Ht. split_and!; unfold entry_at; auto.
Qed.

Lemma recurrent_columns_overrun s adv perm start offset :
  length perm <= start + offset ->
  recurrent_columns s adv perm start offset = Raise IndexError.
Proof.
  intros Hlen. unfold recurrent_columns.
  by rewrite (lookup_ge_None_2 perm (start + offset)) by done.
Qed.

(** One group of [k] environments that lies within the permutation. *)
Lemma recurrent_sample_ok T N s a perm k start :
  well_shaped T N s -> shaped T N a -> Forall (fun e => e < N) perm ->
  1 <= k -> start + k <= length perm ->
  exists mb,
    recurrent_sample s (Some a) perm k start = Ok mb /\
    recurrent_batch_of s a T (take k (drop start perm)) mb.
Proof.
  intros Hs Ha Hperm Hk Hfit. unfold recurrent_sample.
  destruct (mapM_result_ok_with (recurrent_columns s (Some a) perm start)
              (fun j c => exists e, perm !! (start + j) = Some e /\ columns_of s a T e c)
              (seq 0 k)) as (cols & -> & Hcols).
  { apply Forall_forall. intros j Hj. apply elem_of_seq in Hj.
    destruct (lookup_lt_is_Some_2 perm (start + j)) as [e He]; [lia|].
    assert (e < N) as HeN by (by eapply (Forall_lookup_1 _ _ _ _ Hperm)).
    destruct (recurrent_columns_ok T N s a perm start j e Hs Ha He HeN) as (c & Hc & Hp).
    exists c. split; [done|]. by exists e. }
  cbn [mbind result_bind].
  assert (length cols = k) as Lcols
    by (rewrite <- (Forall2_length _ _ _ Hcols); apply length_seq).
  assert (forall j, j < k -> exists c e,
            cols !! j = Some c /\ perm !! (start + j) = Some e /\ columns_of s a T e c)
    as Hcol.
  { intros j Hj. destruct (lookup_lt_is_Some_2 cols j) as [c Hc]; [lia|].
    pose proof (Forall2_lookup_lr _ _ _ j j c Hcols) as Hjc.
    rewrite lookup_seq_lt in Hjc by done.
    destruct (Hjc eq_refl Hc) as (e & He & Hp). by exists c, e. }
  assert (forall (B : Type) (g : env_columns Obs Hid Act R -> list B) n,
            (forall c e, columns_of s a T e c -> length (g c) = n) ->
            Forall (fun l => length l = n) (map g cols)) as Hlens.
  { intros B g n Hg. apply Forall_forall. intros l Hl.
    apply list_elem_of_In, in_map_iff in Hl as (c & <- & Hc).
    apply list_elem_of_In, list_elem_of_lookup in Hc as (j & Hj).
    destruct (Hcol j) as (c' & e & Hc' & _ & Hp); [rewrite <- Lcols; by eapply lookup_lt_Some|].
    rewrite Hj in Hc'. injection Hc' as <-. by eapply Hg. }
  rewrite (ws_rollout_steps _ _ _ Hs).
  assert (length (concat (map c_hid cols)) = k * 1) as Lhid.
  { rewrite (length_concat_shaped 1), length_map, Lcols; [done|].
    apply Hlens. intros c e Hp. apply Hp. }
  rewrite Lhid, Nat.eqb_refl. cbn [mbind result_bind].
  destruct (flatten_helper_spec T k (map c_obs cols)) as (ob & -> & Lob & Eob);
    [by rewrite length_map | done | apply Hlens; intros c e Hp; apply Hp |].
  cbn [mbind result_bind].
  destruct (flatten_helper_spec T k (map c_actions cols)) as (ab & -> & Lab & Eab);
    [by rewrite length_map | done | apply Hlens; intros c e Hp; apply Hp |].
  cbn [mbind result_bind].
  destruct (flatten_helper_spec T k (map c_value_preds cols)) as (vb & -> & Lvb & Evb);
    [by rewrite length_map | done | apply Hlens; intros c e Hp; apply Hp |].
  cbn [mbind result_bind].
  destruct (flatten_helper_spec T k (map c_returns cols)) as (rb & -> & Lrb & Erb);
    [by rewrite length_map | done | apply Hlens; intros c e Hp; apply Hp |].
  cbn [mbind result_bind].
  destruct (flatten_helper_spec T k (map c_masks cols)) as (mb & -> & Lmb & Emb);
    [by rewrite length_map | done | apply Hlens; intros c e Hp; apply Hp |].
  cbn [mbind result_bind].
  destruct (flatten_helper_spec T k (map c_action_log_probs cols))
    as (lb & -> & Llb & Elb);
    [by rewrite length_map | done | apply Hlens; intros c e Hp; apply Hp |].
  cbn [mbind result_bind].
  destruct (flatten_helper_spec T k (map c_adv cols)) as (adv & -> & Ladv & Eadv);
    [by rewrite length_map | done | apply Hlens; intros c e Hp; apply Hp |].
  cbn [mbind result_bind].
  eexists. split; [reflexivity|].
  assert (length (take k (drop start perm)) = k) as Lenvs
    by (rewrite length_take, length_drop; lia).
  unfold recurrent_batch_of. cbv zeta. rewrite Lenvs. cbn.
  split_and!; try done; [lia|].
  exists adv. split; [done|]. split; [done|].
  intros j e Hj.
  assert (j < k) as Hjk by (rewrite <- Lenvs; by eapply lookup_lt_Some).
  rewrite lookup_take, decide_True, lookup_drop in Hj by done.
  destruct (Hcol j Hjk) as (c & e' & Hc & He' & Hp).
  rewrite Hj in He'. injection He' as <-.
  assert (forall (B : Type) (g : env_columns Obs Hid Act R -> list B) (t : nat),
            map g cols !! j ≫= (fun col => col !! t) = g c !! t) as Hmap.
  { intros B g t. change (map g cols) with (g <$> cols).
    by rewrite list_lookup_fmap, Hc. }
  destruct Hp as (_ & Lh & _ & _ & _ & _ & _ & _ & Hh & Hsteps).
  split.
  - rewrite (concat_lookup_uniform 1);
      [|apply Hlens; intros c0 e0 Hp0; apply Hp0 | rewrite length_map; lia].
    rewrite Nat.div_1_r, Nat.mod_1_r, Hmap. done.
  - intros t Ht. destruct (Hsteps t Ht) as (? & ? & ? & ? & ? & ? & ?).
    rewrite Eob, Eab, Evb, Erb, Emb, Elb, Eadv by done. rewrite !Hmap. done.
Qed.

(** A group that runs past the end of the permutation. *)
Lemma recurrent_sample_overrun T N s a perm k start :
  well_shaped T N s -> shaped T N a -> Forall (fun e => e < N) perm ->
  start <= length perm -> length perm < start + k ->
  recurrent_sample s (Some a) perm k start = Raise IndexError.
Proof.
  intros Hs Ha Hperm Hlo Hhi. unfold recurrent_sample.
  set (m := length perm - start).
  replace k with (m + S (k - m - 1)) by lia.
  rewrite seq_app. cbn [seq].
  rewrite (mapM_result_fail _ _ _ _ IndexError); [done| |].
  - apply Forall_forall. intros j Hj. apply elem_of_seq in Hj.
    destruct (lookup_lt_is_Some_2 perm (start + j)) as [e He]; [lia|].
    assert (e < N) as HeN by (by eapply (Forall_lookup_1 _ _ _ _ Hperm)).
    destruct (recurrent_columns_ok T N s a perm start j e Hs Ha He HeN) as (c & Hc & _).
    by exists c.
  - apply recurrent_columns_overrun. lia.
Qed.
End RecurrentFacts.

Section RecurrentExtras.
Context {Obs Hid Act R : Type} `{Arith R}.
#[local] Abbreviation storage := (RolloutStorage Obs Hid Act R).
Implicit Types (s : storage) (a : tensor R) (perm : list nat).

(** One consumption of the generator for a minibatch count between 1 and
    [N]: the groups of [k = N // num_minibatches] environments that fit are
    yielded in order, and a last, shorter group ends the generator. *)
Lemma recurrent_generator_groups T N s a (nm : Z) perm :
  well_shaped T N s -> shaped T N a -> perm ≡ₚ seq 0 N ->
  (1 <= nm <= Z.of_nat N)%Z ->
  let k := Z.to_nat (Z.of_nat N / nm) in
  let tr := recurrent_generator s (Some a) nm perm in
  1 <= k /\
  Forall2 (fun g mb => recurrent_sample s (Some a) perm k (g * k) = Ok mb /\
                       recurrent_batch_of s a T (take k (drop (g * k) perm)) mb)
    (seq 0 (N / k)) (yielded tr) /\
  raised tr = (if decide (N mod k = 0) then None else Some IndexError).
Proof.
  intros Hs Ha Hperm Hnm. cbv zeta.
  set (kz := (Z.of_nat N / nm)%Z). set (k := Z.to_nat kz).
  assert (1 <= kz)%Z as Hkz by (apply Z.div_le_lower_bound; lia).
  assert (1 <= k) as Hk by lia.
  assert (kz = Z.of_nat k) as Hkk by lia.
  split; [done|].
  assert (Forall (fun e => e < N) perm) as Hbound by (by apply permutation_range_bound).
  assert (length perm = N) as Hlen
    by (by rewrite (Permutation_length Hperm), length_seq).
  unfold recurrent_generator.
  rewrite (proj1 (ws_rewards _ _ _ Hs)). fold kz.
  destruct (Z.ltb_spec (Z.of_nat N) nm); [lia|].
  destruct (Z.eqb_spec nm 0); [lia|].
  destruct (Z.eqb_spec kz 0); [lia|].
  fold k. rewrite Hkk, (range_step_groups N k Hk).
  pose proof (Nat.div_mod_eq N k) as Hdm.
  pose proof (Nat.mod_upper_bound N k ltac:(lia)) as Hlt.
  destruct (yield_each_prefix (recurrent_sample s (Some a) perm k)
              (fun st mb => forall g, st = g * k ->
                 recurrent_batch_of s a T (take k (drop (g * k) perm)) mb)
              (map (fun g => g * k) (seq 0 (N / k)))
              (if decide (N mod k = 0) then [] else [N / k * k]))
    as (outs & Hall & Hy & Hr).
  { apply Forall_forall. intros st Hst.
    apply list_elem_of_In, in_map_iff in Hst as (g & <- & Hg).
    apply list_elem_of_In, elem_of_seq in Hg.
    destruct (recurrent_sample_ok T N s a perm k (g * k) Hs Ha Hbound Hk) as (mb & Hmb & Hp);
      [nia|].
    exists mb. split; [done|]. intros g' Hg'.
    replace g' with g by nia. done. }
  rewrite Hy, Hr.
  assert (Forall2
            (fun g mb => recurrent_sample s (Some a) perm k (g * k) = Ok mb /\
                         recurrent_batch_of s a T (take k (drop (g * k) perm)) mb)
            (seq 0 (N / k)) outs) as Hgroups.
  { apply Forall2_fmap_l in Hall. eapply Forall2_impl; [exact Hall|].
    cbn. intros g mb (Hmb & Hp). split; [done|]. by apply Hp. }
  destruct (decide (N mod k = 0)) as [Hz|Hnz].
  - cbn. by rewrite app_nil_r.
  - cbn [yield_each].
    rewrite (recurrent_sample_overrun T N s a perm k (N / k * k)) by (done || nia).
    cbn. by rewrite app_nil_r.
Qed.

(** X18.  For a minibatch count [1 <= num_minibatches <= N] the generator
    batches [k = N // num_minibatches] environments at a time and yields
    [N // k] minibatches.  It ends without exception when [k] divides [N],
    in particular with exactly [num_minibatches] minibatches when
    [num_minibatches] divides [N]; otherwise it ends with an index error
    after these minibatches, when the last group runs past the end of the
    permutation. *)
Theorem recurrent_generator_trace T N s a (nm : Z) perm :
  well_shaped T N s -> shaped T N a -> perm ≡ₚ seq 0 N ->
  (1 <= nm <= Z.of_nat N)%Z ->
  let k := Z.to_nat (Z.of_nat N / nm) in
  let tr := recurrent_generator s (Some a) nm perm in
  1 <= k /\
  length (yielded tr) = N / k /\
  (N mod k = 0 -> raised tr = None) /\
  (N mod k <> 0 -> raised tr = Some IndexError) /\
  ((Z.of_nat N mod nm = 0)%Z ->
     raised tr = None /\ Z.of_nat (length (yielded tr)) = nm).
Proof.
  intros Hs Ha Hperm Hnm.
  destruct (recurrent_generator_groups T N s a nm perm Hs Ha Hperm Hnm)
    as (Hk & Hgroups & Hraised).
  cbv zeta. set (k := Z.to_nat (Z.of_nat N / nm)) in *.
  assert (length (yielded (recurrent_generator s (Some a) nm perm)) = N / k) as Hlen
    by (by rewrite <- (Forall2_length _ _ _ Hgroups), length_seq).
  split; [done|]. split; [done|]. split_and!.
  - intros Hz. by rewrite Hraised, decide_True.
  - intros Hnz. by rewrite Hraised, decide_False.
  - intros Hdiv.
    assert (Z.of_nat N = nm * (Z.of_nat N / nm))%Z as Heq
      by (apply Z_div_exact_full_2; [lia | done]).
    assert (N = Z.to_nat nm * k) as HN by (subst k; nia).
    assert (N mod k = 0) as Hz by (rewrite HN; apply Nat.Div0.mod_mul).
    split; [by rewrite Hraised, decide_True|].
    rewrite Hlen. rewrite HN at 1. rewrite Nat.div_mul by lia. lia.
Qed.

(** X19.  Every minibatch the generator yields holds whole trajectories:
    minibatch [g] is made of the environments at positions [g * k] to
    [g * k + k - 1] of the permutation, in that order, with the [T] steps of
    each in time order (step [t] of the [j]-th environment at position
    [t * k + j] of every per-step field, the advantages included) and one
    recurrent state per environment, the one stored in slot 0. *)
Theorem recurrent_generator_whole_trajectories T N s a (nm : Z) perm g mb :
  well_shaped T N s -> shaped T N a -> perm ≡ₚ seq 0 N ->
  (1 <= nm <= Z.of_nat N)%Z ->
  yielded (recurrent_generator s (Some a) nm perm) !! g = Some mb ->
  let k := Z.to_nat (Z.of_nat N / nm) in
  g * k + k <= N /\
  length (take k (drop (g * k) perm)) = k /\
  recurrent_batch_of s a T (take k (drop (g * k) perm)) mb.
Proof.
  intros Hs Ha Hperm Hnm Hg.
  destruct (recurrent_generator_groups T N s a nm perm Hs Ha Hperm Hnm)
    as (Hk & Hgroups & _).
  cbv zeta. set (k := Z.to_nat (Z.of_nat N / nm)) in *.
  assert (g < N / k) as Hlt.
  { rewrite <- (length_seq (N / k) 0), (Forall2_length _ _ _ Hgroups).
    by eapply lookup_lt_Some. }
  pose proof (Forall2_lookup_lr _ _ _ g g mb Hgroups) as Hgm.
  rewrite lookup_seq_lt in Hgm by done.
  destruct (Hgm eq_refl Hg) as (_ & Hp).
  assert (g * k + k <= N) as Hfit.
  { pose proof (Nat.div_mod_eq N k). nia. }
  split; [done|]. split; [|done].
  rewrite length_take, length_drop, (Permutation_length Hperm), length_seq. lia.
Qed.

(** X20.  The edge cases of the minibatch count: zero ends the generator
    with a division by zero; a negative count makes the group size negative,
    so that the generator silently yields nothing when there are
    environments, and fails with a value error (a zero range step) when
    there are none.  Without advantages a well-configured generator fails
    with a type error before its first minibatch. *)
Theorem recurrent_generator_edge_cases T N s adv a (nm : Z) perm :
  well_shaped T N s ->
  let tr := recurrent_generator s adv nm perm in
  (nm = 0%Z -> tr = mkTrace [] (Some ZeroDivisionError)) /\
  ((nm < 0)%Z -> 1 <= N -> tr = mkTrace [] None) /\
  ((nm < 0)%Z -> N = 0 -> tr = mkTrace [] (Some ValueError)) /\
  (adv = None -> shaped T N a -> perm ≡ₚ seq 0 N -> (1 <= nm <= Z.of_nat N)%Z ->
     tr = mkTrace [] (Some TypeError)).
Proof.
  intros Hs. cbv zeta. unfold recurrent_generator.
  rewrite (proj1 (ws_rewards _ _ _ Hs)). split_and!.
  - intros ->. by destruct (Z.ltb_spec (Z.of_nat N) 0); [lia|].
  - intros Hneg HN.
    destruct (Z.ltb_spec (Z.of_nat N) nm); [lia|].
    destruct (Z.eqb_spec nm 0); [lia|].
    assert (Z.of_nat N / nm < 0)%Z as Hq.
    { pose proof (Z.div_mod (Z.of_nat N) nm ltac:(lia)).
      pose proof (Z.mod_neg_bound (Z.of_nat N) nm Hneg). nia. }
    destruct (Z.eqb_spec (Z.of_nat N / nm) 0); [lia|].
    unfold range_step. by destruct (Z.leb_spec (Z.of_nat N / nm) 0); [|lia].
  - intros Hneg ->.
    destruct (Z.ltb_spec (Z.of_nat 0) nm); [lia|].
    destruct (Z.eqb_spec nm 0); [lia|]. done.
  - intros -> Ha Hperm Hnm.
    set (kz := (Z.of_nat N / nm)%Z). set (k := Z.to_nat kz).
    assert (1 <= kz)%Z as Hkz by (apply Z.div_le_lower_bound; lia).
    destruct (Z.ltb_spec (Z.of_nat N) nm); [lia|].
    destruct (Z.eqb_spec nm 0); [lia|].
    destruct (Z.eqb_spec kz 0); [lia|].
    assert (kz = Z.of_nat k) as Hkk by lia.
    rewrite Hkk, (range_step_groups N k ltac:(lia)).
    assert (1 <= N / k) as Hq.
    { apply Nat.div_le_lower_bound; [lia|]. subst k kz.
      assert (Z.of_nat N / nm <= Z.of_nat N)%Z by (apply Z.div_le_upper_bound; nia).
      lia. }
    destruct (N / k) as [|q] eqn:Eq; [lia|]. cbn [seq map app yield_each].
    fold k. unfold recurrent_sample.
    destruct k as [|k'] eqn:Ek; [lia|]. cbn [seq mapM].
    assert (exists e, perm !! 0 = Some e /\ e < N) as (e & He & HeN).
    { destruct (lookup_lt_is_Some_2 perm 0) as [e He].
      - rewrite (Permutation_length Hperm), length_seq. nia.
      - exists e. split; [done|].
        by eapply (Forall_lookup_1 _ _ _ _ (permutation_range_bound _ _ Hperm)). }
    unfold recurrent_columns. cbn [Nat.mul Nat.add]. rewrite He.
    cbn [mbind result_bind]. destruct Hs.
    destruct (column_drop_last T N (obs s) e) as (o & -> & _); [done..|].
    cbn [mbind result_bind].
    destruct (column_take_shaped (T + 1) N (recurrent_hidden_states s) 1 e)
      as (h & -> & _); [done | lia | done |].
    cbn [mbind result_bind].
    destruct (column_shaped T N (actions s) e) as (ac & -> & _); [done..|].
    cbn [mbind result_bind].
    destruct (column_drop_last T N (value_preds s) e) as (vp & -> & _); [done..|].
    cbn [mbind result_bind].
    destruct (column_drop_last T N (returns s) e) as (rt & -> & _); [done..|].
    cbn [mbind result_bind].
    destruct (column_drop_last T N (done_masks s) e) as (dm & -> & _); [done..|].
    cbn [mbind result_bind].
    destruct (column_shaped T N (action_log_probs s) e) as (lp & -> & _); [done..|].
    done.
Qed.
End RecurrentExtras.

Lemma numbered_buffer_3x4_shaped : well_shaped 3 4 (Examples.numbered_buffer 3 4).
Proof. constructor; cbn; repeat split; repeat constructor. Defined.

Lemma advantages_3x4_shaped : shaped 3 4 (full 3 4 0%Z).
Proof. repeat split; repeat constructor. Defined.

Lemma example_env_draw : [2; 0; 3; 1] ≡ₚ seq 0 4.
Proof.
  apply NoDup_Permutation.
  - repeat (constructor; [rewrite list_elem_of_In; cbn; lia|]). constructor.
  - apply NoDup_seq.
  - intros x. rewrite !list_elem_of_In. cbn. lia.
Defined.

Lemma recurrent_generator_trace_witness :
  let tr := recurrent_generator (Examples.numbered_buffer 3 4) (Some (full 3 4 0%Z))
              2 [2; 0; 3; 1] in
  raised tr = None /\ Z.of_nat (length (yielded tr)) = 2%Z.
Proof.
  destruct (recurrent_generator_trace 3 4 (Examples.numbered_buffer 3 4) (full 3 4 0%Z)
              2 [2; 0; 3; 1] numbered_buffer_3x4_shaped advantages_3x4_shaped
              example_env_draw) as (_ & _ & _ & _ & Hdiv).
  - cbn. lia.
  - apply Hdiv. reflexivity.
Defined.

Lemma recurrent_generator_whole_trajectories_witness :
  recurrent_batch_of (Examples.numbered_buffer 3 4) (full 3 4 0%Z) 3 [3; 1]
    (mkBatch [0; 0; 0; 0; 0; 0] [0; 0] [0; 0; 0; 0; 0; 0] [0; 0; 0; 0; 0; 0]
       [0; 0; 0; 0; 0; 0] [1; 1; 1; 1; 1; 1] [0; 0; 0; 0; 0; 0]
       (Some [0; 0; 0; 0; 0; 0]))%Z.
Proof.
  destruct (recurrent_generator_whole_trajectories 3 4 (Examples.numbered_buffer 3 4)
              (full 3 4 0%Z) 2 [2; 0; 3; 1] 1
              (mkBatch [0; 0; 0; 0; 0; 0] [0; 0] [0; 0; 0; 0; 0; 0] [0; 0; 0; 0; 0; 0]
                 [0; 0; 0; 0; 0; 0] [1; 1; 1; 1; 1; 1] [0; 0; 0; 0; 0; 0]
                 (Some [0; 0; 0; 0; 0; 0]))%Z
              numbered_buffer_3x4_shaped advantages_3x4_shaped example_env_draw)
    as (_ & _ & Hbatch).
  - cbn. lia.
  - reflexivity.
  - exact Hbatch.
Defined.

Lemma recurrent_generator_edge_cases_witness :
  recurrent_generator (Examples.numbered_buffer 3 4) (Some (full 3 4 0%Z)) (-2)
    [2; 0; 3; 1] = mkTrace [] None.
Proof.
  destruct (recurrent_generator_edge_cases 3 4 (Examples.numbered_buffer 3 4)
              (Some (full 3 4 0%Z)) (full 3 4 0%Z) (-2) [2; 0; 3; 1]
              numbered_buffer_3x4_shaped) as (_ & Hneg & _).
  apply Hneg; lia.
Defined.
(** ** The learning-rate schedule, call after call *)

Section ScheduleExtras.
Context {R : Type} `{Arith R}.
Implicit Types (self : PPO R) (g : param_group R).

Lemma with_param_groups_twice self gs gs' :
  with_param_groups (with_param_groups self gs) gs' = with_param_groups self gs'.
Proof. reflexivity. Qed.

Lemma with_param_groups_same self : with_param_groups self (param_groups self) = self.
Proof. by destruct self. Qed.

(** Scheduling the groups a schedule produced is scheduling the groups it
    started from. *)
Lemma schedule_groups_again self self' e1 n1 e2 n2 l gs :
  initial_actor_lr self' = initial_actor_lr self ->
  mapM (schedule_group self e1 n1) l = Ok gs ->
  mapM (schedule_group self' e2 n2) gs = mapM (schedule_group self e2 n2) l.
Proof.
  intros Hlr. revert gs. induction l as [|g l IH]; intros gs; cbn.
  - by intros [= <-].
  - destruct (schedule_group self e1 n1 g) as [g1|] eqn:Hg; cbn; [|done].
    destruct (mapM (schedule_group self e1 n1) l) as [gs1|] eqn:Hl; cbn; [|done].
    intros [= <-]. cbn. rewrite (IH gs1 eq_refl).
    assert (schedule_group self' e2 n2 g1 = schedule_group self e2 n2 g) as ->; [|done].
    revert Hg. unfold schedule_group. rewrite Hlr.
    destruct (String.eqb (pg_name g) OPT_ACTOR_PARAMS) eqn:Hname; cbn.
    + destruct (n1 =? 0)%Z; [done|]. intros [= <-]. cbn. by rewrite Hname.
    + intros [= <-]. by rewrite Hname.
Qed.

Lemma schedule_groups_zero_total self e l :
  mapM (schedule_group self e 0) l =
  if existsb (fun g => String.eqb (pg_name g) OPT_ACTOR_PARAMS) l
  then Raise ZeroDivisionError else Ok l.
Proof.
  induction l as [|g l IH]; [done|].
  cbn [mapM existsb]. rewrite IH. unfold schedule_group.
  destruct (String.eqb (pg_name g) OPT_ACTOR_PARAMS); cbn; [done|].
  by destruct (existsb _ l).
Qed.

(** X21.  The schedule does not compound: the rate is always computed from
    the initial actor rate, so that scheduling again after a successful
    call gives what the second call alone gives on the original object,
    whatever the first call's epoch was. *)
Theorem update_linear_schedule_not_cumulative self self1 e1 n1 e2 n2 :
  update_linear_schedule self e1 n1 = Ok self1 ->
  update_linear_schedule self1 e2 n2 = update_linear_schedule self e2 n2.
Proof.
  unfold update_linear_schedule.
  destruct (mapM (schedule_group self e1 n1) (param_groups self)) as [gs|] eqn:Hgs;
    cbn [mbind result_bind]; [|done].
  intros [= <-]. change (param_groups (with_param_groups self gs)) with gs.
  rewrite (schedule_groups_again self (with_param_groups self gs) e1 n1 e2 n2
             (param_groups self) gs eq_refl Hgs).
  by destruct (mapM (schedule_group self e2 n2) (param_groups self)).
Qed.

(** X22.  With [total_epochs = 0] the schedule raises a division by zero
    exactly when some parameter group carries the actor's name, as every
    optimizer [PPO.__init__] builds does; without such a group it returns
    with the object unchanged. *)
Theorem update_linear_schedule_division_by_zero self e :
  update_linear_schedule self e 0 =
    (if existsb (fun g => String.eqb (pg_name g) OPT_ACTOR_PARAMS) (param_groups self)
     then Raise ZeroDivisionError else Ok self) /\
  forall clip ne nm ec vc alr clr eps mgn ucl,
    update_linear_schedule (ppo_init clip ne nm ec vc alr clr eps mgn ucl) e 0
    = Raise ZeroDivisionError.
Proof.
  split.
  - unfold update_linear_schedule. rewrite schedule_groups_zero_total.
    destruct (existsb _ (param_groups self)); cbn; [done|].
    by rewrite with_param_groups_same.
  - intros. reflexivity.
Qed.
End ScheduleExtras.

Lemma update_linear_schedule_not_cumulative_witness :
  update_linear_schedule
    (with_param_groups (ppo_init 1 4 4 1 1 8 1 None None true)
       [mkGroup OPT_ACTOR_PARAMS 0 None; mkGroup OPT_CRITIC_PARAMS 1 None])%Z 2 4
  = update_linear_schedule (ppo_init 1 4 4 1 1 8 1 None None true)%Z 2 4.
Proof.
  apply (update_linear_schedule_not_cumulative
           (ppo_init 1 4 4 1 1 8 1 None None true)%Z _ 4 4 2 4).
  reflexivity.
Defined.
(** ** The update engine on well-shaped buffers *)

Section UpdateExtras.
Context {Obs Hid Act R Params : Type} `{Arith R} `{TorchOps R}.
Implicit Types (self : PPO R) (policy : actor_critic Obs Hid Act R Params).
Implicit Types (rollouts : RolloutStorage Obs Hid Act R).
Implicit Types (sample : minibatch Obs Hid Act R) (p : Params).


Lemma broadcast2_same_length (f : R -> R -> R) (u v : list R) :
  length u = length v ->
  broadcast2 f (Tens u) (Tens v) = Ok (Tens (zip_with f u v)).
Proof. intros Hl. cbn. by rewrite Hl, Nat.eqb_refl. Qed.

(** The element-wise difference of two tensors of one shape. *)
Lemma tensor2_shaped (f : R -> R -> R) k n (a b : tensor R) :
  shaped k n a -> shaped k n b ->
  exists c, tensor2 f a b = Ok c /\ shaped k n c.
Proof.
  intros (Ha1 & Ha2 & Ha3) (Hb1 & Hb2 & Hb3). unfold tensor2, size0.
  rewrite Ha1, Hb1, Ha2, Hb2, !Nat.eqb_refl. cbn [mbind result_bind].
  destruct (mapM_result_ok_with
              (fun uv : list R * list R =>
                 x ← broadcast2 f (Tens uv.1) (Tens uv.2);
                 match x with Tens l => Ok l | Num y => Ok [y] end)
              (fun _ r => length r = n) (zip (rows a) (rows b)))
    as (rs & -> & Hrs).
  { apply Forall_forall. intros [u v] Huv.
    apply elem_of_zip_l in Huv as Hu. apply elem_of_zip_r in Huv as Hv. cbn in Hu, Hv.
    pose proof (proj1 (Forall_forall _ _) Ha3 u Hu) as Hlu.
    pose proof (proj1 (Forall_forall _ _) Hb3 v Hv) as Hlv.
    cbn beta in Hlu, Hlv. cbn [fst snd]. rewrite broadcast2_same_length by lia. cbn.
    eexists. split; [done|]. rewrite length_zip_with. lia. }
  cbn [mbind result_bind]. eexists. split; [done|]. split_and!; cbn.
  - done.
  - rewrite <- (Forall2_length _ _ _ Hrs), length_zip. lia.
  - clear -Hrs. induction Hrs; constructor; done.
Qed.

(** lines 108-109 on a well-shaped buffer *)
Lemma normalized_advantages_shaped T N rollouts :
  well_shaped T N rollouts ->
  exists adv, normalized_advantages rollouts = Ok adv /\ shaped T N adv.
Proof.
  intros Hs. unfold normalized_advantages.
  destruct (tensor2_shaped rsub T N (drop_last (returns rollouts))
              (drop_last (value_preds rollouts)))
    as (adv & -> & Hn & Hk & Hall).
  { apply drop_last_shaped, Hs. }
  { apply drop_last_shaped, Hs. }
  cbn [mbind result_bind]. eexists. split; [done|]. split_and!; cbn.
  - done.
  - by rewrite length_map.
  - apply Forall_map. eapply Forall_impl; [exact Hall|].
    intros r Hr. cbn. by rewrite length_map.
Qed.




Lemma for_each_first_raises {S : Type} (body : nat -> S -> result S)
    (l : list nat) (s : S) e :
  l <> [] -> (forall i s, body i s = Raise e) -> for_each body l s = Raise e.
Proof. destruct l as [|i l]; [done|]. intros _ Hbody. cbn. by rewrite Hbody. Qed.

Lemma range_positive (n : Z) : (1 <= n)%Z -> range n <> [].
Proof.
  intros Hn. unfold range. destruct (Z.to_nat n) eqn:E; [lia | done].
Qed.







(** X25.  The configurations [update] rejects, on a well-shaped buffer:
    zero epochs end in a division by zero after no update at all; with at
    least one epoch, a minibatch count of zero is a division by zero and a
    count above the number of transitions (of environments, for a recurrent
    policy) an assertion error, both raised by the generator of the first
    epoch.  A negative number of epochs is not rejected: no update is
    performed, the parameters are returned as they were and the three
    scalars are zero sums divided by the negative product. *)
Theorem update_configuration_errors T N self policy rollouts perms p :
  well_shaped T N rollouts ->
  let num_updates := (num_epochs self * num_minibatches self)%Z in
  (num_epochs self = 0%Z ->
     update self policy rollouts perms p = Raise ZeroDivisionError) /\
  ((1 <= num_epochs self)%Z -> num_minibatches self = 0%Z ->
     update self policy rollouts perms p = Raise ZeroDivisionError) /\
  ((1 <= num_epochs self)%Z ->
   (Z.of_nat (if is_recurrent policy then N else T * N) < num_minibatches self)%Z ->
     update self policy rollouts perms p = Raise AssertionError) /\
  ((num_epochs self < 0)%Z -> num_minibatches self <> 0%Z ->
     update self policy rollouts perms p =
       Ok (p, (rdiv r0 (of_Z num_updates), rdiv r0 (of_Z num_updates),
               rdiv r0 (of_Z num_updates)))).
Proof.
  intros Hs. cbv zeta.
  destruct (normalized_advantages_shaped T N rollouts Hs) as (adv & Hadv & Ha).
  destruct (ws_rewards _ _ _ Hs) as (Hn & Hk & _).
  split_and!.
  - intros Hne. unfold update, update_log. rewrite Hadv, Hne. reflexivity.
  - intros Hne Hnm. unfold update, update_log. rewrite Hadv. cbn [mbind result_bind].
    rewrite (for_each_first_raises _ _ _ ZeroDivisionError);
      [done | by apply range_positive |].
    intros e st. unfold epoch, recurrent_generator, feed_forward_generator,
      feed_forward_minibatch_size, size0.
    rewrite Hnm, Hn, Hk.
    destruct (is_recurrent policy).
    + by destruct (Z.ltb_spec (Z.of_nat N) 0); [lia|].
    + by destruct (Z.ltb_spec (Z.of_nat (N * T)) 0); [lia|].
  - intros Hne Hnm. unfold update, update_log. rewrite Hadv. cbn [mbind result_bind].
    rewrite (for_each_first_raises _ _ _ AssertionError);
      [done | by apply range_positive |].
    intros e st. unfold epoch, recurrent_generator, feed_forward_generator,
      feed_forward_minibatch_size, size0.
    rewrite Hn, Hk.
    destruct (is_recurrent policy).
    + by destruct (Z.ltb_spec (Z.of_nat N) (num_minibatches self)); [|lia].
    + by destruct (Z.ltb_spec (Z.of_nat (N * T)) (num_minibatches self)); [|lia].
  - intros Hne Hnm. unfold update, update_log. rewrite Hadv. cbn [mbind result_bind].
    unfold range. replace (Z.to_nat (num_epochs self)) with 0 by lia.
    cbn [seq for_each mbind result_bind snd fst accumulate fold_left].
    by destruct (Z.eqb_spec (num_epochs self * num_minibatches self) 0); [nia|].
Qed.
End UpdateExtras.

Lemma zero_buffer_shaped {R : Type} `{Arith R} T N :
  well_shaped T N (Examples.zero_buffer (R := R) T N).
Proof. constructor; cbn; first [by apply shaped_full | done]. Defined.





Lemma update_configuration_errors_witness :
  update (ppo_init r1 0 2 r0 r1 r1 r1 None None true) Symbolic.constant_recurrent_policy
    (Examples.zero_buffer 3 2) (fun _ => seq 0 2) tt
  = Raise ZeroDivisionError.
Proof.
  destruct (update_configuration_errors 3 2
              (ppo_init r1 0 2 r0 r1 r1 r1 None None true)
              Symbolic.constant_recurrent_policy (Examples.zero_buffer 3 2)
              (fun _ => seq 0 2) tt (zero_buffer_shaped 3 2)) as (Hzero & _).
  apply Hzero. reflexivity.
Defined.
(** ** The buffer as a ring, and the shapes [insert] accepts *)

Section BroadcastFacts.
Context {A : Type}.
Implicit Types (v : list A).

Lemma length_expand N v : broadcastable N v -> length (expand N v) = N.
Proof.
  intros [Hv|Hv]; destruct v as [|x [|y v]]; cbn in *;
    rewrite ?length_replicate; lia.
Qed.

Lemma broadcast_to_expand N v :
  broadcastable N v -> broadcast_to N v = Ok (expand N v).
Proof.
  intros Hb. unfold broadcast_to.
  destruct (Nat.eqb_spec (length v) N) as [Hv|Hv].
  - destruct v as [|x [|y v]]; cbn in *; try done. by subst N.
  - destruct Hb as [Hb|Hb]; [done|]. by destruct v as [|x [|y v]].
Qed.

Lemma broadcast_to_mismatch N v :
  ~ broadcastable N v -> broadcast_to N v = Raise RuntimeError.
Proof.
  intros Hb. unfold broadcast_to.
  destruct (Nat.eqb_spec (length v) N) as [Hv|Hv]; [by destruct Hb; left|].
  destruct v as [|x [|y v]]; try done. destruct Hb. by right.
Qed.

(** A write into an existing row either broadcasts its source or rejects
    it. *)
Lemma set_row_cases k n (t : tensor A) i v :
  shaped k n t -> i < k ->
  (broadcastable n v /\
   set_row t i v = Ok (Tensor n (<[i := expand n v]> (rows t))) /\
   set_row t i v = set_row t i (expand n v)) \/
  (~ broadcastable n v /\ set_row t i v = Raise RuntimeError).
Proof.
  intros Ht Hi. destruct (shaped_lookup _ _ _ _ Ht Hi) as (r & Hr & _).
  destruct Ht as (Hn & _). unfold set_row. rewrite Hr, Hn.
  destruct (decide (broadcastable n v)) as [Hb|Hb].
  - left. rewrite (broadcast_to_expand _ _ Hb).
    rewrite (broadcast_to_same n (expand n v)) by (by apply length_expand). done.
  - right. by rewrite (broadcast_to_mismatch _ _ Hb).
Qed.

Lemma set_last_cases k n (t : tensor A) v :
  shaped (k + 1) n t ->
  (broadcastable n v /\ set_last t v = set_last t (expand n v)) \/
  (~ broadcastable n v /\ set_last t v = Raise RuntimeError).
Proof.
  intros Ht. unfold set_last, size0. rewrite (proj1 (proj2 Ht)).
  replace (k + 1) with (S k) by lia.
  destruct (set_row_cases (k + 1) n t k v Ht ltac:(lia)) as [(? & _ & ?)|(? & ?)];
    [by left | by right].
Qed.
End BroadcastFacts.

Section RingExtras.
Context {Obs Hid Act R : Type} `{Arith R}.
#[local] Abbreviation storage := (RolloutStorage Obs Hid Act R).
Implicit Types (s : storage) (d : transition Obs Hid Act R).

(** After any run of [insert] calls a step of the buffer holds the last
    transition that was written to it. *)
Lemma insert_all_ring T N s ds :
  well_shaped T N s -> step s < T -> Forall (transition_shaped N) ds ->
  exists s',
    insert_all s ds = Ok s' /\ well_shaped T N s' /\
    step s' = (step s + length ds) mod T /\
    (forall t j d, ds !! j = Some d -> (step s + j) mod T = t ->
       (forall j', j < j' < length ds -> (step s + j') mod T <> t) ->
       stored_transition s' t = Some d) /\
    (forall t, (forall j, j < length ds -> (step s + j) mod T <> t) ->
       stored_transition s' t = stored_transition s t).
Proof.
  intros Hs Hst Hds. revert s Hs Hst.
  induction Hds as [|d ds Hd Hds IH]; intros s Hs Hst.
  - exists s. cbn. rewrite Nat.add_0_r, Nat.mod_small by done.
    split_and!; try done.
  - destruct (insert_transition_stored T N s d Hs Hst Hd)
      as (s1 & Hins & Hs1 & Hstep & Hnew & Hold & _).
    assert (step s1 < T) as Hst1 by (rewrite Hstep; apply Nat.mod_upper_bound; lia).
    destruct (IH s1 Hs1 Hst1) as (s' & Hall & Hs' & Hcur & Hlast & Hkeep).
    assert (forall j, (step s1 + j) mod T = (step s + S j) mod T) as Hshift.
    { intros j. rewrite Hstep, Nat.Div0.add_mod_idemp_l. f_equal. lia. }
    exists s'. cbn [insert_all length]. rewrite Hins. cbn [mbind result_bind].
    split_and!; try done.
    + rewrite Hcur, Hshift. done.
    + intros t j d' Hj Ht Hlater. destruct j as [|j].
      * injection Hj as <-. rewrite Nat.add_0_r, Nat.mod_small in Ht by done.
        subst t. rewrite Hkeep; [done|].
        intros j Hj. rewrite Hshift. apply Hlater. lia.
      * cbn in Hj. apply (Hlast t j d' Hj); [by rewrite Hshift|].
        intros j' Hj'. rewrite Hshift. apply Hlater. lia.
    + intros t Ht. rewrite Hkeep.
      * apply Hold. intros ->. apply (Ht 0); [lia|].
        by rewrite Nat.add_0_r, Nat.mod_small.
      * intros j Hj. rewrite Hshift. apply Ht. lia.
Qed.

(** X26.  The buffer is a ring: a run of [insert] calls of any length,
    from any cursor below [T], succeeds, advances the cursor by its length
    modulo [T] and leaves in every step the last transition written to it,
    transition [j] being written to step [(cursor + j) mod T]; steps the run
    does not reach keep what they held.  After any number of complete
    rollouts from cursor 0 the buffer therefore reads back as the last of
    them. *)
Theorem insert_all_overwrites_cyclically T N s ds :
  well_shaped T N s -> step s < T -> Forall (transition_shaped N) ds ->
  exists s',
    insert_all s ds = Ok s' /\ well_shaped T N s' /\
    step s' = (step s + length ds) mod T /\
    (forall t j d, ds !! j = Some d -> (step s + j) mod T = t ->
       (forall j', j < j' < length ds -> (step s + j') mod T <> t) ->
       stored_transition s' t = Some d) /\
    (forall t, (forall j, j < length ds -> (step s + j) mod T <> t) ->
       stored_transition s' t = stored_transition s t) /\
    (forall ds1 ds2, ds = ds1 ++ ds2 -> step s = 0 ->
       length ds1 mod T = 0 -> length ds2 = T ->
       forall t, t < T -> stored_transition s' t = ds2 !! t).
Proof.
  intros Hs Hst Hds.
  destruct (insert_all_ring T N s ds Hs Hst Hds)
    as (s' & Hall & Hs' & Hcur & Hlast & Hkeep).
  exists s'. split_and!; try done.
  intros ds1 ds2 -> Hzero Hfull Hlen2 t Ht.
  destruct (lookup_lt_is_Some_2 ds2 t) as [d Hd]; [lia|].
  rewrite Hd. apply (Hlast t (length ds1 + t) d).
  - rewrite lookup_app_r by lia. by replace (length ds1 + t - length ds1) with t by lia.
  - rewrite Hzero. cbn. rewrite <- Nat.Div0.add_mod_idemp_l, Hfull. cbn.
    by apply Nat.mod_small.
  - intros j' Hj'. rewrite length_app in Hj'. rewrite Hzero. cbn.
    replace j' with (length ds1 + (j' - length ds1)) by lia.
    rewrite <- Nat.Div0.add_mod_idemp_l, Hfull. cbn.
    rewrite Nat.mod_small by lia. lia.
Qed.

Lemma insert_transition_expand T N s d :
  well_shaped T N s -> step s < T -> transition_broadcastable N d ->
  insert_transition s d = insert_transition s (expand_transition N d).
Proof.
  intros Hs Hst (H1 & H2 & H3 & H4 & H5 & H6 & H7 & H8). destruct Hs.
  unfold insert_transition, insert. cbn [expand_transition t_obs t_hid t_actions
    t_action_log_probs t_value_preds t_rewards t_done_masks t_time_limit_masks].
  destruct (set_row_cases (T + 1) N (obs s) (step s + 1) (t_obs d))
    as [(_ & _ & ->)|(? & _)]; [done | lia | | done].
  destruct (set_row_cases (T + 1) N (recurrent_hidden_states s) (step s + 1) (t_hid d))
    as [(_ & _ & ->)|(? & _)]; [done | lia | | done].
  destruct (set_row_cases T N (actions s) (step s) (t_actions d))
    as [(_ & _ & ->)|(? & _)]; [done | lia | | done].
  destruct (set_row_cases T N (action_log_probs s) (step s) (t_action_log_probs d))
    as [(_ & _ & ->)|(? & _)]; [done | lia | | done].
  destruct (set_row_cases (T + 1) N (value_preds s) (step s) (t_value_preds d))
    as [(_ & _ & ->)|(? & _)]; [done | lia | | done].
  destruct (set_row_cases T N (rewards s) (step s) (t_rewards d))
    as [(_ & _ & ->)|(? & _)]; [done | lia | | done].
  destruct (set_row_cases (T + 1) N (done_masks s) (step s + 1) (t_done_masks d))
    as [(_ & _ & ->)|(? & _)]; [done | lia | | done].
  destruct (set_row_cases (T + 1) N (time_limit_masks s) (step s + 1)
              (t_time_limit_masks d))
    as [(_ & _ & ->)|(? & _)]; [done | lia | | done].
  done.
Qed.

Lemma insert_transition_mismatch T N s d :
  well_shaped T N s -> step s < T -> ~ transition_broadcastable N d ->
  insert_transition s d = Raise RuntimeError.
Proof.
  intros Hs Hst Hnb. destruct Hs.
  unfold insert_transition, insert.
  destruct (set_row_cases (T + 1) N (obs s) (step s + 1) (t_obs d))
    as [(H1 & -> & _)|(_ & ->)]; [done | lia | | done].
  cbn [mbind result_bind].
  destruct (set_row_cases (T + 1) N (recurrent_hidden_states s) (step s + 1) (t_hid d))
    as [(H2 & -> & _)|(_ & ->)]; [done | lia | | done].
  cbn [mbind result_bind].
  destruct (set_row_cases T N (actions s) (step s) (t_actions d))
    as [(H3 & -> & _)|(_ & ->)]; [done | lia | | done].
  cbn [mbind result_bind].
  destruct (set_row_cases T N (action_log_probs s) (step s) (t_action_log_probs d))
    as [(H4 & -> & _)|(_ & ->)]; [done | lia | | done].
  cbn [mbind result_bind].
  destruct (set_row_cases (T + 1) N (value_preds s) (step s) (t_value_preds d))
    as [(H5 & -> & _)|(_ & ->)]; [done | lia | | done].
  cbn [mbind result_bind].
  destruct (set_row_cases T N (rewards s) (step s) (t_rewards d))
    as [(H6 & -> & _)|(_ & ->)]; [done | lia | | done].
  cbn [mbind result_bind].
  destruct (set_row_cases (T + 1) N (done_masks s) (step s + 1) (t_done_masks d))
    as [(H7 & -> & _)|(_ & ->)]; [done | lia | | done].
  cbn [mbind result_bind].
  destruct (set_row_cases (T + 1) N (time_limit_masks s) (step s + 1)
              (t_time_limit_masks d))
    as [(H8 & -> & _)|(_ & ->)]; [done | lia | | done].
  destruct Hnb. done.
Qed.

(** X27.  [insert] accepts exactly the arguments [copy_] can broadcast:
    when every argument has leading dimension [N] or 1 the call succeeds
    and stores, as step [step s], the arguments with the single-entry ones
    repeated for all [N] environments, leaving the other steps alone; when
    some argument has another leading dimension the call fails with a
    runtime error. *)
Theorem insert_argument_shapes T N s d :
  well_shaped T N s -> step s < T ->
  match insert_transition s d with
  | Ok s' =>
      transition_broadcastable N d /\ well_shaped T N s' /\
      step s' = (step s + 1) mod T /\
      stored_transition s' (step s) = Some (expand_transition N d) /\
      forall t, t <> step s -> stored_transition s' t = stored_transition s t
  | Raise e => e = RuntimeError /\ ~ transition_broadcastable N d
  end.
Proof.
  intros Hs Hst.
  destruct (decide (transition_broadcastable N d)) as [Hb|Hb].
  - rewrite (insert_transition_expand T N s d Hs Hst Hb).
    destruct (insert_transition_stored T N s (expand_transition N d) Hs Hst)
      as (s' & -> & Hs' & Hstep & Hnew & Hold & _).
    { destruct Hb as (H1 & H2 & H3 & H4 & H5 & H6 & H7 & H8).
      constructor; cbn; by apply length_expand. }
    done.
  - by rewrite (insert_transition_mismatch T N s d Hs Hst Hb).
Qed.

(** X28.  The bootstrap value is broadcast like any assigned source: a
    single-entry value stands for that value in all [N] environments, in
    every variant of [compute_returns], and a bootstrap value whose leading
    dimension is neither [N] nor 1 is rejected with a runtime error before
    any return is computed. *)
Theorem compute_returns_bootstrap_shape T N s nv use_gae gamma gae_lambda proper :
  well_shaped T N s ->
  (forall x, nv = [x] ->
     compute_returns s nv use_gae gamma gae_lambda proper =
     compute_returns s (replicate N x) use_gae gamma gae_lambda proper) /\
  (~ broadcastable N nv ->
     compute_returns s nv use_gae gamma gae_lambda proper = Raise RuntimeError).
Proof.
  intros Hs. destruct Hs. split.
  - intros x ->. unfold compute_returns.
    destruct (set_last_cases T N (value_preds s) [x]) as [(_ & Hvp)|(Hn & _)];
      [done | | destruct Hn; by right].
    destruct (set_last_cases T N (returns s) [x]) as [(_ & Hrt)|(Hn & _)];
      [done | | destruct Hn; by right].
    cbn [expand] in Hvp, Hrt. by rewrite Hvp, Hrt.
  - intros Hnb. unfold compute_returns.
    destruct (set_last_cases T N (value_preds s) nv) as [(Hb & _)|(_ & ->)];
      [done | done |].
    destruct (set_last_cases T N (returns s) nv) as [(Hb & _)|(_ & ->)];
      [done | done |].
    by destruct proper, use_gae.
Qed.
End RingExtras.

Lemma insert_all_overwrites_cyclically_witness :
  exists s',
    insert_all Examples.buffer_2x1
      [Examples.transition_1; MoreExamples.transition_2; Examples.transition_1]
      = Ok s' /\
    step s' = 1.
Proof.
  destruct (insert_all_overwrites_cyclically 2 1 Examples.buffer_2x1
              [Examples.transition_1; MoreExamples.transition_2; Examples.transition_1]
              buffer_2x1_shaped)
    as (s' & Hs' & _ & Hcur & _).
  - cbn. lia.
  - repeat constructor.
  - exists s'. split; [exact Hs' | exact Hcur].
Defined.

(** Three steps into a buffer of two: the third overwrites the first. *)
Example insert_all_overwrites_example :
  match insert_all Examples.buffer_2x1
          [Examples.transition_1; MoreExamples.transition_2; Examples.transition_1] with
  | Ok s' =>
      stored_transition s' 0 = Some Examples.transition_1 /\
      stored_transition s' 1 = Some MoreExamples.transition_2 /\
      step s' = 1
  | Raise _ => False
  end.
Proof. vm_compute. done. Qed.

Lemma insert_argument_shapes_witness :
  match insert_transition (Examples.numbered_buffer 3 2)
          (mkTransition [1; 2] [3] [4; 5] [6] [7] [8] [1] [1])%Z with
  | Ok s' =>
      transition_broadcastable 2 (mkTransition [1; 2] [3] [4; 5] [6] [7] [8] [1] [1])%Z /\
      well_shaped 3 2 s' /\
      step s' = (step (Examples.numbered_buffer 3 2) + 1) mod 3 /\
      stored_transition s' (step (Examples.numbered_buffer 3 2)) =
        Some (expand_transition 2 (mkTransition [1; 2] [3] [4; 5] [6] [7] [8] [1] [1])%Z) /\
      forall t, t <> step (Examples.numbered_buffer 3 2) ->
        stored_transition s' t = stored_transition (Examples.numbered_buffer 3 2) t
  | Raise e =>
      e = RuntimeError /\
      ~ transition_broadcastable 2 (mkTransition [1; 2] [3] [4; 5] [6] [7] [8] [1] [1])%Z
  end.
Proof.
  apply (insert_argument_shapes 3 2); [exact numbered_buffer_3x2_shaped | cbn; lia].
Defined.

(** A single-entry reward is stored for both environments; a reward of
    three entries is rejected. *)
Example insert_argument_shapes_example :
  match insert_transition (Examples.numbered_buffer 3 2)
          (mkTransition [1; 2] [3] [4; 5] [6] [7] [8] [1] [1])%Z with
  | Ok s' => rows (rewards s') !! 0 = Some [8; 8]%Z
  | Raise _ => False
  end /\
  insert_transition (Examples.numbered_buffer 3 2)
    (mkTransition [1; 2] [3] [4; 5] [6] [7] [8; 8; 8] [1] [1])%Z
  = Raise RuntimeError.
Proof. vm_compute. done. Qed.

Lemma compute_returns_bootstrap_shape_witness :
  (forall x, [5]%Z = [x] ->
     compute_returns (Examples.numbered_buffer 3 2) [5]%Z true 1%Z 1%Z true =
     compute_returns (Examples.numbered_buffer 3 2) (replicate 2 x) true 1%Z 1%Z true) /\
  (~ broadcastable 2 [5]%Z ->
     compute_returns (Examples.numbered_buffer 3 2) [5]%Z true 1%Z 1%Z true
     = Raise RuntimeError).
Proof.
  apply (compute_returns_bootstrap_shape 3 2). exact numbered_buffer_3x2_shaped.
Defined.
(** ** One training iteration *)

Section IterationExtras.
Context {Obs Hid Act R Params : Type} `{Arith R} `{TorchOps R}.
Implicit Types (self : PPO R) (policy : actor_critic Obs Hid Act R Params).
Implicit Types (s : RolloutStorage Obs Hid Act R).

End IterationExtras.

